(** * Street-run game: the frame loop, the pools and the animation sequencer

    A shallow embedding of the game core of the repository
    (Obstacles.js, Coins.js, Player.js, Environment.js and GameCanvas.js)
    together with the properties its specification states about it and
    further properties read off the code.

    Numbers.  JavaScript numbers are modelled as exact rationals ([Q]); the
    rounding of IEEE doubles is outside this model.  Counters that only ever
    hold integers (lane index, coin count, milliseconds) are [Z].

    Mutation.  The module-level arrays and the React refs are fields of
    explicit state records that every function takes and returns.
    [Array.prototype.forEach] over a pool whose elements are mutated in place
    is [forEach] below: a left-to-right traversal threading the rest of the
    state. *)

From Stdlib Require Import QArith Qround Qabs Qpower ZArith List Bool String.
From Stdlib Require Import Lia Lqa.
From Stdlib Require Import DecimalString.
Import ListNotations.
Local Open Scope Q_scope.

(** ** The JavaScript runtime *)

Module JS.

(** [Math.random()] is an oracle.  A draw is 53 random bits scaled into
    the unit interval, so every draw [r] satisfies [0 <= r < 1] whatever
    the oracle answers. *)
Record RandomSource := { bits : nat -> Z; drawn : nat }.

Definition Math_random (r : RandomSource) : Q * RandomSource :=
  (Qmake (bits r (drawn r) mod 2 ^ 53) (2 ^ 53),
   {| bits := bits r; drawn := S (drawn r) |}).

Definition Math_floor (q : Q) : Z := Qfloor q.

(** [xs[i]]: [None] stands for [undefined]. *)
Definition index {A} (xs : list A) (i : Z) : option A :=
  if (i <? 0)%Z then None else nth_error xs (Z.to_nat i).

(** [xs.forEach(f)] where [f] mutates the visited element and the
    surrounding state [E]; the array itself keeps its length. *)
Fixpoint forEach {A E} (f : E -> A -> A * E) (e : E) (xs : list A)
  : list A * E :=
  match xs with
  | [] => ([], e)
  | x :: rest =>
      let '(x', e1) := f e x in
      let '(rest', e2) := forEach f e1 rest in
      (x' :: rest', e2)
  end.

(** Of the console only [console.warn] and [console.error] are modelled;
    the informational [console.log] lines are left out throughout. *)
Inductive Level := Warn | Error.
Definition Console := list (Level * string).

(** The two ambient resources every module shares: the one stream behind
    [Math.random] and the console. *)
Record Runtime := { random : RandomSource; console : Console }.

Definition console_write (lv : Level) (msg : string) (rt : Runtime) : Runtime :=
  {| random := random rt; console := console rt ++ [(lv, msg)] |}.

Definition draw (rt : Runtime) : Q * Runtime :=
  let '(u, r') := Math_random (random rt) in
  (u, {| random := r'; console := console rt |}).

(** Comparisons of numbers, as booleans. *)
Definition gt (a b : Q) : bool := negb (Qle_bool a b).
Definition lt (a b : Q) : bool := negb (Qle_bool b a).
Definition le (a b : Q) : bool := Qle_bool a b.

Definition Math_abs (q : Q) : Q := Qabs q.
Definition Math_max (a b : Z) : Z := Z.max a b.
Definition Math_min (a b : Z) : Z := Z.min a b.

End JS.

(** ** The parts of three.js the game uses *)

Module THREE.

Record Vector3 := { x : Q; y : Q; z : Q }.

Record Box3 := { min : Vector3; max : Vector3 }.

(** [Box3.intersectsBox]: closed intervals on the three axes. *)
Definition intersectsBox (a b : Box3) : bool :=
  Qle_bool (x (min a)) (x (max b)) && Qle_bool (x (min b)) (x (max a)) &&
  Qle_bool (y (min a)) (y (max b)) && Qle_bool (y (min b)) (y (max a)) &&
  Qle_bool (z (min a)) (z (max b)) && Qle_bool (z (min b)) (z (max a)).

(** An [Object3D] as far as the game reads it: its position, its
    visibility flag and the [userData] slot, whose contents differ for the
    player, a barrier and a coin. *)
Record Object3D (U : Type) := {
  position : Vector3;
  visible : bool;
  userData : U
}.
Arguments position {U} _.
Arguments visible {U} _.
Arguments userData {U} _.

Definition set_position {U} (o : Object3D U) (p : Vector3) : Object3D U :=
  {| position := p; visible := visible o; userData := userData o |}.

End THREE.

(** ** The game state record (GameCanvas.js, [defaultGameState]) *)

Module Game.

Record GameState := {
  speed : Q;
  maxSpeed : Q;
  gravity : Q;
  score : Z;
  coinCount : Z;
  multiplier : Z;
  currentLane : Z;
  laneDistance : Q;
  active : bool;
  maxCoins : Z;
  isSliding : bool;
  (* [defaultGameState] has no [isJumping] property; Player.js reads it
     all the same, and an absent property reads as falsy. *)
  isJumping : bool
}.

Definition defaultGameState : GameState := {|
  speed := 0.3;
  maxSpeed := 0.5;
  gravity := -20;
  score := 0;
  coinCount := 0;
  multiplier := 1;
  currentLane := 0;
  laneDistance := 4;
  active := true;
  maxCoins := 5;
  isSliding := false;
  isJumping := false
|}.

(** Object spread with one property replaced, [{ ...prev, f: v }], and the
    assignment [g.f = v]. *)
Definition set_currentLane (v : Z) (g : GameState) : GameState :=
  {| speed := speed g; maxSpeed := maxSpeed g; gravity := gravity g;
     score := score g; coinCount := coinCount g; multiplier := multiplier g;
     currentLane := v; laneDistance := laneDistance g; active := active g;
     maxCoins := maxCoins g; isSliding := isSliding g;
     isJumping := isJumping g |}.

Definition set_active (v : bool) (g : GameState) : GameState :=
  {| speed := speed g; maxSpeed := maxSpeed g; gravity := gravity g;
     score := score g; coinCount := coinCount g; multiplier := multiplier g;
     currentLane := currentLane g; laneDistance := laneDistance g;
     active := v; maxCoins := maxCoins g; isSliding := isSliding g;
     isJumping := isJumping g |}.

Definition set_isSliding (v : bool) (g : GameState) : GameState :=
  {| speed := speed g; maxSpeed := maxSpeed g; gravity := gravity g;
     score := score g; coinCount := coinCount g; multiplier := multiplier g;
     currentLane := currentLane g; laneDistance := laneDistance g;
     active := active g; maxCoins := maxCoins g; isSliding := v;
     isJumping := isJumping g |}.

Definition set_isJumping (v : bool) (g : GameState) : GameState :=
  {| speed := speed g; maxSpeed := maxSpeed g; gravity := gravity g;
     score := score g; coinCount := coinCount g; multiplier := multiplier g;
     currentLane := currentLane g; laneDistance := laneDistance g;
     active := active g; maxCoins := maxCoins g; isSliding := isSliding g;
     isJumping := v |}.

Definition set_coinCount (v : Z) (g : GameState) : GameState :=
  {| speed := speed g; maxSpeed := maxSpeed g; gravity := gravity g;
     score := score g; coinCount := v; multiplier := multiplier g;
     currentLane := currentLane g; laneDistance := laneDistance g;
     active := active g; maxCoins := maxCoins g; isSliding := isSliding g;
     isJumping := isJumping g |}.

End Game.

(** ** Obstacles.js *)

Module Obstacles.
Import JS THREE Game.

Definition LANE_OFFSETS : list Q := [-3; 1; 5].
Definition MAX_BARRIERS : nat := 10.
Definition MIN_BARRIER_SPACING : Q := 25.

Definition Barrier := Object3D unit.

Record BarrierState := { lastBarrierZ : Q }.

(** Ghost record of one placement: which code path chose the Z value. *)
Inductive Placement := Initial | Recycled.
Record Spawn := { how : Placement; spawnZ : Q }.

(** The module-level state: the exported [barriers] array and
    [barrierState], and a ghost log of every Z value handed out, oldest
    first.  The log is not in the source; it only observes. *)
Record Module_ := {
  barriers : list Barrier;
  barrierState : BarrierState;
  spawned : list Spawn
}.

Definition initialModule : Module_ :=
  {| barriers := []; barrierState := {| lastBarrierZ := -40 |}; spawned := [] |}.

(** [LANE_OFFSETS[Math.floor(Math.random() * LANE_OFFSETS.length)]].  The
    index is always in range (lemma [randomLane_in_offsets]), so the
    [undefined] branch is never taken. *)
Definition randomLane (rt : Runtime) : Q * Runtime :=
  let '(u, rt') := draw rt in
  let laneIndex :=
    Math_floor (u * inject_Z (Z.of_nat (List.length LANE_OFFSETS))) in
  (match index LANE_OFFSETS laneIndex with Some lx => lx | None => 0 end, rt').

(** The success callback [initObstacles] hands to [loader.load]; it runs
    once per model that finishes loading. *)
Definition barrierLoaded (rt : Runtime) (m : Module_) : Runtime * Module_ :=
  let '(laneX, rt') := randomLane rt in
  let zed := lastBarrierZ (barrierState m) in
  let barrier : Barrier :=
    {| position := {| x := laneX; y := 0.5; z := zed |};
       visible := true; userData := tt |} in
  (rt',
   {| barriers := barriers m ++ [barrier];
      barrierState := {| lastBarrierZ := zed - MIN_BARRIER_SPACING |};
      spawned := spawned m ++ [{| how := Initial; spawnZ := zed |}] |}).

(** The failure callback only logs. *)
Definition barrierFailed (rt : Runtime) (m : Module_) : Runtime * Module_ :=
  (console_write Error "Error loading barrier model:" rt, m).

Definition playerBox (p : Vector3) : Box3 :=
  let playerHeight := 1.5 in
  {| min := {| x := x p - 0.5; y := y p; z := z p - 0.5 |};
     max := {| x := x p + 0.5; y := y p + playerHeight; z := z p + 0.5 |} |}.

Definition barrierBox (b : Vector3) : Box3 :=
  let barrierHeight := 0.5 in
  {| min := {| x := x b - 1; y := y b; z := z b - 1 |};
     max := {| x := x b + 0.5; y := y b + barrierHeight; z := z b + 0.7 |} |}.

(** What the [forEach] callback of [updateObstacles] reads and writes
    besides the barrier it visits: the runtime, the cursor, the ghost log and
    the caller's state [C], which only [onCollision] touches. *)
Record Env (C : Type) := {
  runtime : Runtime;
  cursor : BarrierState;
  log : list Spawn;
  caller : C
}.
Arguments runtime {C} _.
Arguments cursor {C} _.
Arguments log {C} _.
Arguments caller {C} _.

Section Update.
Context {U C : Type}.
Variable player : Object3D U.
Variable speed : Q.
Variable onCollision : C -> C.

(** [barrier.position.z += speed], then the recycle of a barrier that has
    moved out of view. *)
Definition advance (e : Env C) (barrier : Barrier) : Barrier * Env C :=
  let p := position barrier in
  let p1 := {| x := x p; y := y p; z := z p + speed |} in
  if gt (z p1) 10 then
    let '(laneX, rt') := randomLane (runtime e) in
    let zed := lastBarrierZ (cursor e) - MIN_BARRIER_SPACING in
    (set_position barrier {| x := laneX; y := y p1; z := zed |},
     {| runtime := rt';
        cursor := {| lastBarrierZ := zed |};
        log := log e ++ [{| how := Recycled; spawnZ := zed |}];
        caller := caller e |})
  else (set_position barrier p1, e).

Definition hits (barrier : Barrier) : bool :=
  intersectsBox (playerBox (position player)) (barrierBox (position barrier)).

(** The body of the [forEach] callback. *)
Definition visit (e : Env C) (barrier : Barrier) : Barrier * Env C :=
  let '(barrier', e1) := advance e barrier in
  if hits barrier' then
    (barrier',
     {| runtime := runtime e1;
        cursor := cursor e1;
        log := log e1;
        caller := onCollision (caller e1) |})
  else (barrier', e1).
End Update.

Definition updateObstacles {U C} (player : option (Object3D U))
  (gameState : GameState) (onCollision : C -> C)
  (rt : Runtime) (m : Module_) (s : C) : Runtime * Module_ * C :=
  match player with
  | None =>
      (console_write Warn "Player is not initialized. Skipping obstacles update." rt,
       m, s)
  | Some pl =>
      let speed := speed gameState * 2 in
      let '(bs, e) :=
        forEach (visit pl speed onCollision)
                {| runtime := rt; cursor := barrierState m;
                   log := spawned m; caller := s |}
                (barriers m) in
      (runtime e,
       {| barriers := bs; barrierState := cursor e; spawned := log e |},
       caller e)
  end.

End Obstacles.

(** ** Coins.js *)

Module Coins.
Import JS THREE Game.

(** [coin.userData.mixer]: present when the model carries a clip; the
    model keeps the time the mixer has been advanced by. *)
Definition Coin := Object3D (option Q).

(** The exported [coins] array and the module-level [coinSound]
    ([None] where there is no [window]); of the sound only the number of
    [play()] calls is kept. *)
Record Module_ := { coins : list Coin; coinSound : option nat }.

Definition initialModule : Module_ := {| coins := []; coinSound := Some O |}.

(** [(Math.floor(Math.random() * 3) - 1) * 4] *)
Definition randomLaneX (rt : Runtime) : Q * Runtime :=
  let '(u, rt') := draw rt in
  (inject_Z (Math_floor (u * 3) - 1) * 4, rt').

(** The three arguments of [coin.position.set] at a recycle, evaluated left
    to right. *)
Definition farAhead (rt : Runtime) : Vector3 * Runtime :=
  let '(lx, rt1) := randomLaneX rt in
  let '(u, rt2) := draw rt1 in
  ({| x := lx; y := 1.2; z := -50 - u * 50 |}, rt2).

(** The success callback of the [i]-th [loader.load] of [initCoins];
    [hasClip] tells whether the model came with an animation. *)
Definition coinLoaded (i : nat) (hasClip : bool) (rt : Runtime) (m : Module_)
  : Runtime * Module_ :=
  let '(lx, rt1) := randomLaneX rt in
  let '(u, rt2) := draw rt1 in
  let coin : Coin :=
    {| position := {| x := lx; y := 1.2;
                      z := - inject_Z (Z.of_nat i) * 15 - u * 10 |};
       visible := true;
       userData := if hasClip then Some 0 else None |} in
  (rt2, {| coins := coins m ++ [coin]; coinSound := coinSound m |}).

Definition coinFailed (rt : Runtime) (m : Module_) : Runtime * Module_ :=
  (console_write Error "Error loading coin model:" rt, m).

Record Env (C : Type) := {
  runtime : Runtime;
  gameState : GameState;
  sound : option nat;
  caller : C
}.
Arguments runtime {C} _.
Arguments gameState {C} _.
Arguments sound {C} _.
Arguments caller {C} _.

Section Update.
Context {U C : Type}.
(** [new THREE.Box3().setFromObject(o)] depends on the geometry of the
    loaded models, which the repository does not contain: the two uses are
    parameters. *)
Variable playerBounds : Object3D U -> Box3.
Variable coinBounds : Coin -> Box3.
Variable player : Object3D U.
Variable updateUI : C -> C.
Variable delta : Q.

Definition visit (e : Env C) (coin : Coin) : Coin * Env C :=
  (* coin.userData.mixer.update(delta) *)
  let mixer := match userData coin with
               | Some t => Some (t + delta)
               | None => None
               end in
  (* coin.position.z += gameState.speed * 2 *)
  let p := position coin in
  let p1 := {| x := x p; y := y p; z := z p + speed (gameState e) * 2 |} in
  let '(c1, rt1) :=
    if gt (z p1) 10 then
      let '(far, rt') := farAhead (runtime e) in
      ({| position := far; visible := true; userData := mixer |}, rt')
    else
      ({| position := p1; visible := visible coin; userData := mixer |},
       runtime e) in
  if intersectsBox (playerBounds player) (coinBounds c1) then
    let '(far, rt2) := farAhead rt1 in
    (set_position c1 far,
     {| runtime := rt2;
        gameState := set_coinCount (coinCount (gameState e) + 1)%Z (gameState e);
        sound := match sound e with Some n => Some (S n) | None => None end;
        caller := updateUI (caller e) |})
  else
    (c1, {| runtime := rt1; gameState := gameState e; sound := sound e;
            caller := caller e |}).
End Update.

(** [gs] is the object the caller passes as [gameState]; it is mutated in
    place, so it is returned. *)
Definition updateCoins {U C}
  (playerBounds : Object3D U -> Box3) (coinBounds : Coin -> Box3)
  (player : option (Object3D U)) (gs : GameState) (updateUI : C -> C)
  (delta : Q) (rt : Runtime) (m : Module_) (s : C)
  : Runtime * Module_ * GameState * C :=
  match player with
  | None => (rt, m, gs, s)
  | Some pl =>
      let '(cs, e) :=
        forEach (visit playerBounds coinBounds pl updateUI delta)
                {| runtime := rt; gameState := gs; sound := coinSound m;
                   caller := s |}
                (coins m) in
      (runtime e, {| coins := cs; coinSound := sound e |}, gameState e, caller e)
  end.

End Coins.

(** ** Player.js *)

Module Player.
Import JS THREE Game.

(** [player.userData]; of [velocity] only the [y] component is ever read. *)
Record UserData := { velocityY : Q; isJumping : bool; isSliding : bool }.

(** The module-level variables: [player], [animations] (the lower-cased
    names of the clips of the model), [currentAnimation] and [mixer] (kept as
    the time it has been advanced by), and a ghost log of every clip
    started, oldest first. *)
Record Module_ := {
  player : Object3D UserData;
  animations : list string;
  currentAnimation : option string;
  mixer : Q;
  played : list string
}.

Definition has_clip (name : string) (m : Module_) : bool :=
  existsb (String.eqb name) (animations m).

Definition playAnimationFunc (name : string) (rt : Runtime) (m : Module_)
  : Runtime * Module_ :=
  if negb (has_clip name m) then
    (console_write Warn ("Animation " ++ name ++ " not found.") rt, m)
  else
    (rt,
     {| player := player m; animations := animations m;
        currentAnimation := Some name; mixer := mixer m;
        played := played m ++ [name] |}).

(** The module state at the moment the promise of [initPlayer] resolves,
    for a model whose clips are [clips]. *)
Definition initPlayer (clips : list string) (rt : Runtime) : Runtime * Module_ :=
  playAnimationFunc "run" rt
    {| player := {| position := {| x := 0; y := 0; z := 0 |};
                    visible := true;
                    userData := {| velocityY := 0; isJumping := false;
                                   isSliding := false |} |};
       animations := clips; currentAnimation := None; mixer := 0;
       played := [] |}.

Definition set_player (o : Object3D UserData) (m : Module_) : Module_ :=
  {| player := o; animations := animations m;
     currentAnimation := currentAnimation m; mixer := mixer m;
     played := played m |}.

Definition set_mixer (t : Q) (m : Module_) : Module_ :=
  {| player := player m; animations := animations m;
     currentAnimation := currentAnimation m; mixer := t;
     played := played m |}.

(** [gameState] is mutated in place by the jump branch, so it is
    returned. *)
Definition playerUpdate (delta : Q) (gameState : GameState)
  (rt : Runtime) (m : Module_) : Runtime * Module_ * GameState :=
  let pl := player m in
  let p := position pl in
  (* Lane movement *)
  let targetX := inject_Z (currentLane gameState) * laneDistance gameState in
  let p1 := {| x := x p + (targetX - x p) * 0.1; y := y p; z := z p |} in
  (* Gravity and jumping logic *)
  let '(rt2, m2, g2) :=
    if Game.isJumping gameState then
      let vy := velocityY (userData pl) + gravity gameState in
      let p2 := {| x := x p1; y := y p1 + vy; z := z p1 |} in
      if le (y p2) 0 then
        let pl' :=
          {| position := {| x := x p2; y := 0; z := z p2 |};
             visible := visible pl;
             userData := {| velocityY := 0;
                            isJumping := isJumping (userData pl);
                            isSliding := isSliding (userData pl) |} |} in
        let '(rt', m') := playAnimationFunc "run" rt (set_player pl' m) in
        (rt', m', set_isJumping false gameState)
      else
        (rt,
         set_player
           {| position := p2; visible := visible pl;
              userData := {| velocityY := vy;
                             isJumping := isJumping (userData pl);
                             isSliding := isSliding (userData pl) |} |} m,
         gameState)
    else (rt, set_player (set_position pl p1) m, gameState) in
  (* Update animation mixer *)
  (rt2, set_mixer (mixer m2 + delta) m2, g2).

End Player.

(** ** Environment.js *)

Module Environment.
Import JS THREE Game.

(** A child of the scene as [updateEnvironment] reads it: its [name] (the
    empty string unless assigned) and its position. *)
Record Node := { name : string; position : Vector3 }.

Definition set_z (v : Q) (o : Node) : Node :=
  {| name := name o;
     position := {| x := x (position o); y := y (position o); z := v |} |}.

Definition set_x (v : Q) (o : Node) : Node :=
  {| name := name o;
     position := {| x := v; y := y (position o); z := z (position o) |} |}.

(** The scene [initEnvironment] was given and the three module-level
    arrays.  An array holds references to objects that are children of the
    scene as well; a reference is the child's index in [children], which is
    stable because nothing here removes a child.  The children that other
    modules add to the same scene (player, barriers, coins) live in those
    modules' states and are not repeated here. *)
Record Module_ := {
  children : list Node;
  roadSegments : list nat;
  leftBuildings : list nat;
  rightBuildings : list nat
}.

(** [scene.add(o)], returning the reference to the new child. *)
Definition add (o : Node) (m : Module_) : nat * Module_ :=
  (List.length (children m),
   {| children := children m ++ [o]; roadSegments := roadSegments m;
      leftBuildings := leftBuildings m; rightBuildings := rightBuildings m |}).

Definition roadSpacing : Q := 800.
Definition roadCount : nat := 3.
Definition buildingSpacing : Q := 80.
Definition startZ : Q := -100.
Definition buildingCount : nat := 10.
Definition cloudCount : nat := 10.
Definition cloudSpacing : Q := 200.
Definition cloudHeight : Q := 30.
Definition cloudDepth : Q := -200.

(** The loop index [i] as a number. *)
Definition num (i : nat) : Q := inject_Z (Z.of_nat i).

(** The two gray planes [createRoad] adds beside segment [i], and the two
    lights; none of them is given a name. *)
Definition leftPlane (i : nat) : Node :=
  {| name := EmptyString;
     position := {| x := -45; y := 0.01; z := - num i * roadSpacing |} |}.
Definition rightPlane (i : nat) : Node :=
  {| name := EmptyString;
     position := {| x := 45; y := 0.01; z := - num i * roadSpacing |} |}.
Definition ambientLight : Node :=
  {| name := EmptyString; position := {| x := 0; y := 0; z := 0 |} |}.
Definition directionalLight : Node :=
  {| name := EmptyString; position := {| x := 10; y := 20; z := 10 |} |}.

(** What [initEnvironment] has done to a fresh scene when it returns: the
    loads it started complete later, through the callbacks below. *)
Definition initEnvironment : Module_ :=
  {| children :=
       flat_map (fun i => [leftPlane i; rightPlane i]) (seq 0 roadCount)
       ++ [ambientLight; directionalLight];
     roadSegments := []; leftBuildings := []; rightBuildings := [] |}.

(** The success callback of the [i]-th load of [createRoad]; [model] is
    the name the loaded scene carries. *)
Definition roadLoaded (i : nat) (model : string) (m : Module_) : Module_ :=
  let road :=
    {| name := model;
       position := {| x := -8.8; y := 0; z := - num i * roadSpacing |} |} in
  let '(ref, m1) := add road m in
  {| children := children m1; roadSegments := roadSegments m1 ++ [ref];
     leftBuildings := leftBuildings m1; rightBuildings := rightBuildings m1 |}.

Definition roadFailed (rt : Runtime) : Runtime :=
  console_write Error "Error loading road model:" rt.

(** The success callback of the [i]-th load of [createBuildings]: two
    clones of the loaded scene, which keep its name. *)
Definition buildingLoaded (i : nat) (model : string) (m : Module_) : Module_ :=
  let buildingLeft :=
    {| name := model;
       position := {| x := -20; y := 0;
                      z := startZ - num i * buildingSpacing |} |} in
  let '(refL, m1) := add buildingLeft m in
  let m2 :=
    {| children := children m1; roadSegments := roadSegments m1;
       leftBuildings := leftBuildings m1 ++ [refL];
       rightBuildings := rightBuildings m1 |} in
  let buildingRight :=
    {| name := model;
       position := {| x := 57; y := 0;
                      z := startZ - num i * buildingSpacing |} |} in
  let '(refR, m3) := add buildingRight m2 in
  {| children := children m3; roadSegments := roadSegments m3;
     leftBuildings := leftBuildings m3;
     rightBuildings := rightBuildings m3 ++ [refR] |}.

Definition buildingFailed (rt : Runtime) : Runtime :=
  console_write Error "Error loading building model:" rt.

(** [`cloud-${i}`] *)
Definition cloudName (i : nat) : string :=
  ("cloud-" ++ NilEmpty.string_of_uint (Nat.to_uint i))%string.

(** [(Math.random() - 0.5) * 150] *)
Definition randomX (rt : Runtime) : Q * Runtime :=
  let '(u, rt') := draw rt in ((u - 0.5) * 150, rt').

(** The success callback of the [i]-th load of [createClouds]; the
    arguments of [position.set] are evaluated left to right. *)
Definition cloudLoaded (i : nat) (rt : Runtime) (m : Module_)
  : Runtime * Module_ :=
  let '(px, rt1) := randomX rt in
  let '(u, rt2) := draw rt1 in
  let cloud :=
    {| name := cloudName i;
       position := {| x := px; y := cloudHeight + u * 10;
                      z := cloudDepth - num i * cloudSpacing |} |} in
  (rt2, snd (add cloud m)).

Definition cloudFailed (rt : Runtime) : Runtime :=
  console_write Error "Error loading cloud model:" rt.

(** [refs.forEach(f)] over an array of references, [f] mutating the
    object it is handed. *)
Fixpoint adjust (f : Node -> Node) (ref : nat) (objects : list Node)
  : list Node :=
  match objects, ref with
  | [], _ => []
  | o :: rest, O => f o :: rest
  | o :: rest, S k => o :: adjust f k rest
  end.

Definition forEachRef (f : Node -> Node) (refs : list nat)
  (objects : list Node) : list Node :=
  fold_left (fun objs ref => adjust f ref objs) refs objects.

(** The three callbacks of [updateEnvironment]. *)
Definition moveRoad (speed : Q) (segments : nat) (road : Node) : Node :=
  let road1 := set_z (z (position road) + speed) road in
  if gt (z (position road1)) 50 then
    set_z (z (position road1) - 800 * num segments) road1
  else road1.

Definition moveBuilding (speed : Q) (building : Node) : Node :=
  let building1 := set_z (z (position building) + speed) building in
  if gt (z (position building1)) 50 then
    set_z (z (position building1) - 800) building1
  else building1.

(** [object.name && object.name.startsWith('cloud')] *)
Definition isCloud (object : Node) : bool :=
  negb (String.eqb (name object) EmptyString) && prefix "cloud" (name object).

Definition moveCloud (speed : Q) (rt : Runtime) (object : Node)
  : Node * Runtime :=
  if isCloud object then
    let object1 := set_z (z (position object) + speed / 4) object in
    if gt (z (position object1)) 50 then
      let object2 := set_z (z (position object1) - 800) object1 in
      let '(px, rt') := randomX rt in
      (set_x px object2, rt')
    else (object1, rt)
  else (object, rt).

Definition updateEnvironment (gameState : GameState) (rt : Runtime)
  (m : Module_) : Runtime * Module_ :=
  let speed := speed gameState * 2 in
  let objs1 :=
    forEachRef (moveRoad speed (List.length (roadSegments m)))
               (roadSegments m) (children m) in
  let updateBuildings := fun buildingArray objs =>
    forEachRef (moveBuilding speed) buildingArray objs in
  let objs2 := updateBuildings (leftBuildings m) objs1 in
  let objs3 := updateBuildings (rightBuildings m) objs2 in
  let '(objs4, rt') := forEach (moveCloud speed) rt objs3 in
  (rt',
   {| children := objs4; roadSegments := roadSegments m;
      leftBuildings := leftBuildings m; rightBuildings := rightBuildings m |}).

(** What can happen to the environment after [initEnvironment]: a load
    completes or fails, in any order, or the game loop calls
    [updateEnvironment]. *)
Inductive Event :=
| RoadModelLoaded (i : nat) (model : string)
| RoadModelFailed
| BuildingModelLoaded (i : nat) (model : string)
| BuildingModelFailed
| CloudModelLoaded (i : nat)
| CloudModelFailed
| Frame (gameState : GameState).

Definition step (s : Runtime * Module_) (ev : Event) : Runtime * Module_ :=
  let '(rt, m) := s in
  match ev with
  | RoadModelLoaded i model => (rt, roadLoaded i model m)
  | RoadModelFailed => (roadFailed rt, m)
  | BuildingModelLoaded i model => (rt, buildingLoaded i model m)
  | BuildingModelFailed => (buildingFailed rt, m)
  | CloudModelLoaded i => cloudLoaded i rt m
  | CloudModelFailed => (cloudFailed rt, m)
  | Frame gameState => updateEnvironment gameState rt m
  end.

Definition run (evs : list Event) (rt : Runtime) : Runtime * Module_ :=
  fold_left step evs (rt, initEnvironment).

End Environment.

(** ** GameCanvas.js *)

Module GameCanvas.
Import JS THREE Game.

(** The only function ever passed as [onComplete]: the closure both slide
    handlers build,
    [() => { setGameState(prev => ({...prev, isSliding: false}));
             isRollingRef.current = false; }]. *)
Inductive Callback := EndSlide.

(** An entry of [animationQueueRef.current]; [duration] is in
    milliseconds. *)
Record AnimationRequest := {
  animationName : string;
  duration : Z;
  onComplete : option Callback
}.

(** A pending [setTimeout] of [processQueue]: when it is due, the request
    its closure captured, and whether the [playAnimation] it captured was
    non-null. *)
Record Timer := { due : Z; request : AnimationRequest; captured : bool }.

(** The component: its React state, its refs, the modules it imports and
    the browser's timer queue and clock.  [gameStateRef.current] is the very
    object React hands out as [gameState], so the two are one field; a
    [setGameState] is applied at once and counted in [renders].
    [playerRef], [playerUpdateRef] and [playAnimationRef] are assigned
    together from one resolved promise and all reach the module state of
    Player.js: they are the one field [playerRef].  [obstaclesRef] and
    [coinsRef] alias the arrays of the two modules.  Audio, rendering and
    the environment meshes are left out. *)
Record Component := {
  gameState : GameState;
  gameActiveRef : bool;
  isRollingRef : bool;
  isJumpingRef : bool;
  jumpVelocityRef : Q;
  animationQueueRef : list AnimationRequest;
  isAnimatingRef : bool;
  playerRef : option Player.Module_;
  sceneRef : bool;
  obstacles : Obstacles.Module_;
  coins : Coins.Module_;
  runtime : Runtime;
  timers : list Timer;
  now : Z;
  renders : nat
}.

Definition set_gameState (v : GameState) (c : Component) : Component :=
  {| gameState := v; gameActiveRef := gameActiveRef c;
     isRollingRef := isRollingRef c; isJumpingRef := isJumpingRef c;
     jumpVelocityRef := jumpVelocityRef c;
     animationQueueRef := animationQueueRef c;
     isAnimatingRef := isAnimatingRef c; playerRef := playerRef c;
     sceneRef := sceneRef c; obstacles := obstacles c; coins := coins c;
     runtime := runtime c; timers := timers c; now := now c;
     renders := renders c |}.

Definition set_gameActiveRef (v : bool) (c : Component) : Component :=
  {| gameState := gameState c; gameActiveRef := v;
     isRollingRef := isRollingRef c; isJumpingRef := isJumpingRef c;
     jumpVelocityRef := jumpVelocityRef c;
     animationQueueRef := animationQueueRef c;
     isAnimatingRef := isAnimatingRef c; playerRef := playerRef c;
     sceneRef := sceneRef c; obstacles := obstacles c; coins := coins c;
     runtime := runtime c; timers := timers c; now := now c;
     renders := renders c |}.

Definition set_isRollingRef (v : bool) (c : Component) : Component :=
  {| gameState := gameState c; gameActiveRef := gameActiveRef c;
     isRollingRef := v; isJumpingRef := isJumpingRef c;
     jumpVelocityRef := jumpVelocityRef c;
     animationQueueRef := animationQueueRef c;
     isAnimatingRef := isAnimatingRef c; playerRef := playerRef c;
     sceneRef := sceneRef c; obstacles := obstacles c; coins := coins c;
     runtime := runtime c; timers := timers c; now := now c;
     renders := renders c |}.

Definition set_isJumpingRef (v : bool) (c : Component) : Component :=
  {| gameState := gameState c; gameActiveRef := gameActiveRef c;
     isRollingRef := isRollingRef c; isJumpingRef := v;
     jumpVelocityRef := jumpVelocityRef c;
     animationQueueRef := animationQueueRef c;
     isAnimatingRef := isAnimatingRef c; playerRef := playerRef c;
     sceneRef := sceneRef c; obstacles := obstacles c; coins := coins c;
     runtime := runtime c; timers := timers c; now := now c;
     renders := renders c |}.

Definition set_jumpVelocityRef (v : Q) (c : Component) : Component :=
  {| gameState := gameState c; gameActiveRef := gameActiveRef c;
     isRollingRef := isRollingRef c; isJumpingRef := isJumpingRef c;
     jumpVelocityRef := v; animationQueueRef := animationQueueRef c;
     isAnimatingRef := isAnimatingRef c; playerRef := playerRef c;
     sceneRef := sceneRef c; obstacles := obstacles c; coins := coins c;
     runtime := runtime c; timers := timers c; now := now c;
     renders := renders c |}.

Definition set_animationQueueRef (v : list AnimationRequest) (c : Component) : Component :=
  {| gameState := gameState c; gameActiveRef := gameActiveRef c;
     isRollingRef := isRollingRef c; isJumpingRef := isJumpingRef c;
     jumpVelocityRef := jumpVelocityRef c; animationQueueRef := v;
     isAnimatingRef := isAnimatingRef c; playerRef := playerRef c;
     sceneRef := sceneRef c; obstacles := obstacles c; coins := coins c;
     runtime := runtime c; timers := timers c; now := now c;
     renders := renders c |}.

Definition set_isAnimatingRef (v : bool) (c : Component) : Component :=
  {| gameState := gameState c; gameActiveRef := gameActiveRef c;
     isRollingRef := isRollingRef c; isJumpingRef := isJumpingRef c;
     jumpVelocityRef := jumpVelocityRef c;
     animationQueueRef := animationQueueRef c; isAnimatingRef := v;
     playerRef := playerRef c; sceneRef := sceneRef c;
     obstacles := obstacles c; coins := coins c; runtime := runtime c;
     timers := timers c; now := now c; renders := renders c |}.

Definition set_playerRef (v : option Player.Module_) (c : Component) : Component :=
  {| gameState := gameState c; gameActiveRef := gameActiveRef c;
     isRollingRef := isRollingRef c; isJumpingRef := isJumpingRef c;
     jumpVelocityRef := jumpVelocityRef c;
     animationQueueRef := animationQueueRef c;
     isAnimatingRef := isAnimatingRef c; playerRef := v;
     sceneRef := sceneRef c; obstacles := obstacles c; coins := coins c;
     runtime := runtime c; timers := timers c; now := now c;
     renders := renders c |}.

Definition set_sceneRef (v : bool) (c : Component) : Component :=
  {| gameState := gameState c; gameActiveRef := gameActiveRef c;
     isRollingRef := isRollingRef c; isJumpingRef := isJumpingRef c;
     jumpVelocityRef := jumpVelocityRef c;
     animationQueueRef := animationQueueRef c;
     isAnimatingRef := isAnimatingRef c; playerRef := playerRef c;
     sceneRef := v; obstacles := obstacles c; coins := coins c;
     runtime := runtime c; timers := timers c; now := now c;
     renders := renders c |}.

Definition set_obstacles (v : Obstacles.Module_) (c : Component) : Component :=
  {| gameState := gameState c; gameActiveRef := gameActiveRef c;
     isRollingRef := isRollingRef c; isJumpingRef := isJumpingRef c;
     jumpVelocityRef := jumpVelocityRef c;
     animationQueueRef := animationQueueRef c;
     isAnimatingRef := isAnimatingRef c; playerRef := playerRef c;
     sceneRef := sceneRef c; obstacles := v; coins := coins c;
     runtime := runtime c; timers := timers c; now := now c;
     renders := renders c |}.

Definition set_coins (v : Coins.Module_) (c : Component) : Component :=
  {| gameState := gameState c; gameActiveRef := gameActiveRef c;
     isRollingRef := isRollingRef c; isJumpingRef := isJumpingRef c;
     jumpVelocityRef := jumpVelocityRef c;
     animationQueueRef := animationQueueRef c;
     isAnimatingRef := isAnimatingRef c; playerRef := playerRef c;
     sceneRef := sceneRef c; obstacles := obstacles c; coins := v;
     runtime := runtime c; timers := timers c; now := now c;
     renders := renders c |}.

Definition set_runtime (v : Runtime) (c : Component) : Component :=
  {| gameState := gameState c; gameActiveRef := gameActiveRef c;
     isRollingRef := isRollingRef c; isJumpingRef := isJumpingRef c;
     jumpVelocityRef := jumpVelocityRef c;
     animationQueueRef := animationQueueRef c;
     isAnimatingRef := isAnimatingRef c; playerRef := playerRef c;
     sceneRef := sceneRef c; obstacles := obstacles c; coins := coins c;
     runtime := v; timers := timers c; now := now c; renders := renders c |}.

Definition set_timers (v : list Timer) (c : Component) : Component :=
  {| gameState := gameState c; gameActiveRef := gameActiveRef c;
     isRollingRef := isRollingRef c; isJumpingRef := isJumpingRef c;
     jumpVelocityRef := jumpVelocityRef c;
     animationQueueRef := animationQueueRef c;
     isAnimatingRef := isAnimatingRef c; playerRef := playerRef c;
     sceneRef := sceneRef c; obstacles := obstacles c; coins := coins c;
     runtime := runtime c; timers := v; now := now c; renders := renders c |}.

Definition set_now (v : Z) (c : Component) : Component :=
  {| gameState := gameState c; gameActiveRef := gameActiveRef c;
     isRollingRef := isRollingRef c; isJumpingRef := isJumpingRef c;
     jumpVelocityRef := jumpVelocityRef c;
     animationQueueRef := animationQueueRef c;
     isAnimatingRef := isAnimatingRef c; playerRef := playerRef c;
     sceneRef := sceneRef c; obstacles := obstacles c; coins := coins c;
     runtime := runtime c; timers := timers c; now := v;
     renders := renders c |}.

Definition set_renders (v : nat) (c : Component) : Component :=
  {| gameState := gameState c; gameActiveRef := gameActiveRef c;
     isRollingRef := isRollingRef c; isJumpingRef := isJumpingRef c;
     jumpVelocityRef := jumpVelocityRef c;
     animationQueueRef := animationQueueRef c;
     isAnimatingRef := isAnimatingRef c; playerRef := playerRef c;
     sceneRef := sceneRef c; obstacles := obstacles c; coins := coins c;
     runtime := runtime c; timers := timers c; now := now c; renders := v |}.

(** [setGameState(updater)] *)
Definition setGameState (updater : GameState -> GameState) (c : Component)
  : Component :=
  set_renders (S (renders c)) (set_gameState (updater (gameState c)) c).

(** [updateUI]: the updater is a plain copy, [{ ...prevState }]. *)
Definition updateUI (c : Component) : Component :=
  setGameState (fun prevState => prevState) c.

(** [if (playAnimation) playAnimation(name)] for the function held by
    [playAnimationRef]. *)
Definition playAnimation (name : string) (c : Component) : Component :=
  match playerRef c with
  | Some pm =>
      let '(rt, pm') := Player.playAnimationFunc name (runtime c) pm in
      set_playerRef (Some pm') (set_runtime rt c)
  | None => c
  end.

(** [setTimeout]: the queue is kept ordered by due time, a new timer going
    behind those due no later than it. *)
Fixpoint enqueueTimer (t : Timer) (ts : list Timer) : list Timer :=
  match ts with
  | [] => [t]
  | u :: rest =>
      if (due t <? due u)%Z then t :: ts else u :: enqueueTimer t rest
  end.

Definition setTimeout (req : AnimationRequest) (had : bool) (c : Component)
  : Component :=
  set_timers
    (enqueueTimer {| due := (now c + duration req)%Z; request := req;
                     captured := had |} (timers c)) c.

Definition processQueue (c : Component) : Component :=
  if isAnimatingRef c || (List.length (animationQueueRef c) =? 0)%nat then c
  else
    match animationQueueRef c with
    | [] => c
    | req :: rest =>
        (* Dequeue the next animation *)
        let c1 := set_isAnimatingRef true (set_animationQueueRef rest c) in
        let had := match playerRef c1 with Some _ => true | None => false end in
        let c2 := playAnimation (animationName req) c1 in
        setTimeout req had c2
    end.

Definition runCallback (cb : Callback) (c : Component) : Component :=
  match cb with
  | EndSlide =>
      set_isRollingRef false (setGameState (set_isSliding false) c)
  end.

(** The function [processQueue] hands to [setTimeout]. *)
Definition completion (t : Timer) (c : Component) : Component :=
  let c1 := match onComplete (request t) with
            | Some cb => runCallback cb c
            | None => c
            end in
  let c2 := if captured t then playAnimation "run" c1 else c1 in
  let c3 := set_isAnimatingRef false c2 in
  processQueue c3.

(** The browser runs the first pending timer once it is due. *)
Definition timerFires (c : Component) : Component :=
  match timers c with
  | t :: rest =>
      if (due t <=? now c)%Z then completion t (set_timers rest c) else c
  | [] => c
  end.

Definition elapse (ms : Z) (c : Component) : Component :=
  set_now (now c + Z.max 0 ms)%Z c.

Definition playAndResetAnimation (name : string) (ms : Z)
  (cb : option Callback) (c : Component) : Component :=
  processQueue
    (set_animationQueueRef
       (animationQueueRef c
        ++ [{| animationName := name; duration := ms; onComplete := cb |}]) c).

Definition laneRight (prev : GameState) : GameState :=
  set_currentLane (Math_min (currentLane prev + 1) 1) prev.

Definition laneLeft (prev : GameState) : GameState :=
  set_currentLane (Math_max (currentLane prev - 1) (-1)) prev.

Definition jump (c : Component) : Component :=
  if negb (isJumpingRef c) && negb (isRollingRef c) then
    let c1 := set_isJumpingRef true c in
    let c2 := playAndResetAnimation "jump" 800 None c1 in
    set_jumpVelocityRef 8 c2
  else c.

Definition slide (c : Component) : Component :=
  if negb (isRollingRef c) && negb (isJumpingRef c) then
    let c1 := set_isRollingRef true c in
    let c2 := playAndResetAnimation "roll" 1190 (Some EndSlide) c1 in
    setGameState (set_isSliding true) c2
  else c.

(** [onDrag]; [threshold] is 10 pixels. *)
Definition onDrag (mx my dx dy : Q) (c : Component) : Component :=
  let threshold := 10 in
  let c1 :=
    if gt (Math_abs mx) threshold && gt (Math_abs mx) (Math_abs my) then
      if gt dx 0 then setGameState laneRight c
      else if lt dx 0 then setGameState laneLeft c
      else c
    else c in
  if gt (Math_abs my) threshold && gt (Math_abs my) (Math_abs mx) then
    if lt dy 0 then jump c1
    else if gt dy 0 then slide c1
    else c1
  else c1.

(** [handleKeyDown].  The [gameState] it tests is the one of the render
    whose closure was registered as the listener: the parameter
    [rendered]. *)
Definition handleKeyDown (rendered : GameState) (key : string) (c : Component)
  : Component :=
  if negb (active rendered) then c
  else if String.eqb key "ArrowLeft" then setGameState laneLeft c
  else if String.eqb key "ArrowRight" then setGameState laneRight c
  else if String.eqb key "ArrowUp" then jump c
  else if String.eqb key "ArrowDown" then slide c
  else c.

(** [updatePlayer]; [gravity] is read from the closure's [gameState]. *)
Definition updatePlayer (rendered : GameState) (delta : Q) (c : Component)
  : Component :=
  match playerRef c with
  | None => c
  | Some pm =>
      if isJumpingRef c then
        let pl := Player.player pm in
        let p := position pl in
        let p1 := {| x := x p; y := y p + jumpVelocityRef c * delta;
                     z := z p |} in
        let c1 :=
          set_jumpVelocityRef (jumpVelocityRef c + gravity rendered * delta)
            (set_playerRef (Some (Player.set_player (set_position pl p1) pm)) c) in
        if le (y p1) 0 then
          let landed := set_position pl {| x := x p1; y := 0; z := z p1 |} in
          playAnimation "run"
            (set_jumpVelocityRef 0
               (set_isJumpingRef false
                  (set_playerRef (Some (Player.set_player landed pm)) c1)))
        else c1
      else c
  end.

(** The callback [animate] passes to [updateObstacles]. *)
Definition onCollision (c : Component) : Component :=
  setGameState (set_active false) (set_gameActiveRef false c).

Section Frame.
Variable playerBounds : Object3D Player.UserData -> Box3.
Variable coinBounds : Coins.Coin -> Box3.

(** One run of [animate], up to the render. *)
Definition animate (rendered : GameState) (delta : Q) (c : Component)
  : Component :=
  if gameActiveRef c then
    let c1 := updatePlayer rendered delta c in
    let c2 :=
      match playerRef c1 with
      | Some pm =>
          let '(rt, pm', g) :=
            Player.playerUpdate delta (gameState c1) (runtime c1) pm in
          set_gameState g (set_playerRef (Some pm') (set_runtime rt c1))
      | None => c1
      end in
    let c3 :=
      match playerRef c2 with
      | Some pm =>
          let '(rt, om, c') :=
            Obstacles.updateObstacles (Some (Player.player pm)) (gameState c2)
              onCollision (runtime c2) (obstacles c2) c2 in
          set_obstacles om (set_runtime rt c')
      | None => c2
      end in
    let '(rt, cm, g, c') :=
      Coins.updateCoins playerBounds coinBounds
        (option_map Player.player (playerRef c3)) (gameState c3) updateUI
        delta (runtime c3) (coins c3) c3 in
    (* [g] is the object behind [gameStateRef], mutated in place *)
    set_gameState g (set_coins cm (set_runtime rt c'))
  else c.
End Frame.

Definition restartGame (c : Component) : Component :=
  let c1 := setGameState (fun _ => defaultGameState) (set_gameActiveRef true c) in
  (* Clear the animation queue *)
  let c2 := set_isAnimatingRef false (set_animationQueueRef [] c1) in
  (* Reset player position and state *)
  let c3 :=
    match playerRef c2 with
    | Some pm =>
        let pl : Object3D Player.UserData :=
          {| position := {| x := 0; y := 0; z := 0 |};
             visible := visible (Player.player pm);
             userData := {| Player.velocityY := 0;
                            Player.isJumping := false;
                            Player.isSliding := false |} |} in
        playAnimation "run"
          (set_jumpVelocityRef 0
             (set_isRollingRef false
                (set_isJumpingRef false
                   (set_playerRef (Some (Player.set_player pl pm)) c2))))
    | None => c2
    end in
  (* Reset obstacles: the cursor, then both arrays, [barriers.length = 0]
     and [coins.length = 0].  The ghost log starts afresh with the pool. *)
  let om0 :=
    {| Obstacles.barriers := [];
       Obstacles.barrierState := {| Obstacles.lastBarrierZ := -40 |};
       Obstacles.spawned := [] |} in
  let cm0 :=
    {| Coins.coins := []; Coins.coinSound := Coins.coinSound (coins c3) |} in
  (* With a scene, [initObstacles] and [initCoins] start new loads, whose
     callbacks run later (events [BarrierModelLoaded], [CoinModelLoaded]),
     and the cursor is recomputed from the array just emptied. *)
  let om1 :=
    if sceneRef c3 then
      {| Obstacles.barriers := Obstacles.barriers om0;
         Obstacles.barrierState :=
           {| Obstacles.lastBarrierZ :=
                -40 - inject_Z (Z.of_nat (List.length (Obstacles.barriers om0)))
                      * Obstacles.MIN_BARRIER_SPACING |};
         Obstacles.spawned := Obstacles.spawned om0 |}
    else om0 in
  set_coins cm0 (set_obstacles om1 c3).

Definition handleExitGame (c : Component) : Component :=
  setGameState (fun _ => defaultGameState) c.

(** The component once [init] has run: the player model has loaded with
    the clips [clips] or has failed ([None]); the pools are empty and their
    loads are under way. *)
Definition mounted (clips : option (list string)) (r : RandomSource)
  : Component :=
  let rt0 := {| random := r; console := [] |} in
  let '(rt, pl) :=
    match clips with
    | Some cl => let '(rt', pm) := Player.initPlayer cl rt0 in (rt', Some pm)
    | None => (console_write Error "Failed to initialize player:" rt0, None)
    end in
  {| gameState := defaultGameState;
     gameActiveRef := true;
     isRollingRef := false;
     isJumpingRef := false;
     jumpVelocityRef := 0;
     animationQueueRef := [];
     isAnimatingRef := false;
     playerRef := pl;
     sceneRef := true;
     obstacles := Obstacles.initialModule;
     coins := Coins.initialModule;
     runtime := rt;
     timers := [];
     now := 0;
     renders := O |}.

(** What can happen to a mounted component. *)
Inductive Event :=
| KeyDown (rendered : GameState) (key : string)
| Drag (mx my dx dy : Q)
| AnimationFrame (rendered : GameState) (delta : Q)
| Elapse (ms : Z)
| TimerFires
| BarrierModelLoaded
| BarrierModelFailed
| CoinModelLoaded (i : nat) (hasClip : bool)
| CoinModelFailed
| RestartClicked
| ExitClicked.

Section Run.
Variable playerBounds : Object3D Player.UserData -> Box3.
Variable coinBounds : Coins.Coin -> Box3.

Definition step (c : Component) (ev : Event) : Component :=
  match ev with
  | KeyDown rendered key => handleKeyDown rendered key c
  | Drag mx my dx dy => onDrag mx my dx dy c
  | AnimationFrame rendered delta =>
      animate playerBounds coinBounds rendered delta c
  | Elapse ms => elapse ms c
  | TimerFires => timerFires c
  | BarrierModelLoaded =>
      let '(rt, om) := Obstacles.barrierLoaded (runtime c) (obstacles c) in
      set_obstacles om (set_runtime rt c)
  | BarrierModelFailed =>
      let '(rt, om) := Obstacles.barrierFailed (runtime c) (obstacles c) in
      set_obstacles om (set_runtime rt c)
  | CoinModelLoaded i hasClip =>
      let '(rt, cm) := Coins.coinLoaded i hasClip (runtime c) (coins c) in
      set_coins cm (set_runtime rt c)
  | CoinModelFailed =>
      let '(rt, cm) := Coins.coinFailed (runtime c) (coins c) in
      set_coins cm (set_runtime rt c)
  | RestartClicked => restartGame c
  | ExitClicked => handleExitGame c
  end.

Definition run (evs : list Event) (c : Component) : Component :=
  fold_left step evs c.
End Run.

End GameCanvas.

(** ** Runs: the drivers the properties below are stated over *)

Module Runs.
Import JS THREE Game.

(** The [n]-th Z slot below the first one: [-40 - n * MIN_BARRIER_SPACING]. *)
Definition slot (n : nat) : Q :=
  -40 - inject_Z (Z.of_nat n) * Obstacles.MIN_BARRIER_SPACING.

(** The log and the cursor after [k] initial placements and [r] recycles:
    the [i]-th initial placement sits in slot [i], the recycle logged at
    index [i] in slot [i + 1]. *)
Definition Placed (k r : nat) (cur : Obstacles.BarrierState)
  (lg : list Obstacles.Spawn) : Prop :=
  List.length lg = (k + r)%nat /\
  Obstacles.lastBarrierZ cur == slot (k + r) /\
  forall i s, nth_error lg i = Some s ->
    ((i < k)%nat -> Obstacles.how s = Obstacles.Initial /\ Obstacles.spawnZ s == slot i) /\
    ((k <= i)%nat -> Obstacles.how s = Obstacles.Recycled /\ Obstacles.spawnZ s == slot (S i)).

Definition placedEnv {C} (k : nat) (e : Obstacles.Env C) : Prop :=
  exists r, Placed k r (Obstacles.cursor e) (Obstacles.log e).

(** [k] barrier models finish loading, one after the other. *)
Fixpoint loadBarriers (k : nat) (rt : Runtime) (m : Obstacles.Module_)
  : Runtime * Obstacles.Module_ :=
  match k with
  | O => (rt, m)
  | S k' => let '(rt', m') := loadBarriers k' rt m in
            Obstacles.barrierLoaded rt' m'
  end.

(** A sequence of calls of [updateObstacles], each with its own player and
    game state, all with the callback [onCollision]. *)
Fixpoint obstacleFrames {U C} (onCollision : C -> C)
  (calls : list (option (Object3D U) * GameState))
  (rt : Runtime) (m : Obstacles.Module_) (s : C)
  : Runtime * Obstacles.Module_ * C :=
  match calls with
  | [] => (rt, m, s)
  | (pl, gs) :: rest =>
      let '(rt', m', s') := Obstacles.updateObstacles pl gs onCollision rt m s in
      obstacleFrames onCollision rest rt' m' s'
  end.

(** The module after [k] models have loaded into the initial module and
    the frame loop has then made [calls]. *)
Definition obstacleRun {U C} (k : nat) (rt : Runtime) (onCollision : C -> C)
  (calls : list (option (Object3D U) * GameState)) (s : C)
  : Obstacles.Module_ :=
  let '(rt1, m1) := loadBarriers k rt Obstacles.initialModule in
  snd (fst (obstacleFrames onCollision calls rt1 m1 s)).

(** Every two consecutive entries of a placement log lie exactly
    [MIN_BARRIER_SPACING] apart. *)
Definition evenlySpaced (lg : list Obstacles.Spawn) : Prop :=
  forall i a b,
    nth_error lg i = Some a -> nth_error lg (S i) = Some b ->
    Obstacles.spawnZ a - Obstacles.spawnZ b == Obstacles.MIN_BARRIER_SPACING.

(** The [maxCoins] loads of [initCoins], all successful; [clip i] tells
    whether the [i]-th model came with an animation. *)
Fixpoint loadCoins (maxCoins : nat) (clip : nat -> bool) (rt : Runtime)
  (m : Coins.Module_) : Runtime * Coins.Module_ :=
  match maxCoins with
  | O => (rt, m)
  | S k => let '(rt', m') := loadCoins k clip rt m in
           Coins.coinLoaded k (clip k) rt' m'
  end.

(** A sequence of calls of [updateCoins], each with its own player and
    time step. *)
Fixpoint coinFrames {U C} (playerBounds : Object3D U -> Box3)
  (coinBounds : Coins.Coin -> Box3) (updateUI : C -> C)
  (calls : list (option (Object3D U) * Q))
  (rt : Runtime) (m : Coins.Module_) (gs : GameState) (s : C)
  : Runtime * Coins.Module_ * GameState * C :=
  match calls with
  | [] => (rt, m, gs, s)
  | (pl, delta) :: rest =>
      let '(rt', m', gs', s') :=
        Coins.updateCoins playerBounds coinBounds pl gs updateUI delta rt m s in
      coinFrames playerBounds coinBounds updateUI rest rt' m' gs' s'
  end.

(** [playerUpdate] called once per entry of [deltas] on the same game
    state object. *)
Fixpoint playerFrames (deltas : list Q) (gs : GameState) (rt : Runtime)
  (m : Player.Module_) : Runtime * Player.Module_ * GameState :=
  match deltas with
  | [] => (rt, m, gs)
  | delta :: rest =>
      let '(rt', m', gs') := Player.playerUpdate delta gs rt m in
      playerFrames rest gs' rt' m'
  end.

(** [n] calls of [updatePlayer] with the same time step. *)
Fixpoint jumpFrames (n : nat) (rendered : GameState) (delta : Q)
  (c : GameCanvas.Component) : GameCanvas.Component :=
  match n with
  | O => c
  | S k => GameCanvas.updatePlayer rendered delta (jumpFrames k rendered delta c)
  end.

(** The tick on which a jump of initial velocity [v0] lands when every
    frame lasts [delta]: one more than the least whole number of frames
    covering [-2 * v0 / gravity]. *)
Definition landingTick (v0 gravity delta : Q) : nat :=
  S (Z.to_nat (Qceiling (2 * v0 / (delta * - gravity)))).

(** What the animation sequencer can be asked and what can happen to it. *)
Inductive SequencerOp :=
| Request (name : string) (ms : Z) (cb : option GameCanvas.Callback)
| Wait (ms : Z)
| Timeout.

Definition sequencerStep (c : GameCanvas.Component) (op : SequencerOp)
  : GameCanvas.Component :=
  match op with
  | Request name ms cb => GameCanvas.playAndResetAnimation name ms cb c
  | Wait ms => GameCanvas.elapse ms c
  | Timeout => GameCanvas.timerFires c
  end.

Definition sequencerRun (ops : list SequencerOp) (c : GameCanvas.Component)
  : GameCanvas.Component :=
  fold_left sequencerStep ops c.

(** A random oracle, a player at the origin and the three clips the game asks of the
    model, for concrete runs. *)
Definition zeroBits : RandomSource := {| bits := fun _ => 0%Z; drawn := O |}.
Definition quiet : Runtime := {| random := zeroBits; console := [] |}.
Definition atOrigin : Object3D unit :=
  {| position := {| x := 0; y := 0; z := 0 |}; visible := true;
     userData := tt |}.
Definition clips : list string := ["run"; "jump"; "roll"]%string.

(** A jump in progress: the flag is set, the velocity is [V], a player
    exists at height [Y] and its model has the clip the landing asks for. *)
Definition InFlight (c : GameCanvas.Component) (Y V : Q) : Prop :=
  GameCanvas.isJumpingRef c = true /\
  GameCanvas.jumpVelocityRef c == V /\
  exists pm, GameCanvas.playerRef c = Some pm /\
             y (position (Player.player pm)) == Y /\
             Player.has_clip "run" pm = true.

(** A jump that has ended: flag cleared, velocity reset, the player on the
    ground and the run clip playing. *)
Definition Landed (c : GameCanvas.Component) : Prop :=
  GameCanvas.isJumpingRef c = false /\
  GameCanvas.jumpVelocityRef c = 0 /\
  exists pm, GameCanvas.playerRef c = Some pm /\
             y (position (Player.player pm)) = 0 /\
             Player.currentAnimation pm = Some "run"%string.

(** Height and velocity after [n] frames in the air, in closed form. *)
Definition heightAt (v0 g delta : Q) (n : nat) : Q :=
  let q := inject_Z (Z.of_nat n) in
  q * v0 * delta + g * delta * delta * q * (q - 1) / 2.

Definition velocityAt (v0 g delta : Q) (n : nat) : Q :=
  v0 + inject_Z (Z.of_nat n) * g * delta.

(** The component right after the jump key, for concrete runs. *)
Definition jumping : GameCanvas.Component :=
  GameCanvas.handleKeyDown defaultGameState "ArrowUp"
    (GameCanvas.mounted (Some clips) zeroBits).

(** The game is over as far as [updateCoins] can tell: the loop's flag is
    down in the caller's state and [active] is false in the state object. *)
Definition over (e : Coins.Env GameCanvas.Component) : Prop :=
  GameCanvas.gameActiveRef (Coins.caller e) = false /\
  active (Coins.gameState e) = false.

(** Bounding boxes for concrete runs, and a mounted component with one
    barrier in the middle lane, one unit ahead of the player. *)
Definition bodyBox (o : Object3D Player.UserData) : Box3 :=
  Obstacles.playerBox (position o).
Definition coinBox (o : Coins.Coin) : Box3 :=
  {| min := position o; max := position o |}.
Definition closingIn : GameCanvas.Component :=
  GameCanvas.set_obstacles
    {| Obstacles.barriers :=
         [{| position := {| x := 1; y := 0.5; z := -1 |}; visible := true;
             userData := tt |}];
       Obstacles.barrierState := {| Obstacles.lastBarrierZ := -65 |};
       Obstacles.spawned := [{| Obstacles.how := Obstacles.Initial;
                                Obstacles.spawnZ := -40 |}] |}
    (GameCanvas.mounted (Some clips) zeroBits).

(** The requests a run of sequencer operations makes, in order, and the
    clips a list of requests should start when served one at a time, each
    followed by a return to the run clip. *)
Definition requestOf (op : SequencerOp) : list GameCanvas.AnimationRequest :=
  match op with
  | Request name ms cb =>
      [{| GameCanvas.animationName := name; GameCanvas.duration := ms;
          GameCanvas.onComplete := cb |}]
  | Wait _ | Timeout => []
  end.

Definition requestsOf (ops : list SequencerOp)
  : list GameCanvas.AnimationRequest :=
  flat_map requestOf ops.

Definition transcript (reqs : list GameCanvas.AnimationRequest) : list string :=
  flat_map (fun r => [GameCanvas.animationName r; "run"%string]) reqs.

(** The sequencer after it has been asked [hist]: either idle with all of
    [hist] played and nothing pending, or busy with exactly one timer, the
    one of the request being played, the requests before it played and the
    ones after it waiting in the queue in the order they were made.
    [start] is the clip log before the first request. *)
Definition Sequencing (start : list string) (clipNames : list string)
  (hist : list GameCanvas.AnimationRequest) (c : GameCanvas.Component) : Prop :=
  exists pm done,
    GameCanvas.playerRef c = Some pm /\
    Player.animations pm = clipNames /\
    ((GameCanvas.isAnimatingRef c = false /\
      GameCanvas.timers c = [] /\
      GameCanvas.animationQueueRef c = [] /\
      hist = done /\
      Player.played pm = start ++ transcript done /\
      (done <> [] -> Player.currentAnimation pm = Some "run"%string)) \/
     (exists r d,
        GameCanvas.isAnimatingRef c = true /\
        GameCanvas.timers c
        = [{| GameCanvas.due := d; GameCanvas.request := r;
              GameCanvas.captured := true |}] /\
        hist = done ++ r :: GameCanvas.animationQueueRef c /\
        Player.played pm
        = start ++ transcript done ++ [GameCanvas.animationName r] /\
        Player.currentAnimation pm = Some (GameCanvas.animationName r))).

(** Every requested clip exists in the model. *)
Definition clipsExist (clipNames : list string)
  (reqs : list GameCanvas.AnimationRequest) : Prop :=
  Forall (fun r => existsb (String.eqb (GameCanvas.animationName r)) clipNames
                   = true) reqs.

(** Readers of the player's animation state through the component. *)
Definition clipLog (c : GameCanvas.Component) : option (list string) :=
  option_map Player.played (GameCanvas.playerRef c).

Definition nowPlaying (c : GameCanvas.Component) : option string :=
  match GameCanvas.playerRef c with
  | Some pm => Player.currentAnimation pm
  | None => None
  end.

(** The two requests of the specification's scenario. *)
Definition jumpThenRoll : list SequencerOp :=
  [Request "jump" 800 None; Request "roll" 1190 (Some GameCanvas.EndSlide)].

(** Restart leaves no timer set before it to run after it. *)
Definition restartCancelsTimers : Prop :=
  forall c, GameCanvas.timers (GameCanvas.restartGame c) = [].

(** A slide; a frame on which the barrier ahead is hit and the game ends;
    half a second later the restart from the game-over screen; then a jump,
    whose own timer is still running when the slide's timer comes due. *)
Definition slideThenRestart : list GameCanvas.Event :=
  [GameCanvas.KeyDown defaultGameState "ArrowDown";
   GameCanvas.AnimationFrame defaultGameState (1 # 60);
   GameCanvas.Elapse 500;
   GameCanvas.RestartClicked].

Definition jumpAfterRestart : list GameCanvas.Event :=
  slideThenRestart
  ++ [GameCanvas.KeyDown defaultGameState "ArrowUp"; GameCanvas.Elapse 690].

(** A barrier as the game places it: in one of the three lane slots, at
    height 0.5. *)
Definition wellPlaced (b : Obstacles.Barrier) : Prop :=
  In (x (position b)) Obstacles.LANE_OFFSETS /\ y (position b) = 0.5.

End Runs.

(** ** Play: further drivers, views and invariants *)

Module Play.
Import JS THREE Game Runs.

(** *** Obstacles *)

(** The loads of [initObstacles] completing one after the other, each
    with its outcome: [true] runs the success callback, [false] the
    failure callback. *)
Fixpoint loadOutcomes (outcomes : list bool) (rt : Runtime)
  (m : Obstacles.Module_) : Runtime * Obstacles.Module_ :=
  match outcomes with
  | [] => (rt, m)
  | ok :: rest =>
      let '(rt', m') :=
        if ok then Obstacles.barrierLoaded rt m
        else Obstacles.barrierFailed rt m in
      loadOutcomes rest rt' m'
  end.

Definition successes (outcomes : list bool) : nat :=
  List.length (filter (fun ok => ok) outcomes).
Definition failures (outcomes : list bool) : nat :=
  List.length (filter negb outcomes).

(** Not yet past the recycle line. *)
Definition inView (b : Obstacles.Barrier) : Prop := z (position b) <= 10.

(** A pool of one barrier that the next frame recycles. *)
Definition aboutToLeave : Obstacles.Module_ :=
  {| Obstacles.barriers :=
       [{| position := {| x := 1; y := 0.5; z := 9.5 |}; visible := true;
           userData := tt |}];
     Obstacles.barrierState := {| Obstacles.lastBarrierZ := -65 |};
     Obstacles.spawned := [{| Obstacles.how := Obstacles.Initial;
                              Obstacles.spawnZ := -40 |}] |}.

(** A barrier of the middle slot, and a player in mid-air above the
    middle lane. *)
Definition midBarrier (zed : Q) : Obstacles.Barrier :=
  {| position := {| x := 1; y := 0.5; z := zed |}; visible := true;
     userData := tt |}.
Definition hovering : Object3D unit :=
  {| position := {| x := 0; y := 1.2; z := 0 |}; visible := true;
     userData := tt |}.

(** *** Coins *)

(** A coin where the game puts coins. *)
Definition coinPlaced (c : Coins.Coin) : Prop :=
  In (x (position c)) [-4; 0; 4] /\ y (position c) = 1.2 /\ z (position c) <= 10.

(** The coin pool after [maxCoins] loads and the given frames. *)
Definition coinRun {U C} (playerBounds : Object3D U -> Box3)
  (coinBounds : Coins.Coin -> Box3) (updateUI : C -> C) (maxCoins : nat)
  (clip : nat -> bool) (rt : Runtime)
  (calls : list (option (Object3D U) * Q)) (gs : GameState) (s : C)
  : Coins.Module_ :=
  let '(rt1, m1) := loadCoins maxCoins clip rt Coins.initialModule in
  snd (fst (fst (coinFrames playerBounds coinBounds updateUI calls rt1 m1 gs s))).

(** *** The jump *)

(** The vertex of the parabola through the heights of a jump. *)
Definition apexBound (v0 gravity delta : Q) : Q :=
  (v0 - gravity * delta / 2) * (v0 - gravity * delta / 2) / (2 * - gravity).

(** *** What a run of the game keeps *)

(** The part of the component that input handling, the sequencer and the
    frame loop steer by. *)
Definition Control : Type :=
  (GameState * bool * bool * bool * Q * list GameCanvas.AnimationRequest
   * bool * list GameCanvas.Timer * Z * option (Object3D Player.UserData))%type.

Definition control (c : GameCanvas.Component) : Control :=
  (GameCanvas.gameState c, GameCanvas.gameActiveRef c,
   GameCanvas.isRollingRef c, GameCanvas.isJumpingRef c,
   GameCanvas.jumpVelocityRef c, GameCanvas.animationQueueRef c,
   GameCanvas.isAnimatingRef c, GameCanvas.timers c, GameCanvas.now c,
   option_map Player.player (GameCanvas.playerRef c)).

(** The fields of the game state that nothing assigns after the mount. *)
Definition constants (g : GameState) : Prop :=
  speed g = 0.3 /\ maxSpeed g = 0.5 /\ gravity g = -20 /\ score g = 0%Z /\
  multiplier g = 1%Z /\ laneDistance g = 4 /\ maxCoins g = 5%Z /\
  isJumping g = false.

(** A request for one of the two clips that play once. *)
Definition transient (r : GameCanvas.AnimationRequest) : Prop :=
  GameCanvas.animationName r = "jump"%string \/
  GameCanvas.animationName r = "roll"%string.

Definition onTrack (o : Object3D Player.UserData) : Prop :=
  -4 <= x (position o) /\ x (position o) <= 4 /\
  0 <= y (position o) /\ z (position o) = 0.

Definition steady (k : Control) : Prop :=
  let '(g, _, rolling, jumping, _, queue, _, tms, _, o) := k in
  constants g /\ (-1 <= currentLane g <= 1)%Z /\ (0 <= coinCount g)%Z /\
  (jumping && rolling = false) /\ (isSliding g = true -> rolling = true) /\
  Forall transient queue /\
  Forall (fun t => transient (GameCanvas.request t)) tms /\
  match o with Some pl => onTrack pl | None => True end.

Definition Steady (c : GameCanvas.Component) : Prop := steady (control c).

(** *** After the collision *)

(** What the player sees of a game that is over. *)
Definition Frozen : Type :=
  (bool * bool * Z * option (Object3D Player.UserData)
   * Obstacles.Module_ * Coins.Module_)%type.

Definition frozen (c : GameCanvas.Component) : Frozen :=
  (GameCanvas.gameActiveRef c, active (GameCanvas.gameState c),
   coinCount (GameCanvas.gameState c),
   option_map Player.player (GameCanvas.playerRef c),
   GameCanvas.obstacles c, GameCanvas.coins c).

(** Input, frames and timers: every event but the two buttons of the
    game-over screen and the completion of a model load. *)
Definition playEvent (ev : GameCanvas.Event) : Prop :=
  match ev with
  | GameCanvas.KeyDown _ _ | GameCanvas.Drag _ _ _ _
  | GameCanvas.AnimationFrame _ _ | GameCanvas.Elapse _
  | GameCanvas.TimerFires => True
  | _ => False
  end.

(** The frame in which [closingIn] meets its barrier. *)
Definition gameOver : GameCanvas.Component :=
  GameCanvas.animate bodyBox coinBox defaultGameState (1 # 60) closingIn.

(** *** Restart; a model without clips *)

Definition restartThenLoad (k : nat) : list GameCanvas.Event :=
  GameCanvas.RestartClicked :: repeat GameCanvas.BarrierModelLoaded k.

(** A mounted game whose player model has the run clip only. *)
Definition runClipOnly : GameCanvas.Component :=
  GameCanvas.mounted (Some ["run"%string]) zeroBits.

(** *** A barrier in the player's lane *)

(** A grounded player on the centre of its lane, and a barrier of that
    lane that the next step of [s] does not carry past the player. *)
Definition facing (s : Q) (c : GameCanvas.Component) (b : Obstacles.Barrier)
  : Prop :=
  let g := GameCanvas.gameState c in
  GameCanvas.isJumpingRef c = false /\
  isJumping g = false /\
  laneDistance g == 4 /\
  (-1 <= currentLane g <= 1)%Z /\
  speed g * 2 == s /\
  (exists pm, GameCanvas.playerRef c = Some pm /\
     x (position (Player.player pm)) == inject_Z (currentLane g) * 4 /\
     y (position (Player.player pm)) == 0 /\
     z (position (Player.player pm)) == 0) /\
  In b (Obstacles.barriers (GameCanvas.obstacles c)) /\
  index Obstacles.LANE_OFFSETS (currentLane g + 1) = Some (x (position b)) /\
  y (position b) == 0.5 /\
  z (position b) + s <= 1.5.

(** [n] frames in a row, with no input in between. *)
Definition approach (n : nat) (rendered : GameState) (delta : Q)
  : list GameCanvas.Event :=
  repeat (GameCanvas.AnimationFrame rendered delta) n.

(** A mounted game with one barrier in the middle lane, forty units
    ahead of the player. *)
Definition farAway : GameCanvas.Component :=
  GameCanvas.set_obstacles
    {| Obstacles.barriers := [midBarrier (-40)];
       Obstacles.barrierState := {| Obstacles.lastBarrierZ := -65 |};
       Obstacles.spawned := [{| Obstacles.how := Obstacles.Initial;
                                Obstacles.spawnZ := -40 |}] |}
    (GameCanvas.mounted (Some clips) zeroBits).

(** *** Environment *)

(** The references the three arrays hold. *)
Definition scenery (m : Environment.Module_) : list nat :=
  Environment.roadSegments m ++ Environment.leftBuildings m
  ++ Environment.rightBuildings m.

(** A frame whose scroll step does not exceed one recycle distance. *)
Definition unhurried (ev : Environment.Event) : Prop :=
  match ev with
  | Environment.Frame gs => speed gs <= 400
  | _ => True
  end.

(** A road or building model whose name the cloud loop does not match. *)
Definition plainModel (ev : Environment.Event) : Prop :=
  match ev with
  | Environment.RoadModelLoaded _ model
  | Environment.BuildingModelLoaded _ model =>
      prefix "cloud" model = false
  | _ => True
  end.

Definition behindCamera (o : Environment.Node) : Prop :=
  z (Environment.position o) <= 50.

Definition inTheSky (o : Environment.Node) : Prop :=
  -75 <= x (Environment.position o) /\ x (Environment.position o) < 75 /\
  30 <= y (Environment.position o) /\ y (Environment.position o) < 40.

(** A short history: a road segment, a cloud and a pair of buildings
    load, a frame runs, a second road segment loads, another frame. *)
Definition cityBlock : list Environment.Event :=
  [Environment.RoadModelLoaded 0 "Scene"; Environment.CloudModelLoaded 0;
   Environment.BuildingModelLoaded 0 "Scene";
   Environment.Frame defaultGameState;
   Environment.RoadModelLoaded 1 "Scene";
   Environment.Frame defaultGameState].

(** The references are distinct and point into the scene. *)
Definition wellFormed (m : Environment.Module_) : Prop :=
  NoDup (scenery m) /\
  Forall (fun r => (r < List.length (Environment.children m))%nat) (scenery m).

(** What the three array loops of one call of [updateEnvironment] make of
    the object behind reference [j], and what the whole call makes of it. *)
Definition shifted (gs : GameState) (m : Environment.Module_) (j : nat)
  (o : Environment.Node) : Environment.Node :=
  let s := speed gs * 2 in
  let o1 := if existsb (Nat.eqb j) (Environment.roadSegments m)
            then Environment.moveRoad s
                   (List.length (Environment.roadSegments m)) o
            else o in
  let o2 := if existsb (Nat.eqb j) (Environment.leftBuildings m)
            then Environment.moveBuilding s o1 else o1 in
  if existsb (Nat.eqb j) (Environment.rightBuildings m)
  then Environment.moveBuilding s o2 else o2.

Definition passage (gs : GameState) (m : Environment.Module_) (j : nat)
  (rt : Runtime) (o : Environment.Node) : Environment.Node :=
  fst (Environment.moveCloud (speed gs * 2) rt (shifted gs m j o)).

(** The three invariants of the environment: what scrolls is behind
    z = 50; the rows of buildings are paired; scrolling keeps x and y. *)
Definition Behind (m : Environment.Module_) : Prop :=
  forall j o, nth_error (Environment.children m) j = Some o ->
    In j (scenery m) \/ Environment.isCloud o = true -> behindCamera o.

Definition Paired (m : Environment.Module_) : Prop :=
  List.length (Environment.leftBuildings m)
  = List.length (Environment.rightBuildings m) /\
  forall k l r,
    nth_error (Environment.leftBuildings m) k = Some l ->
    nth_error (Environment.rightBuildings m) k = Some r ->
    exists a b,
      nth_error (Environment.children m) l = Some a /\
      nth_error (Environment.children m) r = Some b /\
      Environment.name a = Environment.name b /\
      z (Environment.position a) = z (Environment.position b).

Definition onLine (px : Q) (o : Environment.Node) : Prop :=
  Environment.isCloud o = false /\
  x (Environment.position o) = px /\ y (Environment.position o) = 0.

Definition Rows (m : Environment.Module_) : Prop :=
  forall j o, nth_error (Environment.children m) j = Some o ->
    (In j (Environment.roadSegments m) -> onLine (-8.8) o) /\
    (In j (Environment.leftBuildings m) -> onLine (-20) o) /\
    (In j (Environment.rightBuildings m) -> onLine 57 o) /\
    (Environment.isCloud o = true -> inTheSky o).

End Play.

(** * Properties *)

Import JS THREE Game Runs.

(** ** The runtime *)

Section ForEach.
Context {A E : Type}.
Variable f : E -> A -> A * E.

Lemma forEach_length (xs : list A) : forall e,
  List.length (fst (JS.forEach f e xs)) = List.length xs.
Proof.
  induction xs as [|a xs IH]; intros e; simpl; [reflexivity|].
  destruct (f e a) as [a' e1]. specialize (IH e1).
  destruct (JS.forEach f e1 xs) as [xs' e2]. simpl in *. now rewrite IH.
Qed.

Lemma forEach_invariant (P : E -> Prop) :
  (forall e a, P e -> P (snd (f e a))) ->
  forall xs e, P e -> P (snd (JS.forEach f e xs)).
Proof.
  intros step xs. induction xs as [|a xs IH]; intros e He; simpl; [exact He|].
  specialize (step e a He). destruct (f e a) as [a' e1]. simpl in step.
  specialize (IH e1 step). destruct (JS.forEach f e1 xs) as [xs' e2]. exact IH.
Qed.
End ForEach.

Lemma Math_random_range (r : JS.RandomSource) :
  0 <= fst (JS.Math_random r) /\ fst (JS.Math_random r) < 1.
Proof.
  unfold JS.Math_random; simpl.
  pose proof (Z.mod_pos_bound (JS.bits r (JS.drawn r)) (2 ^ 53) eq_refl) as [lo hi].
  unfold Qle, Qlt; simpl. split; lia.
Qed.

Lemma draw_range (rt : JS.Runtime) :
  0 <= fst (JS.draw rt) /\ fst (JS.draw rt) < 1.
Proof.
  unfold JS.draw. pose proof (Math_random_range (JS.random rt)) as H.
  destruct (JS.Math_random (JS.random rt)); exact H.
Qed.

Lemma floor_times_3 (u : Q) : 0 <= u -> u < 1 ->
  Qfloor (u * 3) = 0%Z \/ Qfloor (u * 3) = 1%Z \/ Qfloor (u * 3) = 2%Z.
Proof.
  intros lo hi.
  assert (0 <= Qfloor (u * 3))%Z.
  { rewrite <- (Qfloor_Z 0). apply Qfloor_resp_le. change (inject_Z 0) with 0. lra. }
  assert (Qfloor (u * 3) < 3)%Z.
  { rewrite Zlt_Qlt. apply Qle_lt_trans with (u * 3); [apply Qfloor_le|].
    change (inject_Z 3) with 3. lra. }
  lia.
Qed.

Lemma randomLane_in_offsets (rt : JS.Runtime) :
  In (fst (Obstacles.randomLane rt)) Obstacles.LANE_OFFSETS.
Proof.
  unfold Obstacles.randomLane. pose proof (draw_range rt) as [lo hi].
  destruct (JS.draw rt) as [u rt']; simpl in lo, hi.
  unfold JS.Math_floor. change (inject_Z (Z.of_nat (List.length Obstacles.LANE_OFFSETS))) with 3.
  destruct (floor_times_3 u lo hi) as [-> | [-> | ->]]; simpl; auto.
Qed.

(** ** Obstacles: the spacing cursor *)

Lemma slot_S (n : nat) : slot (S n) == slot n - Obstacles.MIN_BARRIER_SPACING.
Proof.
  unfold slot. rewrite Nat2Z.inj_succ, <- Z.add_1_r, inject_Z_plus.
  change (inject_Z 1) with 1. ring.
Qed.

Lemma slot_decreasing (i j : nat) : (i < j)%nat -> slot j < slot i.
Proof.
  intros H. unfold slot, Obstacles.MIN_BARRIER_SPACING.
  assert (inject_Z (Z.of_nat i) < inject_Z (Z.of_nat j)) by (rewrite <- Zlt_Qlt; lia).
  lra.
Qed.

Lemma Placed_initial : Placed 0 0 (Obstacles.barrierState Obstacles.initialModule)
                                  (Obstacles.spawned Obstacles.initialModule).
Proof.
  split; [reflexivity|]. split; [reflexivity|].
  intros [|i] s H; discriminate H.
Qed.

Lemma nth_error_snoc {A} (l : list A) (a s : A) (i : nat) :
  nth_error (l ++ [a]) i = Some s ->
  ((i < List.length l)%nat /\ nth_error l i = Some s) \/
  (i = List.length l /\ s = a).
Proof.
  intros H. destruct (Nat.lt_ge_cases i (List.length l)) as [lt|ge].
  - left. rewrite nth_error_app1 in H by exact lt. now split.
  - right. rewrite nth_error_app2 in H by exact ge.
    destruct (i - List.length l)%nat as [|d] eqn:E; simpl in H.
    + injection H as <-. split; [lia | reflexivity].
    + destruct d; discriminate H.
Qed.

Lemma Placed_load k cur lg :
  Placed k 0 cur lg ->
  Placed (S k) 0
    {| Obstacles.lastBarrierZ := Obstacles.lastBarrierZ cur - Obstacles.MIN_BARRIER_SPACING |}
    (lg ++ [{| Obstacles.how := Obstacles.Initial; Obstacles.spawnZ := Obstacles.lastBarrierZ cur |}]).
Proof.
  intros (len & cv & pts). rewrite Nat.add_0_r in *.
  split; [|split].
  - rewrite length_app, len. simpl. lia.
  - simpl. rewrite ?Nat.add_0_r, slot_S, cv. reflexivity.
  - intros i s H. apply nth_error_snoc in H as [[lt H] | [-> ->]].
    + destruct (pts i s H) as [early late]. split; intros Hi.
      * apply early; lia.
      * lia.
    + split; intros Hi; [|lia]. simpl. rewrite len. split; [reflexivity | exact cv].
Qed.

Lemma Placed_recycle k r cur lg :
  Placed k r cur lg ->
  Placed k (S r)
    {| Obstacles.lastBarrierZ := Obstacles.lastBarrierZ cur - Obstacles.MIN_BARRIER_SPACING |}
    (lg ++ [{| Obstacles.how := Obstacles.Recycled;
               Obstacles.spawnZ := Obstacles.lastBarrierZ cur - Obstacles.MIN_BARRIER_SPACING |}]).
Proof.
  intros (len & cv & pts).
  assert (step : Obstacles.lastBarrierZ cur - Obstacles.MIN_BARRIER_SPACING == slot (k + S r)).
  { rewrite Nat.add_succ_r, slot_S, cv. reflexivity. }
  split; [|split].
  - rewrite length_app, len. simpl. lia.
  - exact step.
  - intros i s H. apply nth_error_snoc in H as [[lt H] | [-> ->]].
    + exact (pts i s H).
    + rewrite len. split; intros Hi; [lia|]. simpl. split; [reflexivity|].
      rewrite step, Nat.add_succ_r. reflexivity.
Qed.

Section Recycling.
Context {U C : Type}.
Variables (player : Object3D U) (speed : Q) (onCollision : C -> C) (k : nat).

Lemma advance_placed (e : Obstacles.Env C) b :
  placedEnv k e -> placedEnv k (snd (Obstacles.advance speed e b)).
Proof.
  intros [r H]. unfold Obstacles.advance.
  destruct (gt _ 10); [|exists r; exact H].
  destruct (Obstacles.randomLane (Obstacles.runtime e)) as [lx rt']. simpl.
  exists (S r). apply Placed_recycle, H.
Qed.

Lemma visit_placed (e : Obstacles.Env C) b :
  placedEnv k e -> placedEnv k (snd (Obstacles.visit player speed onCollision e b)).
Proof.
  intros H. unfold Obstacles.visit.
  pose proof (advance_placed e b H) as H1.
  destruct (Obstacles.advance speed e b) as [b' e1]. simpl in H1.
  destruct (Obstacles.hits player b'); [|exact H1].
  destruct H1 as [r H1]. exists r. exact H1.
Qed.
End Recycling.

Lemma updateObstacles_placed {U C} k (pl : option (Object3D U)) gs
  (cb : C -> C) rt m s :
  (exists r, Placed k r (Obstacles.barrierState m) (Obstacles.spawned m)) ->
  exists r, Placed k r
    (Obstacles.barrierState (snd (fst (Obstacles.updateObstacles pl gs cb rt m s))))
    (Obstacles.spawned (snd (fst (Obstacles.updateObstacles pl gs cb rt m s)))).
Proof.
  intros H. unfold Obstacles.updateObstacles. destruct pl as [pl|]; [|exact H].
  pose proof (forEach_invariant (Obstacles.visit pl (speed gs * 2) cb)
                (placedEnv (C:=C) k) (fun e b => visit_placed pl _ cb k e b)
                (Obstacles.barriers m)
                {| Obstacles.runtime := rt; Obstacles.cursor := Obstacles.barrierState m;
                   Obstacles.log := Obstacles.spawned m; Obstacles.caller := s |} H) as K.
  destruct (forEach _ _ _) as [bs e]. exact K.
Qed.

Lemma loadBarriers_placed k rt :
  Placed k 0 (Obstacles.barrierState (snd (loadBarriers k rt Obstacles.initialModule)))
             (Obstacles.spawned (snd (loadBarriers k rt Obstacles.initialModule))).
Proof.
  induction k as [|k IH]; simpl; [exact Placed_initial|].
  destruct (loadBarriers k rt Obstacles.initialModule) as [rt' m']. simpl in IH.
  unfold Obstacles.barrierLoaded.
  destruct (Obstacles.randomLane rt') as [lx rt'']. simpl.
  apply Placed_load, IH.
Qed.

Lemma obstacleFrames_placed {U C} k (cb : C -> C)
  (calls : list (option (Object3D U) * GameState)) : forall rt m s,
  (exists r, Placed k r (Obstacles.barrierState m) (Obstacles.spawned m)) ->
  exists r, Placed k r
    (Obstacles.barrierState (snd (fst (obstacleFrames cb calls rt m s))))
    (Obstacles.spawned (snd (fst (obstacleFrames cb calls rt m s)))).
Proof.
  induction calls as [|[pl gs] rest IH]; intros rt m s H; simpl; [exact H|].
  pose proof (updateObstacles_placed k pl gs cb rt m s H) as K.
  destruct (Obstacles.updateObstacles pl gs cb rt m s) as [[rt' m'] s'].
  simpl in K. apply IH, K.
Qed.

Lemma visit_cursor_le {U C} (player : Object3D U) (speed bound : Q)
  (onCollision : C -> C) (e : Obstacles.Env C) (b : Obstacles.Barrier) :
  Obstacles.lastBarrierZ (Obstacles.cursor e) <= bound ->
  Obstacles.lastBarrierZ
    (Obstacles.cursor (snd (Obstacles.visit player speed onCollision e b)))
  <= bound.
Proof.
  intros H. unfold Obstacles.visit, Obstacles.advance.
  destruct (gt _ 10).
  - destruct (Obstacles.randomLane (Obstacles.runtime e)) as [lx rt'].
    destruct (Obstacles.hits _ _); simpl;
      unfold Obstacles.MIN_BARRIER_SPACING; lra.
  - destruct (Obstacles.hits _ _); simpl; exact H.
Qed.

Lemma updateObstacles_cursor_le {U C} (pl : option (Object3D U)) gs
  (cb : C -> C) rt m s :
  Obstacles.lastBarrierZ
    (Obstacles.barrierState (snd (fst (Obstacles.updateObstacles pl gs cb rt m s))))
  <= Obstacles.lastBarrierZ (Obstacles.barrierState m).
Proof.
  unfold Obstacles.updateObstacles. destruct pl as [pl|]; [|simpl; lra].
  pose proof (forEach_invariant (Obstacles.visit pl (speed gs * 2) cb)
                (fun e => Obstacles.lastBarrierZ (Obstacles.cursor e)
                          <= Obstacles.lastBarrierZ (Obstacles.barrierState m))
                (fun e b => visit_cursor_le pl _ _ cb e b)
                (Obstacles.barriers m)
                {| Obstacles.runtime := rt; Obstacles.cursor := Obstacles.barrierState m;
                   Obstacles.log := Obstacles.spawned m; Obstacles.caller := s |}
                (Qle_refl _)) as K.
  destruct (forEach _ _ _) as [bs e]. exact K.
Qed.

Lemma barrierLoaded_cursor_lt rt m :
  Obstacles.lastBarrierZ (Obstacles.barrierState (snd (Obstacles.barrierLoaded rt m)))
  < Obstacles.lastBarrierZ (Obstacles.barrierState m).
Proof.
  unfold Obstacles.barrierLoaded.
  destruct (Obstacles.randomLane rt) as [lx rt']. simpl.
  unfold Obstacles.MIN_BARRIER_SPACING. lra.
Qed.

Lemma obstacleRun_placed {U C} k rt (cb : C -> C)
  (calls : list (option (Object3D U) * GameState)) s :
  exists r, Placed k r (Obstacles.barrierState (obstacleRun k rt cb calls s))
                       (Obstacles.spawned (obstacleRun k rt cb calls s)).
Proof.
  unfold obstacleRun. pose proof (loadBarriers_placed k rt) as H.
  destruct (loadBarriers k rt Obstacles.initialModule) as [rt1 m1].
  apply obstacleFrames_placed. exists O. exact H.
Qed.



(** ** Jumping *)

Lemma le_true (a b : Q) : JS.le a b = true <-> a <= b.
Proof. apply Qle_bool_iff. Qed.

Lemma le_false (a b : Q) : JS.le a b = false <-> b < a.
Proof.
  unfold JS.le. split; intros H.
  - apply Qnot_le_lt. intros K. apply Qle_bool_iff in K. congruence.
  - destruct (Qle_bool a b) eqn:E; [|reflexivity].
    apply Qle_bool_iff in E. lra.
Qed.

Lemma gt_true (a b : Q) : JS.gt a b = true <-> b < a.
Proof.
  unfold JS.gt. rewrite negb_true_iff. apply le_false.
Qed.

Lemma gt_false (a b : Q) : JS.gt a b = false <-> a <= b.
Proof.
  unfold JS.gt. rewrite negb_false_iff. apply le_true.
Qed.

Ltac fields :=
  cbn [GameCanvas.gameState GameCanvas.gameActiveRef GameCanvas.isRollingRef
       GameCanvas.isJumpingRef GameCanvas.jumpVelocityRef
       GameCanvas.animationQueueRef GameCanvas.isAnimatingRef
       GameCanvas.playerRef GameCanvas.sceneRef GameCanvas.obstacles
       GameCanvas.coins GameCanvas.runtime GameCanvas.timers GameCanvas.now
       GameCanvas.renders
       GameCanvas.set_gameState GameCanvas.set_gameActiveRef
       GameCanvas.set_isRollingRef GameCanvas.set_isJumpingRef
       GameCanvas.set_jumpVelocityRef GameCanvas.set_animationQueueRef
       GameCanvas.set_isAnimatingRef GameCanvas.set_playerRef
       GameCanvas.set_sceneRef GameCanvas.set_obstacles GameCanvas.set_coins
       GameCanvas.set_runtime GameCanvas.set_timers GameCanvas.set_now
       GameCanvas.set_renders
       Player.player Player.animations Player.currentAnimation Player.mixer
       Player.played Player.set_player Player.set_mixer
       position visible userData set_position x y z] in *.

Lemma updatePlayer_rises rendered delta c Y V :
  InFlight c Y V -> 0 < Y + V * delta ->
  InFlight (GameCanvas.updatePlayer rendered delta c)
           (Y + V * delta) (V + gravity rendered * delta).
Proof.
  intros (jmp & vel & pm & ref & hy & clip) pos.
  unfold GameCanvas.updatePlayer. rewrite ref, jmp.
  cbv zeta. fields.
  assert (E : JS.le (y (position (Player.player pm)) + GameCanvas.jumpVelocityRef c * delta) 0 = false).
  { apply le_false. rewrite hy, vel. exact pos. }
  rewrite E. unfold InFlight. fields.
  split; [exact jmp|]. split; [rewrite vel; reflexivity|].
  eexists. split; [reflexivity|]. fields.
  split; [rewrite hy, vel; reflexivity | exact clip].
Qed.

Lemma updatePlayer_lands rendered delta c Y V :
  InFlight c Y V -> Y + V * delta <= 0 ->
  Landed (GameCanvas.updatePlayer rendered delta c).
Proof.
  intros (jmp & vel & pm & ref & hy & clip) neg.
  unfold GameCanvas.updatePlayer. rewrite ref, jmp.
  cbv zeta. fields.
  assert (E : JS.le (y (position (Player.player pm)) + GameCanvas.jumpVelocityRef c * delta) 0 = true).
  { apply le_true. rewrite hy, vel. exact neg. }
  rewrite E. unfold GameCanvas.playAnimation. fields.
  unfold Player.playAnimationFunc.
  replace (Player.has_clip "run" _) with true by (symmetry; exact clip).
  cbn [negb]. unfold Landed. fields.
  split; [reflexivity|]. split; [reflexivity|].
  eexists. split; [reflexivity|]. fields. split; reflexivity.
Qed.

Lemma inject_S (n : nat) : inject_Z (Z.of_nat (S n)) == inject_Z (Z.of_nat n) + 1.
Proof. rewrite Nat2Z.inj_succ, <- Z.add_1_r, inject_Z_plus. reflexivity. Qed.

Lemma inject_nat_nonneg (n : nat) : 0 <= inject_Z (Z.of_nat n).
Proof. change 0 with (inject_Z 0). rewrite <- Zle_Qle. lia. Qed.

Lemma heightAt_step v0 g delta n :
  heightAt v0 g delta n + velocityAt v0 g delta n * delta
  == heightAt v0 g delta (S n).
Proof. unfold heightAt, velocityAt. cbv zeta. rewrite inject_S. field. Qed.

Lemma velocityAt_step v0 g delta n :
  velocityAt v0 g delta n + g * delta == velocityAt v0 g delta (S n).
Proof. unfold velocityAt. rewrite inject_S. ring. Qed.

Lemma heightAt_factor v0 g delta n :
  heightAt v0 g delta (S n)
  == (inject_Z (Z.of_nat n) + 1) * delta / 2
     * (2 * v0 - inject_Z (Z.of_nat n) * (delta * - g)).
Proof. unfold heightAt. cbv zeta. rewrite inject_S. field. Qed.

Section Flight.
Variables (v0 g delta : Q).
Hypotheses (v0_pos : 0 < v0) (g_neg : g < 0) (delta_pos : 0 < delta).

Let frames : Q := 2 * v0 / (delta * - g).

Lemma thrust_pos : 0 < delta * - g.
Proof. apply Qmult_lt_0_compat; lra. Qed.

Lemma frames_spec : frames * (delta * - g) == 2 * v0.
Proof. unfold frames. field. pose proof thrust_pos. lra. Qed.

Lemma frames_pos : 0 < frames.
Proof.
  pose proof thrust_pos as T. pose proof frames_spec as S.
  destruct (Qlt_le_dec 0 frames) as [ok|bad]; [exact ok|].
  assert (frames * (delta * - g) <= 0) by nra. lra.
Qed.

Lemma ceiling_frames_pos : (0 < Qceiling frames)%Z.
Proof.
  pose proof frames_pos. pose proof (Qle_ceiling frames).
  rewrite Zlt_Qlt. change (inject_Z 0) with 0. lra.
Qed.

Lemma heightAt_airborne n :
  (Z.of_nat n < Qceiling frames)%Z -> 0 < heightAt v0 g delta (S n).
Proof.
  intros H. rewrite heightAt_factor.
  assert (inject_Z (Z.of_nat n) < frames).
  { apply Qle_lt_trans with (inject_Z (Qceiling frames - 1)); [|apply Qceiling_lt].
    rewrite <- Zle_Qle. lia. }
  pose proof thrust_pos as T. pose proof frames_spec as S.
  pose proof (inject_nat_nonneg n) as P.
  assert (inject_Z (Z.of_nat n) * (delta * - g) < 2 * v0) by nra.
  apply Qmult_lt_0_compat; [|lra].
  apply Qlt_shift_div_l; [lra|]. nra.
Qed.

Lemma heightAt_ground n :
  (Qceiling frames <= Z.of_nat n)%Z -> heightAt v0 g delta (S n) <= 0.
Proof.
  intros H. rewrite heightAt_factor.
  assert (frames <= inject_Z (Z.of_nat n)).
  { apply Qle_trans with (inject_Z (Qceiling frames)); [apply Qle_ceiling|].
    rewrite <- Zle_Qle. exact H. }
  pose proof thrust_pos as T. pose proof frames_spec as S.
  pose proof (inject_nat_nonneg n) as P.
  assert (2 * v0 <= inject_Z (Z.of_nat n) * (delta * - g)) by nra.
  assert (0 <= (inject_Z (Z.of_nat n) + 1) * delta / 2).
  { apply Qle_shift_div_l; [lra|]. nra. }
  nra.
Qed.
End Flight.

Lemma InFlight_compat c Y V Y' V' :
  Y == Y' -> V == V' -> InFlight c Y V -> InFlight c Y' V'.
Proof.
  intros ey ev (jmp & vel & pm & ref & hy & clip).
  split; [exact jmp|]. split; [rewrite vel; exact ev|].
  exists pm. split; [exact ref|]. split; [rewrite hy; exact ey | exact clip].
Qed.

Section Jump.
Variables (rendered : GameState) (v0 delta : Q) (c : GameCanvas.Component).
Hypotheses (v0_pos : 0 < v0) (g_neg : gravity rendered < 0)
           (delta_pos : 0 < delta).
Hypothesis takeoff : InFlight c 0 v0.

Lemma jumpFrames_airborne n :
  (Z.of_nat n <= Qceiling (2 * v0 / (delta * - gravity rendered)))%Z ->
  InFlight (jumpFrames n rendered delta c)
           (heightAt v0 (gravity rendered) delta n)
           (velocityAt v0 (gravity rendered) delta n).
Proof.
  induction n as [|n IH]; intros bound.
  - apply (InFlight_compat c 0 v0); [| |exact takeoff].
    + unfold heightAt. cbv zeta. change (inject_Z (Z.of_nat 0)) with 0. field.
    + unfold velocityAt. change (inject_Z (Z.of_nat 0)) with 0. ring.
  - simpl jumpFrames.
    assert (prev : (Z.of_nat n < Qceiling (2 * v0 / (delta * - gravity rendered)))%Z) by lia.
    specialize (IH ltac:(lia)).
    assert (up : 0 < heightAt v0 (gravity rendered) delta (S n))
      by (apply heightAt_airborne; assumption).
    rewrite <- heightAt_step in up.
    apply (InFlight_compat _ _ _ _ _ (heightAt_step _ _ _ n) (velocityAt_step _ _ _ n)).
    apply updatePlayer_rises; assumption.
Qed.

Lemma jumpFrames_lands :
  Landed (jumpFrames (landingTick v0 (gravity rendered) delta) rendered delta c).
Proof.
  unfold landingTick. simpl jumpFrames.
  set (f := Qceiling (2 * v0 / (delta * - gravity rendered))).
  assert (fpos : (0 < f)%Z) by (apply ceiling_frames_pos; assumption).
  assert (E : Z.of_nat (Z.to_nat f) = f) by lia.
  eapply updatePlayer_lands.
  - apply jumpFrames_airborne. fold f. lia.
  - rewrite heightAt_step.
    apply heightAt_ground; try assumption. fold f. lia.
Qed.

Lemma airtime_bounds :
  let t := -2 * v0 / gravity rendered in
  let T := inject_Z (Z.of_nat (landingTick v0 (gravity rendered) delta)) * delta in
  t + delta <= T /\ T < t + 2 * delta.
Proof.
  intros t T. unfold T, landingTick. rewrite inject_S.
  set (fr := 2 * v0 / (delta * - gravity rendered)).
  assert (fpos : (0 < Qceiling fr)%Z) by (apply ceiling_frames_pos; assumption).
  rewrite Z2Nat.id by lia.
  assert (Et : t == fr * delta) by (unfold t, fr; field; split; lra).
  pose proof (Qle_ceiling fr) as lo.
  assert (hi : inject_Z (Qceiling fr) - 1 < fr).
  { pose proof (Qceiling_lt fr) as h. unfold Z.sub in h.
    rewrite inject_Z_plus, inject_Z_opp in h. exact h. }
  rewrite Et.
  set (C := inject_Z (Qceiling fr)) in *.
  assert (0 <= (C - fr) * delta) by (apply Qmult_le_0_compat; lra).
  assert (0 < (fr + 1 - C) * delta) by (apply Qmult_lt_0_compat; lra).
  split; lra.
Qed.
End Jump.




(** ** Obstacles: collisions *)

Lemma forEach_In {A E} (f : E -> A -> A * E) (xs : list A) (a : A) :
  In a xs -> forall e, exists e', In (fst (f e' a)) (fst (forEach f e xs)).
Proof.
  induction xs as [|b xs IH]; intros mem e; [destruct mem|].
  simpl. destruct mem as [-> | mem].
  - exists e. destruct (f e a) as [a' e1].
    destruct (forEach f e1 xs) as [xs' e2]. left. reflexivity.
  - destruct (f e b) as [b' e1]. destruct (IH mem e1) as [e' H].
    exists e'. destruct (forEach f e1 xs) as [xs' e2]. right. exact H.
Qed.

Section Collisions.
Context {U C : Type}.
Variables (player : Object3D U) (speed : Q) (onCollision : C -> C).

Lemma visit_fst (e : Obstacles.Env C) b :
  fst (Obstacles.visit player speed onCollision e b)
  = fst (Obstacles.advance speed e b).
Proof.
  unfold Obstacles.visit. destruct (Obstacles.advance speed e b) as [b' e1].
  destruct (Obstacles.hits player b'); reflexivity.
Qed.

(** One visit calls [onCollision] once when the barrier, moved and
    possibly recycled, meets the player, and not at all otherwise; the
    rest of the environment is what moving alone makes it. *)
Lemma visit_snd (e : Obstacles.Env C) b :
  let e1 := snd (Obstacles.advance speed e b) in
  let e2 := snd (Obstacles.visit player speed onCollision e b) in
  Obstacles.runtime e2 = Obstacles.runtime e1 /\
  Obstacles.cursor e2 = Obstacles.cursor e1 /\
  Obstacles.log e2 = Obstacles.log e1 /\
  Obstacles.caller e2 =
    if Obstacles.hits player (fst (Obstacles.advance speed e b))
    then onCollision (Obstacles.caller e) else Obstacles.caller e.
Proof.
  unfold Obstacles.visit, Obstacles.advance.
  destruct (gt _ 10).
  - destruct (Obstacles.randomLane (Obstacles.runtime e)) as [lx rt'].
    cbn [fst snd]. destruct (Obstacles.hits _ _); cbn; auto.
  - cbn [fst snd]. destruct (Obstacles.hits _ _); cbn; auto.
Qed.

Lemma advance_caller (e : Obstacles.Env C) b :
  Obstacles.caller (snd (Obstacles.advance speed e b)) = Obstacles.caller e.
Proof.
  unfold Obstacles.advance. destruct (gt _ 10); [|reflexivity].
  destruct (Obstacles.randomLane (Obstacles.runtime e)); reflexivity.
Qed.

End Collisions.

(** Moving depends on the environment only through the runtime, the
    cursor and the log. *)
Lemma advance_ext {C C'} speed (e : Obstacles.Env C) (e' : Obstacles.Env C') b :
  Obstacles.runtime e = Obstacles.runtime e' ->
  Obstacles.cursor e = Obstacles.cursor e' ->
  Obstacles.log e = Obstacles.log e' ->
  fst (Obstacles.advance speed e b) = fst (Obstacles.advance speed e' b) /\
  Obstacles.runtime (snd (Obstacles.advance speed e b))
  = Obstacles.runtime (snd (Obstacles.advance speed e' b)) /\
  Obstacles.cursor (snd (Obstacles.advance speed e b))
  = Obstacles.cursor (snd (Obstacles.advance speed e' b)) /\
  Obstacles.log (snd (Obstacles.advance speed e b))
  = Obstacles.log (snd (Obstacles.advance speed e' b)).
Proof.
  intros er ec el. unfold Obstacles.advance. rewrite er, ec, el.
  destruct (gt _ 10); [|cbn; auto].
  destruct (Obstacles.randomLane (Obstacles.runtime e')); cbn; auto.
Qed.

Lemma forEach_visit_ext {U U' C C'} (pl : Object3D U) (pl' : Object3D U')
  speed (cb : C -> C) (cb' : C' -> C') (bs : list Obstacles.Barrier) :
  forall (e : Obstacles.Env C) (e' : Obstacles.Env C'),
  Obstacles.runtime e = Obstacles.runtime e' ->
  Obstacles.cursor e = Obstacles.cursor e' ->
  Obstacles.log e = Obstacles.log e' ->
  let r := forEach (Obstacles.visit pl speed cb) e bs in
  let r' := forEach (Obstacles.visit pl' speed cb') e' bs in
  fst r = fst r' /\
  Obstacles.runtime (snd r) = Obstacles.runtime (snd r') /\
  Obstacles.cursor (snd r) = Obstacles.cursor (snd r') /\
  Obstacles.log (snd r) = Obstacles.log (snd r').
Proof.
  induction bs as [|b bs IH]; intros e e' er ec el; cbn [forEach].
  - cbn. auto.
  - destruct (advance_ext speed e e' b er ec el) as (a1 & a2 & a3 & a4).
    pose proof (visit_fst pl speed cb e b) as f1.
    pose proof (visit_fst pl' speed cb' e' b) as f2.
    destruct (visit_snd pl speed cb e b) as (v1 & v2 & v3 & _).
    destruct (visit_snd pl' speed cb' e' b) as (w1 & w2 & w3 & _).
    destruct (Obstacles.visit pl speed cb e b) as [b1 e1].
    destruct (Obstacles.visit pl' speed cb' e' b) as [b1' e1'].
    cbn [fst snd] in *.
    specialize (IH e1 e1' ltac:(congruence) ltac:(congruence) ltac:(congruence)).
    destruct (forEach (Obstacles.visit pl speed cb) e1 bs) as [bs1 e2].
    destruct (forEach (Obstacles.visit pl' speed cb') e1' bs) as [bs1' e2'].
    cbn [fst snd] in *. destruct IH as (i1 & i2 & i3 & i4).
    repeat split; congruence.
Qed.

Lemma forEach_visit_caller {U C} (pl : Object3D U) speed (cb : C -> C)
  (bs : list Obstacles.Barrier) : forall e : Obstacles.Env C,
  let r := forEach (Obstacles.visit pl speed cb) e bs in
  Obstacles.caller (snd r)
  = Nat.iter (List.length (filter (Obstacles.hits pl) (fst r))) cb
             (Obstacles.caller e).
Proof.
  induction bs as [|b bs IH]; intros e; cbn [forEach]; [reflexivity|].
  pose proof (visit_fst pl speed cb e b) as f1.
  destruct (visit_snd pl speed cb e b) as (_ & _ & _ & v4).
  destruct (Obstacles.visit pl speed cb e b) as [b1 e1].
  cbn [fst snd] in *. specialize (IH e1).
  destruct (forEach (Obstacles.visit pl speed cb) e1 bs) as [bs1 e2].
  cbn [fst snd filter] in *. rewrite IH, v4, <- f1.
  destruct (Obstacles.hits pl b1); cbn [List.length].
  - symmetry. apply Nat.iter_succ_r.
  - reflexivity.
Qed.

Lemma intersectsBox_spec (a b : Box3) :
  intersectsBox a b = true <->
  x (min a) <= x (max b) /\ x (min b) <= x (max a) /\
  y (min a) <= y (max b) /\ y (min b) <= y (max a) /\
  z (min a) <= z (max b) /\ z (min b) <= z (max a).
Proof.
  unfold intersectsBox. rewrite !andb_true_iff, !Qle_bool_iff. tauto.
Qed.

(** The collision test, in coordinates. *)
Lemma hits_spec {U} (pl : Object3D U) (b : Obstacles.Barrier) :
  Obstacles.hits pl b = true <->
  x (position b) - 1.5 <= x (position pl) <= x (position b) + 1 /\
  y (position b) - 1.5 <= y (position pl) <= y (position b) + 0.5 /\
  z (position b) - 1.5 <= z (position pl) <= z (position b) + 1.2.
Proof.
  unfold Obstacles.hits. rewrite intersectsBox_spec.
  unfold Obstacles.playerBox, Obstacles.barrierBox. cbv zeta. cbn [min max x y z].
  split; intros H; repeat split; lra.
Qed.

Lemma iter_onCollision n c :
  GameCanvas.gameActiveRef (Nat.iter (S n) GameCanvas.onCollision c) = false /\
  active (GameCanvas.gameState (Nat.iter (S n) GameCanvas.onCollision c)) = false.
Proof. cbn [Nat.iter nat_rect]. split; reflexivity. Qed.

Lemma updateObstacles_hit {U C} (pl : Object3D U) gs (cb : C -> C) rt m s b :
  In b (Obstacles.barriers m) ->
  z (position b) + speed gs * 2 <= 10 ->
  Obstacles.hits pl
    (set_position b {| x := x (position b); y := y (position b);
                       z := z (position b) + speed gs * 2 |}) = true ->
  exists n, snd (Obstacles.updateObstacles (Some pl) gs cb rt m s)
            = Nat.iter (S n) cb s.
Proof.
  intros mem near hit. unfold Obstacles.updateObstacles.
  set (e0 := {| Obstacles.runtime := rt; Obstacles.cursor := Obstacles.barrierState m;
                Obstacles.log := Obstacles.spawned m; Obstacles.caller := s |}).
  pose proof (forEach_visit_caller pl (speed gs * 2) cb (Obstacles.barriers m) e0) as count.
  destruct (forEach_In (Obstacles.visit pl (speed gs * 2) cb) _ _ mem e0) as [e' among].
  rewrite visit_fst in among.
  assert (moved : fst (Obstacles.advance (speed gs * 2) e' b)
                  = set_position b {| x := x (position b); y := y (position b);
                                      z := z (position b) + speed gs * 2 |}).
  { unfold Obstacles.advance. cbn [z].
    replace (gt (z (position b) + speed gs * 2) 10) with false; [reflexivity|].
    symmetry. apply gt_false. exact near. }
  rewrite moved in among.
  destruct (forEach _ e0 _) as [bs e]. cbn [fst snd] in *.
  assert (inside : In (set_position b {| x := x (position b); y := y (position b);
                                         z := z (position b) + speed gs * 2 |})
                      (filter (Obstacles.hits pl) bs))
    by (apply filter_In; split; assumption).
  destruct (filter (Obstacles.hits pl) bs) as [|h t]; [destruct inside|].
  exists (List.length t). exact count.
Qed.

Section CoinsKeep.
Variables (playerBounds : Object3D Player.UserData -> Box3)
          (coinBounds : Coins.Coin -> Box3)
          (pl : Object3D Player.UserData) (delta : Q).

Lemma coin_visit_over e coin :
  over e ->
  over (snd (Coins.visit playerBounds coinBounds pl GameCanvas.updateUI delta e coin)).
Proof.
  intros [ref act]. unfold Coins.visit.
  destruct (gt _ 10).
  - destruct (Coins.farAhead (Coins.runtime e)) as [far rt'].
    destruct (intersectsBox _ _).
    + destruct (Coins.farAhead rt') as [far2 rt2]. split; cbn; assumption.
    + split; cbn; assumption.
  - destruct (intersectsBox _ _).
    + destruct (Coins.farAhead (Coins.runtime e)) as [far2 rt2]. split; cbn; assumption.
    + split; cbn; assumption.
Qed.
End CoinsKeep.

Lemma updateCoins_over (pb : Object3D Player.UserData -> Box3) cb pl delta rt cm gs c :
  GameCanvas.gameActiveRef c = false -> active gs = false ->
  let r := Coins.updateCoins pb cb pl gs GameCanvas.updateUI delta rt cm c in
  GameCanvas.gameActiveRef (snd r) = false /\ active (snd (fst r)) = false.
Proof.
  intros ref act. unfold Coins.updateCoins. destruct pl as [pl|]; [|split; assumption].
  pose proof (forEach_invariant
                (Coins.visit pb cb pl GameCanvas.updateUI delta) over
                (coin_visit_over pb cb pl delta) (Coins.coins cm)
                {| Coins.runtime := rt; Coins.gameState := gs;
                   Coins.sound := Coins.coinSound cm; Coins.caller := c |}
                (conj ref act)) as [K1 K2].
  destruct (forEach _ _ _) as [cs e]. cbn [fst snd] in *. split; assumption.
Qed.

Lemma animate_collision pb cb rendered delta c pm b :
  GameCanvas.gameActiveRef c = true ->
  GameCanvas.playerRef c = Some pm ->
  GameCanvas.isJumpingRef c = false ->
  isJumping (GameCanvas.gameState c) = false ->
  currentLane (GameCanvas.gameState c) = 0%Z ->
  x (position (Player.player pm)) == 0 ->
  y (position (Player.player pm)) == 0 ->
  z (position (Player.player pm)) == 0 ->
  In b (Obstacles.barriers (GameCanvas.obstacles c)) ->
  x (position b) == 1 -> y (position b) == 0.5 ->
  -1.2 <= z (position b) + speed (GameCanvas.gameState c) * 2 <= 1.5 ->
  GameCanvas.gameActiveRef (GameCanvas.animate pb cb rendered delta c) = false /\
  active (GameCanvas.gameState (GameCanvas.animate pb cb rendered delta c)) = false.
Proof.
  intros on ref ground still lane px py pz mem bx by_ bz.
  unfold GameCanvas.animate. rewrite on.
  unfold GameCanvas.updatePlayer. rewrite ref, ground. cbv zeta. rewrite ref.
  unfold Player.playerUpdate. rewrite still, lane. cbv zeta.
  fields. cbn [option_map].
  match goal with
  | |- context [Obstacles.updateObstacles (Some ?pl) ?gs ?f ?rt ?m ?s] =>
      destruct (updateObstacles_hit pl gs f rt m s b) as [n hit];
      [ exact mem | cbn [speed]; lra | apply hits_spec; fields; change (inject_Z 0) with 0; repeat split; lra | ];
      destruct (Obstacles.updateObstacles (Some pl) gs f rt m s) as [[rt1 om1] c1]
  end.
  cbn [snd] in hit. subst c1.
  match goal with
  | |- context [Nat.iter (S n) GameCanvas.onCollision ?c2] =>
      destruct (iter_onCollision n c2) as [K1 K2];
      set (c3 := Nat.iter (S n) GameCanvas.onCollision c2) in *
  end.
  fields.
  match goal with
  | |- context [Coins.updateCoins pb cb ?pl ?gs ?ui delta ?rt ?cm ?c4] =>
      pose proof (updateCoins_over pb cb pl delta rt cm gs c4) as K;
      destruct (Coins.updateCoins pb cb pl gs ui delta rt cm c4) as [[[rt5 cm5] g5] c5]
  end.
  cbn [fst snd] in K. fields. apply K.
  - destruct c3; exact K1.
  - exact K2.
Qed.

Lemma updateObstacles_ext {U U' C C'} (pl : Object3D U) (pl' : Object3D U')
  gs (cb : C -> C) (cb' : C' -> C') rt m s s' :
  fst (Obstacles.updateObstacles (Some pl') gs cb' rt m s')
  = fst (Obstacles.updateObstacles (Some pl) gs cb rt m s).
Proof.
  unfold Obstacles.updateObstacles.
  destruct (forEach_visit_ext pl' pl (speed gs * 2) cb' cb (Obstacles.barriers m)
              {| Obstacles.runtime := rt; Obstacles.cursor := Obstacles.barrierState m;
                 Obstacles.log := Obstacles.spawned m; Obstacles.caller := s' |}
              {| Obstacles.runtime := rt; Obstacles.cursor := Obstacles.barrierState m;
                 Obstacles.log := Obstacles.spawned m; Obstacles.caller := s |}
              eq_refl eq_refl eq_refl) as (e1 & e2 & e3 & e4).
  destruct (forEach (Obstacles.visit pl' _ cb') _ _) as [bs' e'].
  destruct (forEach (Obstacles.visit pl _ cb) _ _) as [bs e].
  cbn [fst snd] in *. congruence.
Qed.

(** C3.  One call of [updateObstacles] invokes [onCollision] once for each
    barrier that, after its move, meets the player: [k] such barriers give
    [k] invocations, and a single visit gives one or none.  The collision
    test leaves the pool alone: the array keeps its length, and array,
    cursor and runtime come out the same for any other player and callback.
    And when player and barrier share lane 0 with the barrier's Z within
    reach after the move, the frame ends with the loop's flag down and
    [active] false. *)
Theorem collisions_fire_per_barrier :
  (forall (U C : Type) (pl : Object3D U) gs (onCollision : C -> C) rt m s,
     let r := Obstacles.updateObstacles (Some pl) gs onCollision rt m s in
     snd r = Nat.iter
               (List.length (filter (Obstacles.hits pl)
                                    (Obstacles.barriers (snd (fst r)))))
               onCollision s /\
     List.length (Obstacles.barriers (snd (fst r)))
     = List.length (Obstacles.barriers m) /\
     forall (U' C' : Type) (pl' : Object3D U') (cb' : C' -> C') s',
       fst (Obstacles.updateObstacles (Some pl') gs cb' rt m s') = fst r) /\
  (forall (U C : Type) (pl : Object3D U) speed (onCollision : C -> C)
          (e : Obstacles.Env C) b,
     let r := Obstacles.visit pl speed onCollision e b in
     fst r = fst (Obstacles.advance speed e b) /\
     Obstacles.caller (snd r)
     = if Obstacles.hits pl (fst r)
       then onCollision (Obstacles.caller e) else Obstacles.caller e) /\
  (forall pb cb rendered delta c pm b,
     GameCanvas.gameActiveRef c = true ->
     GameCanvas.playerRef c = Some pm ->
     GameCanvas.isJumpingRef c = false ->
     isJumping (GameCanvas.gameState c) = false ->
     currentLane (GameCanvas.gameState c) = 0%Z ->
     x (position (Player.player pm)) == 0 ->
     y (position (Player.player pm)) == 0 ->
     z (position (Player.player pm)) == 0 ->
     In b (Obstacles.barriers (GameCanvas.obstacles c)) ->
     x (position b) == 1 -> y (position b) == 0.5 ->
     -1.2 <= z (position b) + speed (GameCanvas.gameState c) * 2 <= 1.5 ->
     GameCanvas.gameActiveRef (GameCanvas.animate pb cb rendered delta c) = false /\
     active (GameCanvas.gameState (GameCanvas.animate pb cb rendered delta c))
     = false).
Proof.
  split; [|split].
  - intros U C pl gs onCollision rt m s r. split; [|split].
    + subst r. unfold Obstacles.updateObstacles.
      pose proof (forEach_visit_caller pl (speed gs * 2) onCollision
                    (Obstacles.barriers m)
                    {| Obstacles.runtime := rt;
                       Obstacles.cursor := Obstacles.barrierState m;
                       Obstacles.log := Obstacles.spawned m;
                       Obstacles.caller := s |}) as K.
      destruct (forEach _ _ _) as [bs e]. exact K.
    + subst r. unfold Obstacles.updateObstacles.
      pose proof (forEach_length (Obstacles.visit pl (speed gs * 2) onCollision)
                    (Obstacles.barriers m)
                    {| Obstacles.runtime := rt;
                       Obstacles.cursor := Obstacles.barrierState m;
                       Obstacles.log := Obstacles.spawned m;
                       Obstacles.caller := s |}) as K.
      destruct (forEach _ _ _) as [bs e]. exact K.
    + intros U' C' pl' cb' s'. apply updateObstacles_ext.
  - intros U C pl speed onCollision e b r. subst r.
    rewrite visit_fst. split; [reflexivity|].
    apply (visit_snd pl speed onCollision e b).
  - intros. eapply animate_collision; eassumption.
Qed.

Lemma collisions_fire_per_barrier_witness :
  GameCanvas.gameActiveRef closingIn = true /\
  GameCanvas.gameActiveRef
    (GameCanvas.animate bodyBox coinBox defaultGameState (1 # 60) closingIn)
  = false /\
  active (GameCanvas.gameState
            (GameCanvas.animate bodyBox coinBox defaultGameState (1 # 60)
               closingIn)) = false.
Proof.
  split; [vm_compute; reflexivity|].
  destruct collisions_fire_per_barrier as (_ & _ & scenario).
  refine (scenario bodyBox coinBox defaultGameState (1 # 60) closingIn
            (match GameCanvas.playerRef closingIn with
             | Some pm => pm
             | None => snd (Player.initPlayer clips quiet)
             end)
            (hd atOrigin (Obstacles.barriers (GameCanvas.obstacles closingIn)))
            _ _ _ _ _ _ _ _ _ _ _ _).
  - vm_compute; reflexivity.
  - vm_compute; reflexivity.
  - vm_compute; reflexivity.
  - vm_compute; reflexivity.
  - vm_compute; reflexivity.
  - vm_compute; reflexivity.
  - vm_compute; reflexivity.
  - vm_compute; reflexivity.
  - vm_compute. left. reflexivity.
  - vm_compute; reflexivity.
  - vm_compute; reflexivity.
  - split; vm_compute; intros H; discriminate H.
Defined.

(** ** The no-player guard *)

(** C9.  Called before the player exists, [updateObstacles] leaves the
    pool, the cursor, the placement log and the caller's state as they were
    and calls nothing; all it does is write one warning to the console.
    [updateCoins] returns every one of its inputs unchanged, the game state
    included.  A whole frame without a player changes nothing. *)
Theorem update_without_player_is_noop :
  (forall (U C : Type) gs (onCollision : C -> C) rt m s,
     let r := Obstacles.updateObstacles (U:=U) None gs onCollision rt m s in
     snd (fst r) = m /\ snd r = s /\
     random (fst (fst r)) = random rt /\
     console (fst (fst r))
     = console rt
       ++ [(Warn, "Player is not initialized. Skipping obstacles update."%string)]) /\
  (forall (U C : Type) (pb : Object3D U -> Box3) cb gs (updateUI : C -> C)
          delta rt m s,
     Coins.updateCoins pb cb None gs updateUI delta rt m s = (rt, m, gs, s)) /\
  (forall pb cb rendered delta c,
     GameCanvas.playerRef c = None ->
     GameCanvas.animate pb cb rendered delta c = c).
Proof.
  split; [|split].
  - intros. subst r. cbn. auto.
  - reflexivity.
  - intros pb cb rendered delta c none. destruct c as [? live ? ? ? ? ? ref ? ? ? ? ? ? ?].
    cbn in none. subst ref. destruct live; reflexivity.
Qed.

(** ** Lane offsets *)

Lemma forEach_Forall {A E} (f : E -> A -> A * E) (P : A -> Prop) :
  (forall e a, P a -> P (fst (f e a))) ->
  forall xs e, Forall P xs -> Forall P (fst (forEach f e xs)).
Proof.
  intros step xs. induction xs as [|a xs IH]; intros e all; cbn [forEach].
  - constructor.
  - inversion all as [|? ? Pa Pxs]; subst.
    specialize (step e a Pa). destruct (f e a) as [a' e1]. cbn [fst] in step.
    specialize (IH e1 Pxs). destruct (forEach f e1 xs) as [xs' e2].
    constructor; assumption.
Qed.

Lemma visit_wellPlaced {U C} (pl : Object3D U) speed (cb : C -> C)
  (e : Obstacles.Env C) b :
  wellPlaced b -> wellPlaced (fst (Obstacles.visit pl speed cb e b)).
Proof.
  intros [lane height]. rewrite visit_fst. unfold Obstacles.advance. cbv zeta.
  destruct (gt _ 10).
  - pose proof (randomLane_in_offsets (Obstacles.runtime e)) as H.
    destruct (Obstacles.randomLane (Obstacles.runtime e)) as [lx rt'].
    split; [exact H | exact height].
  - split; [exact lane | exact height].
Qed.

Lemma updateObstacles_wellPlaced {U C} (pl : option (Object3D U)) gs
  (cb : C -> C) rt m s :
  Forall wellPlaced (Obstacles.barriers m) ->
  Forall wellPlaced
    (Obstacles.barriers (snd (fst (Obstacles.updateObstacles pl gs cb rt m s)))).
Proof.
  intros H. unfold Obstacles.updateObstacles. destruct pl as [pl|]; [|exact H].
  pose proof (forEach_Forall (Obstacles.visit pl (speed gs * 2) cb) wellPlaced
                (visit_wellPlaced pl _ cb) (Obstacles.barriers m)
                {| Obstacles.runtime := rt; Obstacles.cursor := Obstacles.barrierState m;
                   Obstacles.log := Obstacles.spawned m; Obstacles.caller := s |} H) as K.
  destruct (forEach _ _ _) as [bs e]. exact K.
Qed.

Lemma obstacleRun_wellPlaced {U C} k rt (cb : C -> C)
  (calls : list (option (Object3D U) * GameState)) s :
  Forall wellPlaced (Obstacles.barriers (obstacleRun k rt cb calls s)).
Proof.
  unfold obstacleRun.
  assert (loaded : Forall wellPlaced
            (Obstacles.barriers (snd (loadBarriers k rt Obstacles.initialModule)))).
  { induction k as [|k IH]; cbn [loadBarriers]; [constructor|].
    destruct (loadBarriers k rt Obstacles.initialModule) as [rt' m']. cbn [snd] in IH.
    unfold Obstacles.barrierLoaded.
    pose proof (randomLane_in_offsets rt') as H.
    destruct (Obstacles.randomLane rt') as [lx rt'']. cbn [snd Obstacles.barriers].
    apply Forall_app. split; [exact IH|]. constructor; [|constructor].
    split; [exact H | reflexivity]. }
  destruct (loadBarriers k rt Obstacles.initialModule) as [rt1 m1]. cbn [snd] in loaded.
  revert rt1 m1 s loaded. induction calls as [|[pl gs] rest IH]; intros rt1 m1 s loaded.
  - exact loaded.
  - cbn [obstacleFrames].
    pose proof (updateObstacles_wellPlaced pl gs cb rt1 m1 s loaded) as K.
    destruct (Obstacles.updateObstacles pl gs cb rt1 m1 s) as [[rt' m'] s'].
    apply IH, K.
Qed.

(** C10.  The barrier lane slots are the player's lane targets shifted by
    one: for a lane [l] in -1..1, a player standing on the ground at
    [l * laneDistance] and a barrier in slot [l + 1] of [LANE_OFFSETS], at
    barrier height and at the player's Z, are one unit apart in X and their
    boxes intersect.  (Every barrier of the pool is in a lane slot and at
    that height: [obstacleRun_wellPlaced].) *)
Theorem same_lane_collisions_detectable {U : Type} (pl : Object3D U)
  (b : Obstacles.Barrier) (l : Z) :
  (-1 <= l <= 1)%Z ->
  x (position pl) == inject_Z l * laneDistance defaultGameState ->
  y (position pl) == 0 ->
  index Obstacles.LANE_OFFSETS (l + 1) = Some (x (position b)) ->
  y (position b) == 0.5 ->
  z (position b) == z (position pl) ->
  x (position b) == x (position pl) + 1 /\
  Obstacles.hits pl b = true.
Proof.
  intros range px py slot_ by_ bz.
  assert (bx : x (position b) == x (position pl) + 1).
  { rewrite px. cbn [laneDistance defaultGameState].
    assert (l = -1 \/ l = 0 \/ l = 1)%Z as [-> | [-> | ->]] by lia;
      cbn in slot_; injection slot_ as <-; reflexivity. }
  split; [exact bx|]. apply hits_spec. repeat split; lra.
Qed.

Lemma same_lane_collisions_detectable_witness :
  Obstacles.hits atOrigin
    {| position := {| x := 1; y := 0.5; z := 0 |}; visible := true;
       userData := tt |} = true.
Proof.
  apply (same_lane_collisions_detectable atOrigin
           {| position := {| x := 1; y := 0.5; z := 0 |}; visible := true;
              userData := tt |} 0).
  - lia.
  - reflexivity.
  - reflexivity.
  - reflexivity.
  - reflexivity.
  - reflexivity.
Defined.

(** ** Coins *)

Lemma loadCoins_length n clip rt m :
  List.length (Coins.coins (snd (loadCoins n clip rt m)))
  = (List.length (Coins.coins m) + n)%nat.
Proof.
  induction n as [|n IH]; simpl; [lia|].
  destruct (loadCoins n clip rt m) as [rt' m']. simpl in IH.
  unfold Coins.coinLoaded. destruct (Coins.randomLaneX rt') as [lx rt1].
  destruct (draw rt1) as [u rt2]. cbn. rewrite length_app, IH. simpl. lia.
Qed.

Lemma updateCoins_length {U C} (pb : Object3D U -> Box3) cb pl gs
  (ui : C -> C) delta rt m s :
  List.length (Coins.coins (snd (fst (fst (Coins.updateCoins pb cb pl gs ui delta rt m s)))))
  = List.length (Coins.coins m).
Proof.
  unfold Coins.updateCoins. destruct pl as [pl|]; [|reflexivity].
  pose proof (forEach_length (Coins.visit pb cb pl ui delta) (Coins.coins m)
                {| Coins.runtime := rt; Coins.gameState := gs;
                   Coins.sound := Coins.coinSound m; Coins.caller := s |}) as K.
  destruct (forEach _ _ _) as [cs e]. exact K.
Qed.

Lemma coinFrames_length {U C} (pb : Object3D U -> Box3) cb (ui : C -> C) calls :
  forall rt m gs s,
  List.length (Coins.coins (snd (fst (fst (coinFrames pb cb ui calls rt m gs s)))))
  = List.length (Coins.coins m).
Proof.
  induction calls as [|[pl delta] rest IH]; intros rt m gs s; simpl; [reflexivity|].
  pose proof (updateCoins_length pb cb pl gs ui delta rt m s) as K.
  destruct (Coins.updateCoins pb cb pl gs ui delta rt m s) as [[[rt' m'] gs'] s'].
  cbn [fst snd] in K. rewrite IH. exact K.
Qed.

(** C7.  The pool [initCoins] builds from [maxCoins] loaded models has
    [maxCoins] coins, and still has after any sequence of [updateCoins]
    calls, whatever is collected in them; a single call never changes the
    length of the pool it is given. *)
Theorem coin_pool_size_invariant {U C : Type} (pb : Object3D U -> Box3)
  (cb : Coins.Coin -> Box3) (updateUI : C -> C) (maxCoins : nat)
  (clip : nat -> bool) (rt : Runtime)
  (calls : list (option (Object3D U) * Q)) (gs : GameState) (s : C) :
  let pool := loadCoins maxCoins clip rt Coins.initialModule in
  let after := coinFrames pb cb updateUI calls (fst pool) (snd pool) gs s in
  List.length (Coins.coins (snd pool)) = maxCoins /\
  List.length (Coins.coins (snd (fst (fst after)))) = maxCoins /\
  (forall pl gs' delta rt' m s',
     List.length
       (Coins.coins
          (snd (fst (fst (Coins.updateCoins pb cb pl gs' updateUI delta rt' m s')))))
     = List.length (Coins.coins m)).
Proof.
  intros pool after.
  assert (E : List.length (Coins.coins (snd pool)) = maxCoins)
    by (unfold pool; rewrite loadCoins_length; reflexivity).
  split; [exact E|]. split.
  - unfold after. rewrite coinFrames_length. exact E.
  - intros. apply updateCoins_length.
Qed.

(** ** Lane movement *)

Lemma power_succ (a : Q) (n : nat) :
  ~ a == 0 -> a ^ Z.of_nat (S n) == a ^ Z.of_nat n * a.
Proof.
  intros nz. rewrite Nat2Z.inj_succ, <- Z.add_1_r, Qpower_plus by exact nz.
  reflexivity.
Qed.

(** One call of [playerUpdate] moves [x] a tenth of the way to the target
    and leaves lane and lane distance as they were. *)
Lemma playerUpdate_lane delta gs rt m :
  let r := Player.playerUpdate delta gs rt m in
  x (position (Player.player (snd (fst r))))
  = x (position (Player.player m))
    + (inject_Z (currentLane gs) * laneDistance gs
       - x (position (Player.player m))) * 0.1 /\
  currentLane (snd r) = currentLane gs /\
  laneDistance (snd r) = laneDistance gs.
Proof.
  unfold Player.playerUpdate. cbv zeta.
  destruct (Game.isJumping gs); [|cbn; auto].
  destruct (le _ 0); [|cbn; auto].
  unfold Player.playAnimationFunc.
  destruct (negb _); cbn; auto.
Qed.


(** ** The lane index *)

Lemma updateObstacles_caller {U C} (pl : Object3D U) gs (cb : C -> C) rt m s :
  let r := Obstacles.updateObstacles (Some pl) gs cb rt m s in
  snd r = Nat.iter
            (List.length (filter (Obstacles.hits pl)
                                 (Obstacles.barriers (snd (fst r)))))
            cb s.
Proof.
  unfold Obstacles.updateObstacles.
  pose proof (forEach_visit_caller pl (speed gs * 2) cb (Obstacles.barriers m)
                {| Obstacles.runtime := rt;
                   Obstacles.cursor := Obstacles.barrierState m;
                   Obstacles.log := Obstacles.spawned m;
                   Obstacles.caller := s |}) as K.
  destruct (forEach _ _ _) as [bs e]. exact K.
Qed.

Lemma playAnimation_gameState name c :
  GameCanvas.gameState (GameCanvas.playAnimation name c) = GameCanvas.gameState c.
Proof.
  unfold GameCanvas.playAnimation. destruct (GameCanvas.playerRef c); [|reflexivity].
  destruct (Player.playAnimationFunc _ _ _). reflexivity.
Qed.

Lemma processQueue_gameState c :
  GameCanvas.gameState (GameCanvas.processQueue c) = GameCanvas.gameState c.
Proof.
  unfold GameCanvas.processQueue.
  destruct (_ || _); [reflexivity|].
  destruct (GameCanvas.animationQueueRef c); [reflexivity|].
  cbv zeta. unfold GameCanvas.setTimeout. fields.
  rewrite playAnimation_gameState. reflexivity.
Qed.

Lemma playAndResetAnimation_gameState name ms cb c :
  GameCanvas.gameState (GameCanvas.playAndResetAnimation name ms cb c)
  = GameCanvas.gameState c.
Proof.
  unfold GameCanvas.playAndResetAnimation. rewrite processQueue_gameState.
  reflexivity.
Qed.

Lemma jump_gameState c :
  GameCanvas.gameState (GameCanvas.jump c) = GameCanvas.gameState c.
Proof.
  unfold GameCanvas.jump. destruct (_ && _); [|reflexivity].
  cbv zeta. fields. rewrite playAndResetAnimation_gameState. reflexivity.
Qed.

Lemma slide_lane c :
  currentLane (GameCanvas.gameState (GameCanvas.slide c))
  = currentLane (GameCanvas.gameState c).
Proof.
  unfold GameCanvas.slide. destruct (_ && _); [|reflexivity].
  cbv zeta. unfold GameCanvas.setGameState. fields.
  rewrite playAndResetAnimation_gameState. reflexivity.
Qed.

Lemma completion_lane t c :
  currentLane (GameCanvas.gameState (GameCanvas.completion t c))
  = currentLane (GameCanvas.gameState c).
Proof.
  unfold GameCanvas.completion. cbv zeta. rewrite processQueue_gameState. fields.
  assert (E : forall c', currentLane (GameCanvas.gameState
               (if GameCanvas.captured t then GameCanvas.playAnimation "run" c' else c'))
             = currentLane (GameCanvas.gameState c')).
  { intros c'. destruct (GameCanvas.captured t); [|reflexivity].
    rewrite playAnimation_gameState. reflexivity. }
  rewrite E. destruct (GameCanvas.onComplete (GameCanvas.request t)) as [[]|]; reflexivity.
Qed.

Lemma timerFires_lane c :
  currentLane (GameCanvas.gameState (GameCanvas.timerFires c))
  = currentLane (GameCanvas.gameState c).
Proof.
  unfold GameCanvas.timerFires. destruct (GameCanvas.timers c) as [|t rest]; [reflexivity|].
  destruct (_ <=? _)%Z; [|reflexivity]. rewrite completion_lane. reflexivity.
Qed.

Lemma laneLeft_spec prev :
  currentLane (GameCanvas.laneLeft prev) = Z.max (currentLane prev - 1) (-1).
Proof. reflexivity. Qed.

Lemma laneRight_spec prev :
  currentLane (GameCanvas.laneRight prev) = Z.min (currentLane prev + 1) 1.
Proof. reflexivity. Qed.

Lemma updatePlayer_gameState rendered delta c :
  GameCanvas.gameState (GameCanvas.updatePlayer rendered delta c)
  = GameCanvas.gameState c.
Proof.
  unfold GameCanvas.updatePlayer. destruct (GameCanvas.playerRef c); [|reflexivity].
  destruct (GameCanvas.isJumpingRef c); [|reflexivity]. cbv zeta.
  destruct (le _ 0); [|reflexivity]. rewrite playAnimation_gameState. reflexivity.
Qed.

Lemma iter_onCollision_lane n c :
  currentLane (GameCanvas.gameState (Nat.iter n GameCanvas.onCollision c))
  = currentLane (GameCanvas.gameState c).
Proof.
  induction n as [|n IH]; [reflexivity|]. cbn [Nat.iter nat_rect]. exact IH.
Qed.

Lemma coin_visit_lane {U} (pb : Object3D U -> Box3) cb pl delta l
  (e : Coins.Env GameCanvas.Component) coin :
  currentLane (Coins.gameState e) = l ->
  currentLane (Coins.gameState
                 (snd (Coins.visit pb cb pl GameCanvas.updateUI delta e coin))) = l.
Proof.
  intros H. unfold Coins.visit. cbv zeta.
  destruct (gt _ 10).
  - destruct (Coins.farAhead (Coins.runtime e)) as [far rt'].
    destruct (intersectsBox _ _); [destruct (Coins.farAhead rt')|]; exact H.
  - destruct (intersectsBox _ _); [destruct (Coins.farAhead (Coins.runtime e))|]; exact H.
Qed.

Lemma updateCoins_lane {U} (pb : Object3D U -> Box3) cb pl gs delta rt cm c :
  currentLane (snd (fst (Coins.updateCoins pb cb pl gs GameCanvas.updateUI delta rt cm c)))
  = currentLane gs.
Proof.
  unfold Coins.updateCoins. destruct pl as [pl|]; [|reflexivity].
  pose proof (forEach_invariant (Coins.visit pb cb pl GameCanvas.updateUI delta)
                (fun e => currentLane (Coins.gameState e) = currentLane gs)
                (coin_visit_lane pb cb pl delta (currentLane gs))
                (Coins.coins cm)
                {| Coins.runtime := rt; Coins.gameState := gs;
                   Coins.sound := Coins.coinSound cm; Coins.caller := c |}
                eq_refl) as K.
  destruct (forEach _ _ _) as [cs e]. exact K.
Qed.

Lemma animate_lane pb cb rendered delta c :
  currentLane (GameCanvas.gameState (GameCanvas.animate pb cb rendered delta c))
  = currentLane (GameCanvas.gameState c).
Proof.
  unfold GameCanvas.animate. destruct (GameCanvas.gameActiveRef c); [|reflexivity].
  cbv zeta.
  pose proof (updatePlayer_gameState rendered delta c) as E1.
  set (c1 := GameCanvas.updatePlayer rendered delta c) in *.
  set (c2 := match GameCanvas.playerRef c1 with
             | Some pm => _ | None => c1 end).
  assert (E2 : currentLane (GameCanvas.gameState c2)
               = currentLane (GameCanvas.gameState c)).
  { subst c2. destruct (GameCanvas.playerRef c1) as [pm|]; [|rewrite E1; reflexivity].
    destruct (playerUpdate_lane delta (GameCanvas.gameState c1) (GameCanvas.runtime c1) pm)
      as (_ & el & _).
    destruct (Player.playerUpdate _ _ _ pm) as [[rt pm'] g]. cbn [snd] in el.
    fields. rewrite el, E1. reflexivity. }
  clearbody c2.
  set (c3 := match GameCanvas.playerRef c2 with
             | Some pm => _ | None => c2 end).
  assert (E3 : currentLane (GameCanvas.gameState c3)
               = currentLane (GameCanvas.gameState c)).
  { subst c3. destruct (GameCanvas.playerRef c2) as [pm|]; [|exact E2].
    pose proof (updateObstacles_caller (Player.player pm) (GameCanvas.gameState c2)
                GameCanvas.onCollision (GameCanvas.runtime c2)
                (GameCanvas.obstacles c2) c2) as K.
    destruct (Obstacles.updateObstacles _ _ _ _ _ c2) as [[rt om] c'].
    cbn [fst snd] in K. fields. rewrite K, iter_onCollision_lane. exact E2. }
  clearbody c3.
  pose proof (updateCoins_lane pb cb (option_map Player.player (GameCanvas.playerRef c3))
                (GameCanvas.gameState c3) delta (GameCanvas.runtime c3)
                (GameCanvas.coins c3) c3) as K.
  destruct (Coins.updateCoins _ _ _ _ _ _ _ _ c3) as [[[rt cm] g] c'].
  cbn [fst snd] in K. fields. rewrite K. exact E3.
Qed.

Ltac clamp :=
  unfold GameCanvas.setGameState, GameCanvas.laneLeft, GameCanvas.laneRight,
         Math_max, Math_min, set_currentLane;
  fields; cbn [currentLane]; lia.

Lemma step_lane pb cb c ev :
  (-1 <= currentLane (GameCanvas.gameState c) <= 1)%Z ->
  (-1 <= currentLane (GameCanvas.gameState (GameCanvas.step pb cb c ev)) <= 1)%Z.
Proof.
  intros H. destruct ev; cbn [GameCanvas.step].
  - unfold GameCanvas.handleKeyDown.
    destruct (negb _); [exact H|].
    destruct (String.eqb key "ArrowLeft"); [clamp|].
    destruct (String.eqb key "ArrowRight"); [clamp|].
    destruct (String.eqb key "ArrowUp"); [rewrite jump_gameState; exact H|].
    destruct (String.eqb key "ArrowDown"); [rewrite slide_lane; exact H|].
    exact H.
  - unfold GameCanvas.onDrag. cbv zeta.
    set (c1 := if _ && _ then _ else c).
    assert (H1 : (-1 <= currentLane (GameCanvas.gameState c1) <= 1)%Z).
    { subst c1. destruct (_ && _); [|exact H].
      destruct (gt dx 0); [clamp|]. destruct (lt dx 0); [clamp|]. exact H. }
    clearbody c1. destruct (_ && _); [|exact H1].
    destruct (lt dy 0); [rewrite jump_gameState; exact H1|].
    destruct (gt dy 0); [rewrite slide_lane; exact H1|]. exact H1.
  - rewrite animate_lane. exact H.
  - exact H.
  - rewrite timerFires_lane. exact H.
  - destruct (Obstacles.barrierLoaded _ _). exact H.
  - destruct (Obstacles.barrierFailed _ _). exact H.
  - destruct (Coins.coinLoaded _ _ _ _). exact H.
  - destruct (Coins.coinFailed _ _). exact H.
  - unfold GameCanvas.restartGame. cbv zeta. fields.
    destruct (GameCanvas.playerRef _).
    + fields. rewrite playAnimation_gameState. cbn. lia.
    + cbn. lia.
  - cbn. lia.
Qed.

Lemma run_lane pb cb evs : forall c,
  (-1 <= currentLane (GameCanvas.gameState c) <= 1)%Z ->
  (-1 <= currentLane (GameCanvas.gameState (GameCanvas.run pb cb evs c)) <= 1)%Z.
Proof.
  induction evs as [|ev evs IH]; intros c H; [exact H|].
  cbn [GameCanvas.run fold_left]. apply IH, step_lane, H.
Qed.

Lemma mounted_lane clips r :
  currentLane (GameCanvas.gameState (GameCanvas.mounted clips r)) = 0%Z.
Proof.
  unfold GameCanvas.mounted. cbv zeta.
  destruct clips as [cl|]; [destruct (Player.initPlayer _ _)|]; reflexivity.
Qed.

(** C6.  Whatever happens to a mounted component (keys, swipes, frames,
    timers, loads, restart, exit), [currentLane] stays within -1..1.  A left
    intent, from the keyboard or from a horizontal swipe, replaces it by
    [max (currentLane - 1) (-1)], a right intent by
    [min (currentLane + 1) 1]. *)
Theorem currentLane_stays_in_range pb cb (loaded : option (list string))
  (r : RandomSource) (evs : list GameCanvas.Event) :
  (-1 <= currentLane (GameCanvas.gameState
                        (GameCanvas.run pb cb evs (GameCanvas.mounted loaded r)))
   <= 1)%Z /\
  (forall prev,
     currentLane (GameCanvas.laneLeft prev) = Z.max (currentLane prev - 1) (-1) /\
     currentLane (GameCanvas.laneRight prev) = Z.min (currentLane prev + 1) 1) /\
  (forall rendered c,
     active rendered = true ->
     GameCanvas.gameState (GameCanvas.handleKeyDown rendered "ArrowLeft" c)
     = GameCanvas.laneLeft (GameCanvas.gameState c) /\
     GameCanvas.gameState (GameCanvas.handleKeyDown rendered "ArrowRight" c)
     = GameCanvas.laneRight (GameCanvas.gameState c)) /\
  (forall mx my dx dy c,
     10 < Qabs mx -> Qabs my < Qabs mx ->
     (0 < dx ->
      GameCanvas.gameState (GameCanvas.onDrag mx my dx dy c)
      = GameCanvas.laneRight (GameCanvas.gameState c)) /\
     (dx < 0 ->
      GameCanvas.gameState (GameCanvas.onDrag mx my dx dy c)
      = GameCanvas.laneLeft (GameCanvas.gameState c))).
Proof.
  split; [|split; [|split]].
  - apply run_lane. rewrite mounted_lane. lia.
  - intros prev. split; reflexivity.
  - intros rendered c on. unfold GameCanvas.handleKeyDown. rewrite on.
    split; reflexivity.
  - intros mx my dx dy c far wide.
    assert (H1 : gt (Math_abs mx) 10 && gt (Math_abs mx) (Math_abs my) = true).
    { apply andb_true_iff. split; apply gt_true; assumption. }
    assert (H2 : gt (Math_abs my) 10 && gt (Math_abs my) (Math_abs mx) = false).
    { apply andb_false_iff. right. apply gt_false. unfold Math_abs. lra. }
    unfold GameCanvas.onDrag. cbv zeta. rewrite H1, H2. split; intros sign.
    + replace (gt dx 0) with true by (symmetry; apply gt_true; exact sign).
      reflexivity.
    + replace (gt dx 0) with false by (symmetry; apply gt_false; lra).
      replace (lt dx 0) with true; [reflexivity|].
      symmetry. unfold lt. apply negb_true_iff. apply le_false. exact sign.
Qed.

(** ** The animation sequencer *)

Lemma transcript_app a b : transcript (a ++ b) = transcript a ++ transcript b.
Proof. unfold transcript. apply flat_map_app. Qed.

Lemma playAnimation_known name c pm :
  GameCanvas.playerRef c = Some pm ->
  existsb (String.eqb name) (Player.animations pm) = true ->
  GameCanvas.playAnimation name c
  = GameCanvas.set_playerRef
      (Some {| Player.player := Player.player pm;
               Player.animations := Player.animations pm;
               Player.currentAnimation := Some name;
               Player.mixer := Player.mixer pm;
               Player.played := Player.played pm ++ [name] |})
      (GameCanvas.set_runtime (GameCanvas.runtime c) c).
Proof.
  intros ref clip. unfold GameCanvas.playAnimation. rewrite ref.
  unfold Player.playAnimationFunc, Player.has_clip. rewrite clip. reflexivity.
Qed.

Section Sequencer.
Variables (start clipNames : list string).
Hypothesis run_clip : existsb (String.eqb "run") clipNames = true.

Lemma request_step hist c name ms cb :
  existsb (String.eqb name) clipNames = true ->
  Sequencing start clipNames hist c ->
  Sequencing start clipNames
    (hist ++ [{| GameCanvas.animationName := name; GameCanvas.duration := ms;
                 GameCanvas.onComplete := cb |}])
    (GameCanvas.playAndResetAnimation name ms cb c).
Proof.
  intros clip (pm & done & ref & names & [idle | busy]).
  - destruct idle as (flag & tm & qu & -> & log & cur).
    unfold GameCanvas.playAndResetAnimation, GameCanvas.processQueue.
    fields. rewrite flag, qu. cbn [app List.length Nat.eqb orb].
    cbv zeta. fields. rewrite ref.
    rewrite (playAnimation_known name _ pm); [|fields; exact ref|rewrite names; exact clip].
    unfold GameCanvas.setTimeout. fields. rewrite tm.
    eexists. exists done. split; [reflexivity|]. split; [exact names|].
    right. eexists. eexists. fields. cbn [GameCanvas.enqueueTimer].
    split; [reflexivity|]. split; [reflexivity|]. split; [reflexivity|].
    cbn [GameCanvas.animationName]. split; [|reflexivity].
    rewrite log, <- app_assoc. reflexivity.
  - destruct busy as (r & d & flag & tm & split_ & log & cur).
    unfold GameCanvas.playAndResetAnimation, GameCanvas.processQueue.
    fields. rewrite flag. cbn [orb].
    exists pm, done. split; [exact ref|]. split; [exact names|].
    right. exists r, d. fields.
    split; [exact flag|]. split; [exact tm|]. split; [|split; assumption].
    rewrite split_, <- app_assoc. reflexivity.
Qed.

Lemma wait_step hist c ms :
  Sequencing start clipNames hist c ->
  Sequencing start clipNames hist (GameCanvas.elapse ms c).
Proof.
  intros (pm & done & ref & names & H).
  exists pm, done. unfold GameCanvas.elapse. fields. auto.
Qed.

Lemma runCallback_sequencer cb c :
  GameCanvas.playerRef (GameCanvas.runCallback cb c) = GameCanvas.playerRef c /\
  GameCanvas.animationQueueRef (GameCanvas.runCallback cb c)
  = GameCanvas.animationQueueRef c /\
  GameCanvas.timers (GameCanvas.runCallback cb c) = GameCanvas.timers c /\
  GameCanvas.now (GameCanvas.runCallback cb c) = GameCanvas.now c.
Proof. destruct cb. cbn. auto. Qed.

Lemma timeout_step hist c :
  clipsExist clipNames hist ->
  Sequencing start clipNames hist c ->
  Sequencing start clipNames hist (GameCanvas.timerFires c).
Proof.
  intros clips_ok inv. pose proof inv as (pm & done & ref & names & [idle | busy]).
  - destruct idle as (flag & tm & _). unfold GameCanvas.timerFires. rewrite tm. exact inv.
  - destruct busy as (r & d & flag & tm & split_ & log & cur).
    unfold GameCanvas.timerFires. rewrite tm.
    destruct (_ <=? _)%Z; [|exact inv].
    unfold GameCanvas.completion. cbv zeta. cbn [GameCanvas.captured GameCanvas.request].
    set (c1 := match GameCanvas.onComplete r with
               | Some cb => GameCanvas.runCallback cb (GameCanvas.set_timers [] c)
               | None => GameCanvas.set_timers [] c
               end).
    assert (same : GameCanvas.playerRef c1 = Some pm /\
                   GameCanvas.animationQueueRef c1 = GameCanvas.animationQueueRef c /\
                   GameCanvas.timers c1 = []).
    { subst c1. destruct (GameCanvas.onComplete r) as [cb|].
      - destruct (runCallback_sequencer cb (GameCanvas.set_timers [] c)) as (e1 & e2 & e3 & _).
        rewrite e1, e2, e3. fields. auto.
      - fields. auto. }
    clearbody c1. destruct same as (ref1 & qu1 & tm1).
    rewrite (playAnimation_known "run" c1 pm ref1) by (rewrite names; exact run_clip).
    unfold GameCanvas.processQueue. fields. cbn [orb]. rewrite qu1.
    destruct (GameCanvas.animationQueueRef c) as [|r' rest] eqn:qu.
    + cbn [List.length Nat.eqb].
      eexists. exists (done ++ [r]). split; [reflexivity|]. split; [exact names|].
      left. fields. split; [reflexivity|]. split; [exact tm1|]. split; [exact qu1|].
      split; [exact split_|]. split.
      * rewrite log, transcript_app, <- !app_assoc. reflexivity.
      * reflexivity.
    + cbn [List.length Nat.eqb]. cbv zeta. fields.
      assert (clip' : existsb (String.eqb (GameCanvas.animationName r')) clipNames = true).
      { unfold clipsExist in clips_ok. rewrite Forall_forall in clips_ok.
        apply clips_ok. rewrite split_. apply in_or_app. right. right. left. reflexivity. }
      erewrite playAnimation_known; [|fields; reflexivity|fields; rewrite names; exact clip'].
      unfold GameCanvas.setTimeout. fields. rewrite tm1.
      eexists. exists (done ++ [r]). split; [reflexivity|]. split; [exact names|].
      right. eexists. eexists. fields. cbn [GameCanvas.enqueueTimer].
      split; [reflexivity|]. split; [reflexivity|].
      split; [rewrite split_, <- app_assoc; reflexivity|].
      split; [|reflexivity].
      rewrite log, transcript_app, <- !app_assoc. reflexivity.
Qed.

Lemma sequencerStep_sequencing hist c op :
  clipsExist clipNames (hist ++ requestOf op) ->
  Sequencing start clipNames hist c ->
  Sequencing start clipNames (hist ++ requestOf op) (sequencerStep c op).
Proof.
  intros clips_ok inv. destruct op as [name ms cb | ms |]; cbn [sequencerStep requestOf] in *.
  - apply request_step; [|exact inv].
    unfold clipsExist in clips_ok. rewrite Forall_forall in clips_ok.
    apply (clips_ok {| GameCanvas.animationName := name; GameCanvas.duration := ms;
                       GameCanvas.onComplete := cb |}).
    apply in_or_app. right. left. reflexivity.
  - rewrite app_nil_r. apply wait_step, inv.
  - rewrite app_nil_r in *. apply timeout_step; assumption.
Qed.

Lemma sequencerRun_sequencing ops : forall hist c,
  clipsExist clipNames (hist ++ requestsOf ops) ->
  Sequencing start clipNames hist c ->
  Sequencing start clipNames (hist ++ requestsOf ops) (sequencerRun ops c).
Proof.
  induction ops as [|op ops IH]; intros hist c clips_ok inv.
  - cbn. rewrite app_nil_r. exact inv.
  - cbn [sequencerRun fold_left requestsOf flat_map] in *.
    rewrite app_assoc in *. apply IH; [exact clips_ok|].
    apply sequencerStep_sequencing; [|exact inv].
    unfold clipsExist in *. apply Forall_app in clips_ok. apply clips_ok.
Qed.
End Sequencer.

(** C8.  Started idle on a model that has the run clip and every requested
    clip, the sequencer, after any interleaving of requests, waits and timer
    expiries, is in the state [Sequencing] describes: at most one timer is
    pending, namely that of the one request being played; the requests made
    before it have each been played and followed by the run clip, in the
    order they were made; the ones made after it wait in the queue in that
    order.  In particular jump(800) then roll(1190) plays jump at once, keeps
    roll queued until jump's timer has run (nothing happens at 799 ms),
    then plays run and roll, and run again when roll's timer has run. *)
Theorem sequencer_serves_in_order :
  (forall c0 pm0 ops,
     GameCanvas.playerRef c0 = Some pm0 ->
     GameCanvas.isAnimatingRef c0 = false ->
     GameCanvas.animationQueueRef c0 = [] ->
     GameCanvas.timers c0 = [] ->
     Player.has_clip "run" pm0 = true ->
     clipsExist (Player.animations pm0) (requestsOf ops) ->
     Sequencing (Player.played pm0) (Player.animations pm0) (requestsOf ops)
                (sequencerRun ops c0) /\
     (List.length (GameCanvas.timers (sequencerRun ops c0)) <= 1)%nat) /\
  (let c0 := GameCanvas.mounted (Some clips) zeroBits in
   let c1 := sequencerRun jumpThenRoll c0 in
   let early := sequencerRun [Wait 799; Timeout] c1 in
   let c2 := sequencerRun [Wait 800; Timeout] c1 in
   let c3 := sequencerRun [Wait 1190; Timeout] c2 in
   clipLog c1 = Some ["run"; "jump"]%string /\
   nowPlaying c1 = Some "jump"%string /\
   map GameCanvas.animationName (GameCanvas.animationQueueRef c1) = ["roll"%string] /\
   clipLog early = Some ["run"; "jump"]%string /\
   clipLog c2 = Some ["run"; "jump"; "run"; "roll"]%string /\
   nowPlaying c2 = Some "roll"%string /\
   GameCanvas.animationQueueRef c2 = [] /\
   clipLog c3 = Some ["run"; "jump"; "run"; "roll"; "run"]%string /\
   nowPlaying c3 = Some "run"%string /\
   GameCanvas.isAnimatingRef c3 = false /\ GameCanvas.timers c3 = []).
Proof.
  split.
  - intros c0 pm0 ops ref flag qu tm run_clip clips_ok.
    assert (inv : Sequencing (Player.played pm0) (Player.animations pm0)
                    (requestsOf ops) (sequencerRun ops c0)).
    { apply (sequencerRun_sequencing (Player.played pm0) (Player.animations pm0)
               run_clip ops [] c0 clips_ok).
      exists pm0, []. split; [exact ref|]. split; [reflexivity|]. left.
      repeat split; try assumption.
      - cbn. rewrite app_nil_r. reflexivity.
      - intros H. congruence. }
    split; [exact inv|].
    destruct inv as (pm & done & _ & _ & [(_ & tm' & _) | (r & d & _ & tm' & _)]);
      rewrite tm'; cbn; lia.
  - vm_compute. repeat split; reflexivity.
Qed.

Lemma sequencer_serves_in_order_witness :
  Sequencing ["run"%string] clips
    (requestsOf jumpThenRoll)
    (sequencerRun jumpThenRoll (GameCanvas.mounted (Some clips) zeroBits)).
Proof.
  destruct sequencer_serves_in_order as (general & _).
  refine (proj1 (general (GameCanvas.mounted (Some clips) zeroBits)
                   (snd (Player.initPlayer clips quiet)) jumpThenRoll
                   _ _ _ _ _ _)).
  - reflexivity.
  - reflexivity.
  - reflexivity.
  - reflexivity.
  - reflexivity.
  - repeat constructor.
Defined.

(** ** Restart and the sequencer's timers *)

Lemma playAnimation_sequencer name c :
  GameCanvas.animationQueueRef (GameCanvas.playAnimation name c)
  = GameCanvas.animationQueueRef c /\
  GameCanvas.isAnimatingRef (GameCanvas.playAnimation name c)
  = GameCanvas.isAnimatingRef c /\
  GameCanvas.timers (GameCanvas.playAnimation name c) = GameCanvas.timers c /\
  GameCanvas.now (GameCanvas.playAnimation name c) = GameCanvas.now c.
Proof.
  unfold GameCanvas.playAnimation. destruct (GameCanvas.playerRef c); [|auto].
  destruct (Player.playAnimationFunc _ _ _). cbn. auto.
Qed.

(** C4, as the code has it.  [restartGame] empties the sequencer's queue
    and clears its busy flag in the one synchronous step that resets the
    game, but it cancels nothing: the pending timers and the clock are what
    they were, and a timer due after the restart runs its whole completion
    step on the restarted component. *)
Theorem restart_keeps_timers (c : GameCanvas.Component) :
  GameCanvas.animationQueueRef (GameCanvas.restartGame c) = [] /\
  GameCanvas.isAnimatingRef (GameCanvas.restartGame c) = false /\
  GameCanvas.timers (GameCanvas.restartGame c) = GameCanvas.timers c /\
  GameCanvas.now (GameCanvas.restartGame c) = GameCanvas.now c /\
  forall t rest,
    GameCanvas.timers c = t :: rest ->
    (GameCanvas.due t <= GameCanvas.now c)%Z ->
    GameCanvas.timerFires (GameCanvas.restartGame c)
    = GameCanvas.completion t
        (GameCanvas.set_timers rest (GameCanvas.restartGame c)).
Proof.
  assert (core : GameCanvas.animationQueueRef (GameCanvas.restartGame c) = [] /\
                 GameCanvas.isAnimatingRef (GameCanvas.restartGame c) = false /\
                 GameCanvas.timers (GameCanvas.restartGame c) = GameCanvas.timers c /\
                 GameCanvas.now (GameCanvas.restartGame c) = GameCanvas.now c).
  { unfold GameCanvas.restartGame. cbv zeta. fields.
    destruct (GameCanvas.playerRef _).
    - fields.
      match goal with |- context [GameCanvas.playAnimation ?n ?c'] =>
        destruct (playAnimation_sequencer n c') as (e1 & e2 & e3 & e4) end.
      rewrite e1, e2, e3, e4. fields. auto.
    - fields. auto. }
  destruct core as (q & f & t & n). repeat split; try assumption.
  intros t0 rest pending due. unfold GameCanvas.timerFires.
  rewrite t, n, pending.
  replace (GameCanvas.due t0 <=? GameCanvas.now c)%Z with true
    by (symmetry; apply Z.leb_le; exact due).
  reflexivity.
Qed.

(** C4 as stated fails on the code.  A slide starts; the next frame hits
    the barrier ahead and ends the game; the restart comes half a second
    later.  The slide's timer survives the restart, and when it comes due
    during the jump that follows, its completion step clears the busy flag
    and puts the run clip back while the jump's own timer is still
    pending. *)
Lemma restart_leaks_stale_completion :
  let over := GameCanvas.run bodyBox coinBox (firstn 2 slideThenRestart) closingIn in
  let restarted := GameCanvas.run bodyBox coinBox slideThenRestart closingIn in
  let jumped := GameCanvas.run bodyBox coinBox jumpAfterRestart closingIn in
  let stale := GameCanvas.timerFires jumped in
  ~ restartCancelsTimers /\
  GameCanvas.gameActiveRef over = false /\
  map (fun t => GameCanvas.animationName (GameCanvas.request t))
      (GameCanvas.timers restarted) = ["roll"%string] /\
  GameCanvas.isAnimatingRef jumped = true /\
  nowPlaying jumped = Some "jump"%string /\
  map (fun t => GameCanvas.animationName (GameCanvas.request t))
      (GameCanvas.timers stale) = ["jump"%string] /\
  GameCanvas.isAnimatingRef stale = false /\
  nowPlaying stale = Some "run"%string /\
  clipLog stale = Some ["run"; "roll"; "run"; "jump"; "run"]%string.
Proof.
  intros over restarted jumped stale. split.
  - intros claim.
    specialize (claim (GameCanvas.run bodyBox coinBox
                         (firstn 3 slideThenRestart) closingIn)).
    vm_compute in claim. discriminate claim.
  - vm_compute. repeat split; reflexivity.
Qed.

(** * Further properties *)

Import Play.

(** ** Obstacles: failed loads, the pool and late loads *)

Lemma randomLane_console rt :
  console (snd (Obstacles.randomLane rt)) = console rt.
Proof.
  unfold Obstacles.randomLane, draw.
  destruct (Math_random (random rt)). reflexivity.
Qed.

Lemma loadOutcomes_spec outcomes : forall k rt m,
  Placed k 0 (Obstacles.barrierState m) (Obstacles.spawned m) ->
  let r := loadOutcomes outcomes rt m in
  List.length (Obstacles.barriers (snd r))
  = (List.length (Obstacles.barriers m) + successes outcomes)%nat /\
  Placed (k + successes outcomes) 0
         (Obstacles.barrierState (snd r)) (Obstacles.spawned (snd r)) /\
  console (fst r)
  = console rt
    ++ repeat (Error, "Error loading barrier model:"%string) (failures outcomes).
Proof.
  induction outcomes as [|ok rest IH]; intros k rt m inv; cbn [loadOutcomes].
  - cbn. rewrite !Nat.add_0_r, app_nil_r. auto.
  - destruct ok.
    + pose proof (randomLane_console rt) as cons.
      unfold Obstacles.barrierLoaded.
      destruct (Obstacles.randomLane rt) as [lx rt']. cbn [snd] in cons.
      match goal with |- context [loadOutcomes rest rt' ?m1] =>
        destruct (IH (S k) rt' m1) as (len & pl & co) end.
      { cbn [Obstacles.barrierState Obstacles.spawned]. apply Placed_load, inv. }
      cbn [Obstacles.barriers] in len. rewrite length_app in len. cbn in len.
      unfold successes, failures in *. cbn [filter negb List.length].
      split; [lia|]. split.
      * replace (k + S (List.length (filter (fun ok => ok) rest)))%nat
          with (S k + List.length (filter (fun ok => ok) rest))%nat by lia.
        exact pl.
      * rewrite co, cons. reflexivity.
    + cbn [Obstacles.barrierFailed].
      destruct (IH k (console_write Error "Error loading barrier model:" rt) m inv)
        as (len & pl & co).
      unfold successes, failures in *. cbn [filter negb List.length].
      split; [exact len|]. split; [exact pl|].
      rewrite co. cbn [console console_write repeat]. rewrite <- app_assoc. reflexivity.
Qed.

(** X1.  Loads of [initObstacles] that fail leave no gap.  Whatever the
    outcomes of the loads, the pool holds one barrier per load that
    succeeded, the [i]-th placement is at [slot i] (-40 - 25 i), the cursor
    ends on the slot after the last success, and each failure adds exactly
    one error line to the console. *)
Theorem failed_loads_take_no_slot (outcomes : list bool) (rt : Runtime) :
  let r := loadOutcomes outcomes rt Obstacles.initialModule in
  List.length (Obstacles.barriers (snd r)) = successes outcomes /\
  (forall i s, nth_error (Obstacles.spawned (snd r)) i = Some s ->
     Obstacles.spawnZ s == slot i) /\
  Obstacles.lastBarrierZ (Obstacles.barrierState (snd r))
  == slot (successes outcomes) /\
  console (fst r)
  = console rt
    ++ repeat (Error, "Error loading barrier model:"%string) (failures outcomes).
Proof.
  intros r. destruct (loadOutcomes_spec outcomes 0 rt Obstacles.initialModule Placed_initial)
    as (len & (plen & cur & pts) & co). fold r in len, plen, cur, pts, co.
  cbn [Nat.add] in *. rewrite Nat.add_0_r in *.
  split; [exact len|]. split; [|split; [exact cur | exact co]].
  intros i s H. destruct (pts i s H) as [early _]. apply early.
  rewrite <- plen. apply nth_error_Some. congruence.
Qed.
Lemma forEach_post {A E} (f : E -> A -> A * E) (P : A -> Prop) (Q : E -> Prop) :
  (forall e a, Q e -> P (fst (f e a)) /\ Q (snd (f e a))) ->
  forall xs e, Q e ->
  Forall P (fst (forEach f e xs)) /\ Q (snd (forEach f e xs)).
Proof.
  intros step xs. induction xs as [|a xs IH]; intros e He; cbn [forEach].
  - split; [constructor | exact He].
  - destruct (step e a He) as [Pa Qe]. destruct (f e a) as [a' e1].
    cbn [fst snd] in *. destruct (IH e1 Qe) as [Pxs Qxs].
    destruct (forEach f e1 xs) as [xs' e2]. cbn [fst snd] in *.
    split; [constructor; assumption | exact Qxs].
Qed.

Lemma visit_inView {U C} (pl : Object3D U) speed (cb : C -> C)
  (e : Obstacles.Env C) b :
  Obstacles.lastBarrierZ (Obstacles.cursor e) <= 10 ->
  inView (fst (Obstacles.visit pl speed cb e b)) /\
  Obstacles.lastBarrierZ
    (Obstacles.cursor (snd (Obstacles.visit pl speed cb e b))) <= 10.
Proof.
  intros cur. unfold Obstacles.visit, Obstacles.advance, inView. cbv zeta.
  destruct (gt _ 10) eqn:far.
  - destruct (Obstacles.randomLane (Obstacles.runtime e)) as [lx rt'].
    destruct (Obstacles.hits _ _); cbn; unfold Obstacles.MIN_BARRIER_SPACING; split; lra.
  - apply gt_false in far.
    destruct (Obstacles.hits _ _); cbn; split; assumption.
Qed.

Lemma updateObstacles_inView {U C} (pl : option (Object3D U)) gs
  (cb : C -> C) rt m s :
  Forall inView (Obstacles.barriers m) ->
  Obstacles.lastBarrierZ (Obstacles.barrierState m) <= 10 ->
  let m' := snd (fst (Obstacles.updateObstacles pl gs cb rt m s)) in
  Forall inView (Obstacles.barriers m') /\
  Obstacles.lastBarrierZ (Obstacles.barrierState m') <= 10 /\
  List.length (Obstacles.barriers m') = List.length (Obstacles.barriers m).
Proof.
  intros all cur. unfold Obstacles.updateObstacles.
  destruct pl as [pl|]; [|cbn; auto].
  set (e0 := {| Obstacles.runtime := rt; Obstacles.cursor := Obstacles.barrierState m;
                Obstacles.log := Obstacles.spawned m; Obstacles.caller := s |}).
  pose proof (forEach_post (Obstacles.visit pl (speed gs * 2) cb) inView
                (fun e => Obstacles.lastBarrierZ (Obstacles.cursor e) <= 10)
                (visit_inView pl _ cb) (Obstacles.barriers m) e0 cur) as [K1 K2].
  pose proof (forEach_length (Obstacles.visit pl (speed gs * 2) cb)
                (Obstacles.barriers m) e0) as K3.
  destruct (forEach _ e0 _) as [bs e]. cbn in *. auto.
Qed.

Lemma loadBarriers_inView k rt :
  let m := snd (loadBarriers k rt Obstacles.initialModule) in
  Forall inView (Obstacles.barriers m) /\
  Obstacles.lastBarrierZ (Obstacles.barrierState m) <= 10 /\
  List.length (Obstacles.barriers m) = k.
Proof.
  induction k as [|k IH]; cbn [loadBarriers].
  - cbn. split; [constructor|]. split; [lra | reflexivity].
  - cbv zeta in IH. destruct (loadBarriers k rt Obstacles.initialModule) as [rt' m'].
    cbn [snd] in IH. destruct IH as (all & cur & len).
    unfold Obstacles.barrierLoaded.
    destruct (Obstacles.randomLane rt') as [lx rt'']. cbn [snd Obstacles.barriers Obstacles.barrierState Obstacles.lastBarrierZ].
    split; [|split].
    + apply Forall_app. split; [exact all|]. constructor; [exact cur | constructor].
    + unfold Obstacles.MIN_BARRIER_SPACING. lra.
    + rewrite length_app, len. cbn. lia.
Qed.

(** X2.  After any number of loads and frames the pool still holds its [k]
    barriers, and none of them is beyond z = 10, whatever players and game
    states the frames were called with. *)
Theorem barrier_pool_stays_in_view {U C : Type} (k : nat) (rt : Runtime)
  (onCollision : C -> C) (calls : list (option (Object3D U) * GameState))
  (s : C) :
  let m := obstacleRun k rt onCollision calls s in
  List.length (Obstacles.barriers m) = k /\
  Forall (fun b => z (position b) <= 10) (Obstacles.barriers m).
Proof.
  unfold obstacleRun. pose proof (loadBarriers_inView k rt) as H. cbv zeta in H.
  destruct (loadBarriers k rt Obstacles.initialModule) as [rt1 m1]. cbn [snd] in H.
  revert rt1 m1 s H. induction calls as [|[pl gs] rest IH]; intros rt1 m1 s (all & cur & len).
  - cbn. auto.
  - cbn [obstacleFrames].
    pose proof (updateObstacles_inView pl gs onCollision rt1 m1 s all cur) as K.
    cbv zeta in K.
    destruct (Obstacles.updateObstacles pl gs onCollision rt1 m1 s) as [[rt' m'] s'].
    cbn [fst snd] in K. destruct K as (a' & c' & l'). apply IH. rewrite l'. auto.
Qed.

Section Sharing.

Context {U C : Type}.

Variables (pl : Object3D U) (speed : Q) (cb : C -> C).

Lemma visit_log (e : Obstacles.Env C) b :
  let r := Obstacles.visit pl speed cb e b in
  (Obstacles.log (snd r) = Obstacles.log e /\
   Obstacles.cursor (snd r) = Obstacles.cursor e) \/
  (exists a,
     Obstacles.log (snd r) = Obstacles.log e ++ [a] /\
     Obstacles.how a = Obstacles.Recycled /\
     Obstacles.spawnZ a = Obstacles.lastBarrierZ (Obstacles.cursor (snd r)) /\
     z (position (fst r)) = Obstacles.spawnZ a).
Proof.
  unfold Obstacles.visit, Obstacles.advance. cbv zeta.
  destruct (gt _ 10).
  - right. destruct (Obstacles.randomLane (Obstacles.runtime e)) as [lx rt'].
    destruct (Obstacles.hits _ _); cbn; eexists; repeat split; reflexivity.
  - left. destruct (Obstacles.hits _ _); cbn; auto.
Qed.

Lemma forEach_visit_log (bs : list Obstacles.Barrier) :
  forall e : Obstacles.Env C,
  let r := forEach (Obstacles.visit pl speed cb) e bs in
  (Obstacles.log (snd r) = Obstacles.log e /\
   Obstacles.cursor (snd r) = Obstacles.cursor e) \/
  (exists pre a b0,
     Obstacles.log (snd r) = pre ++ [a] /\
     Obstacles.how a = Obstacles.Recycled /\
     Obstacles.spawnZ a = Obstacles.lastBarrierZ (Obstacles.cursor (snd r)) /\
     In b0 (fst r) /\ z (position b0) = Obstacles.spawnZ a).
Proof.
  induction bs as [|b bs IH]; intros e; cbn [forEach].
  - left. cbn. auto.
  - pose proof (visit_log e b) as V. cbv zeta in V.
    destruct (Obstacles.visit pl speed cb e b) as [b' e1]. cbn [fst snd] in V.
    specialize (IH e1). cbv zeta in IH.
    destruct (forEach (Obstacles.visit pl speed cb) e1 bs) as [bs' e2].
    cbn [fst snd] in *.
    destruct IH as [[lg cu] | (pre & a & b0 & lg & hw & zz & mem & zb)].
    + destruct V as [[lg1 cu1] | (a & lg1 & hw & zz & zb)].
      * left. split; congruence.
      * right. exists (Obstacles.log e), a, b'.
        rewrite lg, cu. repeat split; auto. left. reflexivity.
    + right. exists pre, a, b0. repeat split; auto. right. exact mem.
Qed.

End Sharing.

(** X3.  A load that completes after a recycle lands on an occupied slot:
    when a call of [updateObstacles] has recycled a barrier (its log grew)
    and a barrier model finishes loading next, the new barrier is placed at
    exactly the z of a barrier that is already in the pool. *)
Theorem load_after_recycle_shares_slot {U C : Type} (pl : Object3D U)
  (gs : GameState) (onCollision : C -> C) (rt : Runtime)
  (m : Obstacles.Module_) (s : C) :
  let r := Obstacles.updateObstacles (Some pl) gs onCollision rt m s in
  let m1 := snd (fst r) in
  let m2 := snd (Obstacles.barrierLoaded (fst (fst r)) m1) in
  Obstacles.spawned m1 <> Obstacles.spawned m ->
  exists recycled loaded,
    In recycled (Obstacles.barriers m1) /\
    Obstacles.barriers m2 = Obstacles.barriers m1 ++ [loaded] /\
    z (position loaded) = z (position recycled).
Proof.
  cbv zeta. unfold Obstacles.updateObstacles.
  set (e0 := {| Obstacles.runtime := rt; Obstacles.cursor := Obstacles.barrierState m;
                Obstacles.log := Obstacles.spawned m; Obstacles.caller := s |}).
  pose proof (forEach_visit_log pl (speed gs * 2) onCollision (Obstacles.barriers m) e0) as K.
  cbv zeta in K. destruct (forEach _ e0 _) as [bs e]. cbn [fst snd] in *.
  cbn [Obstacles.spawned]. intros changed.
  destruct K as [[lg _] | (pre & a & b0 & lg & hw & zz & mem & zb)];
    [exfalso; apply changed; exact lg|].
  unfold Obstacles.barrierLoaded.
  destruct (Obstacles.randomLane (Obstacles.runtime e)) as [lx rt'].
  cbn [snd Obstacles.barriers Obstacles.barrierState].
  exists b0. eexists. split; [exact mem|]. split; [reflexivity|].
  cbn. congruence.
Qed.
Lemma load_after_recycle_shares_slot_witness :
  exists recycled loaded : Obstacles.Barrier,
    In recycled
       (Obstacles.barriers
          (snd (fst (Obstacles.updateObstacles (Some atOrigin) defaultGameState
                       (fun u : unit => u) quiet aboutToLeave tt)))) /\
    z (position loaded) = -90 /\ z (position recycled) = -90.
Proof.
  destruct (load_after_recycle_shares_slot atOrigin defaultGameState
              (fun u : unit => u) quiet aboutToLeave tt)
    as (recycled & loaded & mem & pool & same).
  - vm_compute. intros H. discriminate H.
  - exists recycled, loaded. split; [exact mem|].
    vm_compute in pool. injection pool as <-. split; [reflexivity|].
    rewrite <- same. reflexivity.
Defined.

(** ** Obstacles: what the collision box lets through *)

Lemma hits_false {U} (pl : Object3D U) (b : Obstacles.Barrier) :
  Obstacles.hits pl b = false <->
  ~ (x (position b) - 1.5 <= x (position pl) <= x (position b) + 1 /\
     y (position b) - 1.5 <= y (position pl) <= y (position b) + 0.5 /\
     z (position b) - 1.5 <= z (position pl) <= z (position b) + 1.2).
Proof.
  rewrite <- hits_spec. destruct (Obstacles.hits pl b); split; intros H;
    congruence || (exfalso; apply H; reflexivity) || reflexivity.
Qed.

(** X4.  A player standing on a lane centre [l * laneDistance] can only be
    hit from its own lane: if a barrier in slot [l' + 1] of [LANE_OFFSETS]
    meets the player's box, then [l' = l]. *)
Theorem collisions_only_in_own_lane {U : Type} (pl : Object3D U)
  (b : Obstacles.Barrier) (l l' : Z) :
  (-1 <= l <= 1)%Z -> (-1 <= l' <= 1)%Z ->
  x (position pl) == inject_Z l * laneDistance defaultGameState ->
  index Obstacles.LANE_OFFSETS (l' + 1) = Some (x (position b)) ->
  Obstacles.hits pl b = true ->
  l' = l.
Proof.
  intros rl rl' px slot_ hit. apply hits_spec in hit. destruct hit as (hx & _).
  cbn [laneDistance defaultGameState] in px. rewrite px in hx.
  assert (l = -1 \/ l = 0 \/ l = 1)%Z as [-> | [-> | ->]] by lia;
  assert (l' = -1 \/ l' = 0 \/ l' = 1)%Z as [-> | [-> | ->]] by lia;
    try reflexivity; exfalso;
    cbn in slot_; injection slot_ as E; rewrite <- E in hx;
    cbn in hx; destruct hx as [h1 h2]; vm_compute in h1, h2;
    (apply h1; reflexivity) || (apply h2; reflexivity).
Qed.
Lemma collisions_only_in_own_lane_witness :
  Obstacles.hits atOrigin (midBarrier 0) = true /\ 0%Z = 0%Z.
Proof.
  split; [reflexivity|].
  apply (collisions_only_in_own_lane atOrigin (midBarrier 0) 0 0).
  - lia.
  - lia.
  - reflexivity.
  - reflexivity.
  - reflexivity.
Defined.

Lemma filter_hits_airborne {U} (pl : Object3D U) (bs : list Obstacles.Barrier) :
  1 < y (position pl) -> Forall wellPlaced bs ->
  filter (Obstacles.hits pl) bs = [].
Proof.
  intros up all. induction all as [|b bs [_ height] _ IH]; [reflexivity|].
  cbn [filter]. rewrite IH.
  replace (Obstacles.hits pl b) with false; [reflexivity|].
  symmetry. apply hits_false. intros (_ & (_ & hy) & _). rewrite height in hy. lra.
Qed.

(** X5.  A player whose feet are above y = 1 passes over every barrier:
    against any pool the game has built (any loads, any earlier frames) a
    call of [updateObstacles] for such a player never invokes
    [onCollision]. *)
Theorem airborne_player_clears_barriers {U C : Type} (k : nat)
  (rt : Runtime) (onCollision : C -> C)
  (calls : list (option (Object3D U) * GameState)) (s0 : C)
  (pl : Object3D U) (gs : GameState) (rt' : Runtime) (s : C) :
  1 < y (position pl) ->
  snd (Obstacles.updateObstacles (Some pl) gs onCollision rt'
         (obstacleRun k rt onCollision calls s0) s) = s.
Proof.
  intros up.
  pose proof (updateObstacles_caller pl gs onCollision rt'
                (obstacleRun k rt onCollision calls s0) s) as K. cbv zeta in K.
  rewrite K, filter_hits_airborne; [reflexivity | exact up |].
  apply updateObstacles_wellPlaced, obstacleRun_wellPlaced.
Qed.
Lemma airborne_player_clears_barriers_witness :
  snd (Obstacles.updateObstacles (Some hovering) defaultGameState S quiet
         (obstacleRun 10 quiet S
            (repeat (Some atOrigin, defaultGameState) 60) O) O) = O.
Proof.
  apply (airborne_player_clears_barriers 10 quiet S
           (repeat (Some atOrigin, defaultGameState) 60) O hovering
           defaultGameState quiet O).
  reflexivity.
Defined.

(** ** Coins: lanes, the count and the recycle *)

Lemma randomLaneX_spec rt :
  In (fst (Coins.randomLaneX rt)) [-4; 0; 4].
Proof.
  unfold Coins.randomLaneX. pose proof (draw_range rt) as [lo hi].
  destruct (draw rt) as [u rt']. cbn [fst] in *. unfold Math_floor.
  destruct (floor_times_3 u lo hi) as [-> | [-> | ->]]; cbn; auto.
Qed.

Lemma farAhead_spec rt :
  let p := fst (Coins.farAhead rt) in
  In (x p) [-4; 0; 4] /\ y p = 1.2 /\ -100 < z p /\ z p <= -50.
Proof.
  unfold Coins.farAhead. pose proof (randomLaneX_spec rt) as lane.
  destruct (Coins.randomLaneX rt) as [lx rt1]. cbn [fst] in lane.
  pose proof (draw_range rt1) as [lo hi].
  destruct (draw rt1) as [u rt2]. cbn [fst x y z] in *.
  split; [exact lane|]. split; [reflexivity|]. split; lra.
Qed.

Section CoinVisit.

Context {U C : Type}.

Variables (pb : Object3D U -> Box3) (cb : Coins.Coin -> Box3)
          (pl : Object3D U) (ui : C -> C) (delta : Q).

(** One visit either collects the coin or not. *)
Lemma coin_visit_spec (e : Coins.Env C) coin :
  let r := Coins.visit pb cb pl ui delta e coin in
  (Coins.gameState (snd r)
   = set_coinCount (coinCount (Coins.gameState e) + 1)%Z (Coins.gameState e) /\
   Coins.caller (snd r) = ui (Coins.caller e) /\
   Coins.sound (snd r) = option_map S (Coins.sound e) /\
   In (x (position (fst r))) [-4; 0; 4] /\ y (position (fst r)) = 1.2 /\
   -100 < z (position (fst r)) /\ z (position (fst r)) <= -50) \/
  (Coins.gameState (snd r) = Coins.gameState e /\
   Coins.caller (snd r) = Coins.caller e /\
   Coins.sound (snd r) = Coins.sound e /\
   ((In (x (position (fst r))) [-4; 0; 4] /\ y (position (fst r)) = 1.2 /\
     -100 < z (position (fst r)) /\ z (position (fst r)) <= -50) \/
    (x (position (fst r)) = x (position coin) /\
     y (position (fst r)) = y (position coin) /\
     z (position (fst r)) = z (position coin) + speed (Coins.gameState e) * 2 /\
     z (position (fst r)) <= 10))).
Proof.
  unfold Coins.visit. cbv zeta. cbn [x y z].
  destruct (gt _ 10) eqn:far.
  - pose proof (farAhead_spec (Coins.runtime e)) as F1. cbv zeta in F1.
    destruct (Coins.farAhead (Coins.runtime e)) as [far1 rt1]. cbn [fst] in F1.
    destruct (intersectsBox _ _).
    + pose proof (farAhead_spec rt1) as F2. cbv zeta in F2.
      destruct (Coins.farAhead rt1) as [far2 rt2]. cbn [fst] in F2.
      left. cbn. destruct (Coins.sound e); cbn; tauto.
    + right. cbn. tauto.
  - apply gt_false in far. destruct (intersectsBox _ _).
    + pose proof (farAhead_spec (Coins.runtime e)) as F2. cbv zeta in F2.
      destruct (Coins.farAhead (Coins.runtime e)) as [far2 rt2]. cbn [fst] in F2.
      left. cbn. destruct (Coins.sound e); cbn; tauto.
    + right. cbn. tauto.
Qed.

Lemma coin_visit_placed (e : Coins.Env C) coin :
  coinPlaced coin ->
  coinPlaced (fst (Coins.visit pb cb pl ui delta e coin)).
Proof.
  intros (lane & height & _). pose proof (coin_visit_spec e coin) as V.
  cbv zeta in V. unfold coinPlaced.
  destruct V as [(_ & _ & _ & l & h & _ & near)
                | (_ & _ & _ & [(l & h & _ & near) | (ex & ey & _ & near)])].
  - split; [exact l|]. split; [exact h | lra].
  - split; [exact l|]. split; [exact h | lra].
  - rewrite ex, ey. auto.
Qed.

Lemma set_coinCount_same (g : GameState) : set_coinCount (coinCount g) g = g.
Proof. destruct g; reflexivity. Qed.

Lemma forEach_coin_count (coins : list Coins.Coin) : forall e : Coins.Env C,
  let r := forEach (Coins.visit pb cb pl ui delta) e coins in
  exists k : nat,
    (k <= List.length coins)%nat /\
    Coins.gameState (snd r)
    = set_coinCount (coinCount (Coins.gameState e) + Z.of_nat k)%Z
                    (Coins.gameState e) /\
    Coins.caller (snd r) = Nat.iter k ui (Coins.caller e) /\
    Coins.sound (snd r) = option_map (Nat.add k) (Coins.sound e).
Proof.
  induction coins as [|coin rest IH]; intros e; cbn [forEach].
  - exists O. cbn. rewrite Z.add_0_r, set_coinCount_same.
    destruct (Coins.sound e); auto.
  - pose proof (coin_visit_spec e coin) as V. cbv zeta in V.
    destruct (Coins.visit pb cb pl ui delta e coin) as [c1 e1]. cbn [fst snd] in V.
    destruct (IH e1) as (k & le & gs & ca & so).
    destruct (forEach (Coins.visit pb cb pl ui delta) e1 rest) as [rest' e2].
    cbn [fst snd] in *.
    destruct V as [(g1 & c1' & s1 & _) | (g1 & c1' & s1 & _)].
    + exists (S k). split; [cbn; lia|]. rewrite gs, ca, so, g1, c1', s1.
      split; [|split].
      * unfold set_coinCount. cbn. f_equal. lia.
      * symmetry. apply Nat.iter_succ_r.
      * destruct (Coins.sound e); cbn; [f_equal; lia | reflexivity].
    + exists k. split; [cbn; lia|]. rewrite gs, ca, so, g1, c1', s1. auto.
Qed.

End CoinVisit.

Lemma loadCoins_placed n clip rt :
  Forall coinPlaced (Coins.coins (snd (loadCoins n clip rt Coins.initialModule))).
Proof.
  induction n as [|n IH]; cbn [loadCoins]; [constructor|].
  destruct (loadCoins n clip rt Coins.initialModule) as [rt' m']. cbn [snd] in IH.
  unfold Coins.coinLoaded. pose proof (randomLaneX_spec rt') as lane.
  destruct (Coins.randomLaneX rt') as [lx rt1]. cbn [fst] in lane.
  pose proof (draw_range rt1) as [lo hi].
  destruct (draw rt1) as [u rt2]. cbn [fst snd Coins.coins] in *.
  apply Forall_app. split; [exact IH|]. constructor; [|constructor].
  split; [exact lane|]. split; [reflexivity|]. cbn [position z].
  pose proof (inject_nat_nonneg n). lra.
Qed.

Lemma updateCoins_placed {U C} (pb : Object3D U -> Box3) cb pl gs
  (ui : C -> C) delta rt m s :
  Forall coinPlaced (Coins.coins m) ->
  Forall coinPlaced
    (Coins.coins (snd (fst (fst (Coins.updateCoins pb cb pl gs ui delta rt m s))))).
Proof.
  intros H. unfold Coins.updateCoins. destruct pl as [pl|]; [|exact H].
  pose proof (forEach_Forall (Coins.visit pb cb pl ui delta) coinPlaced
                (coin_visit_placed pb cb pl ui delta) (Coins.coins m)
                {| Coins.runtime := rt; Coins.gameState := gs;
                   Coins.sound := Coins.coinSound m; Coins.caller := s |} H) as K.
  destruct (forEach _ _ _) as [cs e]. exact K.
Qed.

(** X7.  Every coin of the pool, after any loads and frames, is on one of
    the lanes x = -4, 0, 4, at height 1.2 and not beyond z = 10. *)
Theorem coins_stay_on_lanes {U C : Type} (pb : Object3D U -> Box3)
  (cb : Coins.Coin -> Box3) (updateUI : C -> C) (maxCoins : nat)
  (clip : nat -> bool) (rt : Runtime)
  (calls : list (option (Object3D U) * Q)) (gs : GameState) (s : C) :
  Forall (fun c => In (x (position c)) [-4; 0; 4] /\
                   y (position c) = 1.2 /\ z (position c) <= 10)
         (Coins.coins (coinRun pb cb updateUI maxCoins clip rt calls gs s)).
Proof.
  unfold coinRun. pose proof (loadCoins_placed maxCoins clip rt) as H.
  destruct (loadCoins maxCoins clip rt Coins.initialModule) as [rt1 m1].
  cbn [snd] in H. revert rt1 m1 gs s H.
  induction calls as [|[pl delta] rest IH]; intros rt1 m1 gs s H.
  - exact H.
  - cbn [coinFrames].
    pose proof (updateCoins_placed pb cb pl gs updateUI delta rt1 m1 s H) as K.
    destruct (Coins.updateCoins pb cb pl gs updateUI delta rt1 m1 s)
      as [[[rt' m'] gs'] s'].
    apply IH, K.
Qed.
Lemma updateCoins_effect {U C : Type} (pb : Object3D U -> Box3)
  (cb : Coins.Coin -> Box3) (pl : Object3D U) (gs : GameState)
  (updateUI : C -> C) (delta : Q) (rt : Runtime) (m : Coins.Module_) (s : C) :
  let r := Coins.updateCoins pb cb (Some pl) gs updateUI delta rt m s in
  exists k : nat,
    (k <= List.length (Coins.coins m))%nat /\
    snd (fst r) = set_coinCount (coinCount gs + Z.of_nat k)%Z gs /\
    snd r = Nat.iter k updateUI s /\
    Coins.coinSound (snd (fst (fst r)))
    = option_map (Nat.add k) (Coins.coinSound m).
Proof.
  cbv zeta. unfold Coins.updateCoins.
  destruct (forEach_coin_count pb cb pl updateUI delta (Coins.coins m)
              {| Coins.runtime := rt; Coins.gameState := gs;
                 Coins.sound := Coins.coinSound m; Coins.caller := s |})
    as (k & le & g & c & so).
  destruct (forEach _ _ _) as [cs e]. exists k. cbn in *. auto.
Qed.

(** X8.  One call of [updateCoins] with a player collects some number [k]
    of coins, at most the size of the pool: [coinCount] grows by exactly
    [k] and the rest of the game state is untouched, [updateUI] has been
    called [k] times and the sound, where there is one, played [k]
    times. *)
Theorem coin_count_accounting {U C : Type} (pb : Object3D U -> Box3)
  (cb : Coins.Coin -> Box3) (pl : Object3D U) (gs : GameState)
  (updateUI : C -> C) (delta : Q) (rt : Runtime) (m : Coins.Module_) (s : C) :
  let r := Coins.updateCoins pb cb (Some pl) gs updateUI delta rt m s in
  exists k : nat,
    (k <= List.length (Coins.coins m))%nat /\
    snd (fst r) = set_coinCount (coinCount gs + Z.of_nat k)%Z gs /\
    snd r = Nat.iter k updateUI s /\
    Coins.coinSound (snd (fst (fst r)))
    = option_map (Nat.add k) (Coins.coinSound m).
Proof. apply updateCoins_effect. Qed.


(** ** Jumping: the height of a jump *)

Lemma square_nonneg (a : Q) : 0 <= a * a.
Proof.
  destruct (Qlt_le_dec a 0) as [neg | pos].
  - assert (E : a * a == (- a) * (- a)) by ring. rewrite E.
    apply Qmult_le_0_compat; lra.
  - apply Qmult_le_0_compat; assumption.
Qed.

Lemma heightAt_le_apex v0 g delta n :
  g < 0 -> heightAt v0 g delta n <= apexBound v0 g delta.
Proof.
  intros g_neg. unfold apexBound. apply Qle_shift_div_l; [lra|].
  unfold heightAt. cbv zeta. set (q := inject_Z (Z.of_nat n)).
  assert (sq : 0 <= (- g * delta * q - v0 + g * delta / 2)
                    * (- g * delta * q - v0 + g * delta / 2))
    by apply square_nonneg.
  assert (E : (v0 - g * delta / 2) * (v0 - g * delta / 2)
              - (q * v0 * delta + g * delta * delta * q * (q - 1) / 2) * (2 * - g)
              == (- g * delta * q - v0 + g * delta / 2)
                 * (- g * delta * q - v0 + g * delta / 2)) by field.
  lra.
Qed.

Lemma heightAt_0 v0 g delta : heightAt v0 g delta 0 == 0.
Proof.
  unfold heightAt. cbv zeta. change (inject_Z (Z.of_nat 0)) with 0. field.
Qed.

Lemma updatePlayer_grounded rendered delta c :
  GameCanvas.isJumpingRef c = false ->
  GameCanvas.updatePlayer rendered delta c = c.
Proof.
  intros H. unfold GameCanvas.updatePlayer.
  destruct (GameCanvas.playerRef c); [rewrite H|]; reflexivity.
Qed.

Lemma jumpFrames_grounded rendered delta c k :
  GameCanvas.isJumpingRef c = false ->
  jumpFrames k rendered delta c = c.
Proof.
  intros H. induction k as [|k IH]; [reflexivity|].
  cbn [jumpFrames]. rewrite IH. apply updatePlayer_grounded, H.
Qed.

Lemma jumpFrames_add n k rendered delta c :
  jumpFrames (k + n) rendered delta c
  = jumpFrames k rendered delta (jumpFrames n rendered delta c).
Proof.
  induction k as [|k IH]; [reflexivity|]. cbn [Nat.add jumpFrames].
  rewrite IH. reflexivity.
Qed.


(** ** What no run of the game changes *)

Lemma playAnimation_control name c :
  control (GameCanvas.playAnimation name c) = control c.
Proof.
  unfold control, GameCanvas.playAnimation.
  destruct (GameCanvas.playerRef c) as [pm|] eqn:ref; [|rewrite ref; reflexivity].
  unfold Player.playAnimationFunc. destruct (negb _); fields; rewrite ?ref; reflexivity.
Qed.

Lemma enqueueTimer_Forall (P : GameCanvas.Timer -> Prop) t ts :
  P t -> Forall P ts -> Forall P (GameCanvas.enqueueTimer t ts).
Proof.
  intros Pt. induction ts as [|u ts IH]; intros all; cbn [GameCanvas.enqueueTimer].
  - constructor; [exact Pt | constructor].
  - inversion all; subst. destruct (_ <? _)%Z.
    + constructor; assumption.
    + constructor; [assumption | apply IH; assumption].
Qed.

Lemma processQueue_control c :
  exists queue busy tms,
    control (GameCanvas.processQueue c)
    = (GameCanvas.gameState c, GameCanvas.gameActiveRef c,
       GameCanvas.isRollingRef c, GameCanvas.isJumpingRef c,
       GameCanvas.jumpVelocityRef c, queue, busy, tms, GameCanvas.now c,
       option_map Player.player (GameCanvas.playerRef c)) /\
    forall P : GameCanvas.AnimationRequest -> Prop,
      Forall P (GameCanvas.animationQueueRef c) ->
      Forall (fun t => P (GameCanvas.request t)) (GameCanvas.timers c) ->
      Forall P queue /\ Forall (fun t => P (GameCanvas.request t)) tms.
Proof.
  unfold GameCanvas.processQueue.
  destruct (_ || _).
  - do 3 eexists. split; [reflexivity|]. auto.
  - destruct (GameCanvas.animationQueueRef c) as [|r rest] eqn:qu.
    + do 3 eexists. split; [unfold control; rewrite qu; reflexivity|]. auto.
    + cbv zeta. unfold GameCanvas.setTimeout.
      do 3 eexists. split.
      * unfold control at 1. fields.
        pose proof (playAnimation_control (GameCanvas.animationName r)
                      (GameCanvas.set_isAnimatingRef true
                         (GameCanvas.set_animationQueueRef rest c))) as K.
        unfold control in K. fields. injection K as e1 e2 e3 e4 e5 e6 e7 e8 e9 e10;
        rewrite ?e1, ?e2, ?e3, ?e4, ?e5, ?e6, ?e7, ?e8, ?e9, ?e10.
        reflexivity.
      * intros P all tm. inversion all; subst. split; [assumption|].
        apply enqueueTimer_Forall; assumption.
Qed.

Lemma playAndResetAnimation_control name ms cb c :
  exists queue busy tms,
    control (GameCanvas.playAndResetAnimation name ms cb c)
    = (GameCanvas.gameState c, GameCanvas.gameActiveRef c,
       GameCanvas.isRollingRef c, GameCanvas.isJumpingRef c,
       GameCanvas.jumpVelocityRef c, queue, busy, tms, GameCanvas.now c,
       option_map Player.player (GameCanvas.playerRef c)) /\
    forall P : GameCanvas.AnimationRequest -> Prop,
      P {| GameCanvas.animationName := name; GameCanvas.duration := ms;
           GameCanvas.onComplete := cb |} ->
      Forall P (GameCanvas.animationQueueRef c) ->
      Forall (fun t => P (GameCanvas.request t)) (GameCanvas.timers c) ->
      Forall P queue /\ Forall (fun t => P (GameCanvas.request t)) tms.
Proof.
  unfold GameCanvas.playAndResetAnimation.
  match goal with |- context [GameCanvas.processQueue ?c1] =>
    destruct (processQueue_control c1) as (queue & busy & tms & E & keep) end.
  exists queue, busy, tms. split; [rewrite E; reflexivity|].
  intros P new all tm. apply keep; fields; [|exact tm].
  apply Forall_app. split; [exact all | constructor; [exact new | constructor]].
Qed.

Lemma jump_Steady c : Steady c -> Steady (GameCanvas.jump c).
Proof.
  unfold Steady. intros H. unfold GameCanvas.jump.
  destruct (negb (GameCanvas.isJumpingRef c) && negb (GameCanvas.isRollingRef c)) eqn:ok;
    [|exact H].
  cbv zeta.
  match goal with |- context [GameCanvas.playAndResetAnimation ?n ?ms ?cb ?c1] =>
    destruct (playAndResetAnimation_control n ms cb c1)
      as (queue & busy & tms & E & keep) end.
  unfold control in *. fields. injection E as e1 e2 e3 e4 e5 e6 e7 e8 e9 e10;
  rewrite ?e1, ?e2, ?e3, ?e4, ?e5, ?e6, ?e7, ?e8, ?e9, ?e10.
  cbn [steady] in *. destruct H as (k & l & cc & ex & sl & qu & tm & pl).
  apply andb_true_iff in ok. destruct ok as [nj nr].
  apply negb_true_iff in nj, nr. rewrite nr in *.
  destruct (keep transient (or_introl eq_refl) qu tm) as [qu' tm'].
  repeat split; try assumption; try apply k.
  - apply l.
  - apply l.
Qed.

Lemma slide_Steady c : Steady c -> Steady (GameCanvas.slide c).
Proof.
  unfold Steady. intros H. unfold GameCanvas.slide.
  destruct (negb (GameCanvas.isRollingRef c) && negb (GameCanvas.isJumpingRef c)) eqn:ok;
    [|exact H].
  cbv zeta. unfold GameCanvas.setGameState.
  match goal with |- context [GameCanvas.playAndResetAnimation ?n ?ms ?cb ?c1] =>
    destruct (playAndResetAnimation_control n ms cb c1)
      as (queue & busy & tms & E & keep) end.
  unfold control in *. fields. injection E as e1 e2 e3 e4 e5 e6 e7 e8 e9 e10;
  rewrite ?e1, ?e2, ?e3, ?e4, ?e5, ?e6, ?e7, ?e8, ?e9, ?e10.
  cbn [steady] in *. destruct H as (k & l & cc & ex & sl & qu & tm & pl).
  apply andb_true_iff in ok. destruct ok as [nr nj].
  apply negb_true_iff in nj, nr. rewrite nj in *.
  destruct (keep transient (or_intror eq_refl) qu tm) as [qu' tm'].
  repeat split; try assumption; try apply k.
  - apply l.
  - apply l.
Qed.

Lemma setLane_Steady f c :
  (f = GameCanvas.laneLeft \/ f = GameCanvas.laneRight) ->
  Steady c -> Steady (GameCanvas.setGameState f c).
Proof.
  unfold Steady, GameCanvas.setGameState, control. fields. cbn [steady].
  intros which (k & l & cc & rest). split; [|split; [|split]].
  - destruct which as [-> | ->]; exact k.
  - destruct which as [-> | ->];
      unfold GameCanvas.laneLeft, GameCanvas.laneRight, Math_max, Math_min;
      cbn [currentLane set_currentLane]; lia.
  - destruct which as [-> | ->]; exact cc.
  - destruct which as [-> | ->]; exact rest.
Qed.

Lemma handleKeyDown_Steady rendered key c :
  Steady c -> Steady (GameCanvas.handleKeyDown rendered key c).
Proof.
  intros H. unfold GameCanvas.handleKeyDown.
  destruct (negb _); [exact H|].
  destruct (String.eqb key "ArrowLeft"); [apply setLane_Steady; auto|].
  destruct (String.eqb key "ArrowRight"); [apply setLane_Steady; auto|].
  destruct (String.eqb key "ArrowUp"); [apply jump_Steady, H|].
  destruct (String.eqb key "ArrowDown"); [apply slide_Steady, H|].
  exact H.
Qed.

Lemma onDrag_Steady mx my dx dy c :
  Steady c -> Steady (GameCanvas.onDrag mx my dx dy c).
Proof.
  intros H. unfold GameCanvas.onDrag. cbv zeta.
  set (c1 := if _ && _ then _ else c).
  assert (H1 : Steady c1).
  { subst c1. destruct (_ && _); [|exact H].
    destruct (gt dx 0); [apply setLane_Steady; auto|].
    destruct (lt dx 0); [apply setLane_Steady; auto|]. exact H. }
  clearbody c1. destruct (_ && _); [|exact H1].
  destruct (lt dy 0); [apply jump_Steady, H1|].
  destruct (gt dy 0); [apply slide_Steady, H1|]. exact H1.
Qed.

Lemma completion_Steady t rest c :
  transient (GameCanvas.request t) ->
  Steady c -> GameCanvas.timers c = t :: rest ->
  Steady (GameCanvas.completion t (GameCanvas.set_timers rest c)).
Proof.
  intros _ H tm. unfold GameCanvas.completion. cbv zeta.
  set (c1 := match GameCanvas.onComplete (GameCanvas.request t) with
             | Some cb => _ | None => _ end).
  assert (S1 : Steady c1).
  { subst c1. unfold Steady, control in *. rewrite tm in H.
    destruct (GameCanvas.onComplete (GameCanvas.request t)) as [[]|];
      cbn [GameCanvas.runCallback]; unfold GameCanvas.setGameState; fields;
      cbn [steady] in *; destruct H as (k & l & cc & ex & sl & qu & tms & pl);
      inversion tms; subst.
    - repeat split; try assumption; try apply k; try apply l.
      + apply andb_false_r.
      + cbn. discriminate.
    - repeat split; try assumption; try apply k; try apply l. }
  clearbody c1.
  set (c2 := if GameCanvas.captured t then _ else c1).
  assert (S2 : Steady c2).
  { subst c2. destruct (GameCanvas.captured t); [|exact S1].
    unfold Steady. rewrite playAnimation_control. exact S1. }
  clearbody c2.
  match goal with |- Steady (GameCanvas.processQueue ?c3) =>
    destruct (processQueue_control c3) as (queue & busy & tms & E & keep) end.
  unfold Steady in *. rewrite E. unfold control in S2. fields.
  cbn [steady] in *. destruct S2 as (k & l & cc & ex & sl & qu & tm2 & pl).
  destruct (keep transient qu tm2) as [qu' tm'].
  repeat split; try assumption; try apply k; try apply l.
Qed.

Lemma timerFires_Steady c : Steady c -> Steady (GameCanvas.timerFires c).
Proof.
  intros H. unfold GameCanvas.timerFires.
  destruct (GameCanvas.timers c) as [|t rest] eqn:tm; [exact H|].
  destruct (_ <=? _)%Z; [|exact H].
  apply completion_Steady; [|exact H | exact tm].
  unfold Steady, control in H. rewrite tm in H. cbn [steady] in H.
  destruct H as (_ & _ & _ & _ & _ & _ & tms & _). inversion tms; assumption.
Qed.

Lemma updatePlayer_Steady rendered delta c :
  Steady c -> Steady (GameCanvas.updatePlayer rendered delta c).
Proof.
  intros H. unfold GameCanvas.updatePlayer.
  destruct (GameCanvas.playerRef c) as [pm|] eqn:ref; [|exact H].
  destruct (GameCanvas.isJumpingRef c) eqn:jmp; [|exact H].
  cbv zeta. unfold Steady in *. unfold control in H. rewrite ref, jmp in H.
  cbn [option_map steady] in H.
  destruct H as (k & l & cc & ex & sl & qu & tm & lo & hi & up & zz).
  destruct (le _ 0) eqn:ground.
  - rewrite playAnimation_control. unfold control. fields. cbn [option_map steady].
    fields. repeat split; fields; try assumption; try apply k; try apply l. lra.
  - apply le_false in ground. fields.
    unfold control. fields. cbn [option_map steady]. fields.
    repeat split; fields; try assumption; try apply k; try apply l;
      try (rewrite jmp; exact ex). lra.
Qed.

Lemma playerPhase_Steady delta c pm :
  GameCanvas.playerRef c = Some pm ->
  Steady c ->
  Steady (let '(rt, pm', g) :=
            Player.playerUpdate delta (GameCanvas.gameState c)
                                (GameCanvas.runtime c) pm in
          GameCanvas.set_gameState g
            (GameCanvas.set_playerRef (Some pm') (GameCanvas.set_runtime rt c))).
Proof.
  intros ref H. unfold Steady, control in *. rewrite ref in H.
  cbn [option_map steady] in H.
  destruct H as (k & l & cc & ex & sl & qu & tm & lo & hi & up & zz).
  pose proof k as (_ & _ & _ & _ & _ & dist & _ & still).
  unfold Player.playerUpdate. rewrite still. cbv zeta. fields.
  cbn [option_map steady]. fields.
  repeat split; fields; try assumption; try apply k; try apply l.
  - rewrite dist.
    assert (-1 <= inject_Z (currentLane (GameCanvas.gameState c))).
    { change (-1) with (inject_Z (-1)). rewrite <- Zle_Qle. lia. }
    lra.
  - rewrite dist.
    assert (inject_Z (currentLane (GameCanvas.gameState c)) <= 1).
    { change 1 with (inject_Z 1). rewrite <- Zle_Qle. lia. }
    lra.
Qed.

Lemma onCollision_Steady c : Steady c -> Steady (GameCanvas.onCollision c).
Proof.
  unfold Steady, control, GameCanvas.onCollision, GameCanvas.setGameState.
  fields. cbn [steady]. auto.
Qed.

Lemma iter_Steady (f : GameCanvas.Component -> GameCanvas.Component) n c :
  (forall c', Steady c' -> Steady (f c')) -> Steady c -> Steady (Nat.iter n f c).
Proof.
  intros step H. induction n as [|n IH]; [exact H|].
  cbn [Nat.iter nat_rect]. apply step, IH.
Qed.

Lemma updateUI_control c : control (GameCanvas.updateUI c) = control c.
Proof. reflexivity. Qed.

Lemma iter_updateUI_control n c :
  control (Nat.iter n GameCanvas.updateUI c) = control c.
Proof.
  induction n as [|n IH]; [reflexivity|]. cbn [Nat.iter nat_rect].
  rewrite updateUI_control. exact IH.
Qed.

Lemma animate_Steady pb cb rendered delta c :
  Steady c -> Steady (GameCanvas.animate pb cb rendered delta c).
Proof.
  intros H. unfold GameCanvas.animate.
  destruct (GameCanvas.gameActiveRef c); [|exact H]. cbv zeta.
  pose proof (updatePlayer_Steady rendered delta c H) as S1.
  set (c1 := GameCanvas.updatePlayer rendered delta c) in *. clearbody c1.
  set (c2 := match GameCanvas.playerRef c1 with
             | Some pm => _ | None => c1 end).
  assert (S2 : Steady c2).
  { subst c2. destruct (GameCanvas.playerRef c1) as [pm|] eqn:ref; [|exact S1].
    apply (playerPhase_Steady delta c1 pm ref S1). }
  clearbody c2.
  set (c3 := match GameCanvas.playerRef c2 with
             | Some pm => _ | None => c2 end).
  assert (S3 : Steady c3).
  { subst c3. destruct (GameCanvas.playerRef c2) as [pm|]; [|exact S2].
    pose proof (updateObstacles_caller (Player.player pm) (GameCanvas.gameState c2)
                  GameCanvas.onCollision (GameCanvas.runtime c2)
                  (GameCanvas.obstacles c2) c2) as K. cbv zeta in K.
    destruct (Obstacles.updateObstacles _ _ _ _ _ c2) as [[rt om] c'].
    cbn [fst snd] in K. subst c'.
    match goal with |- Steady (GameCanvas.set_obstacles _ (GameCanvas.set_runtime _ ?c4)) =>
      assert (S4 : Steady c4) by (apply iter_Steady; [apply onCollision_Steady | exact S2]);
      set (c5 := c4) in * end.
    clearbody c5. exact S4. }
  clearbody c3.
  destruct (GameCanvas.playerRef c3) as [pm|] eqn:ref; cbn [option_map].
  - destruct (updateCoins_effect pb cb (Player.player pm) (GameCanvas.gameState c3)
                GameCanvas.updateUI delta (GameCanvas.runtime c3)
                (GameCanvas.coins c3) c3) as (k & _ & eg & ec & _).
    destruct (Coins.updateCoins _ _ _ _ _ _ _ _ c3) as [[[rt cm] g] c'].
    cbn [fst snd] in eg, ec. subst g c'.
    pose proof (iter_updateUI_control k c3) as E.
    unfold Steady in *. unfold control in *. fields.
    injection E as e1 e2 e3 e4 e5 e6 e7 e8 e9 e10.
    rewrite ?e1, ?e2, ?e3, ?e4, ?e5, ?e6, ?e7, ?e8, ?e9, ?e10.
    cbn [steady] in *. destruct S3 as (kk & l & cc & rest).
    split; [exact kk|]. split; [exact l|]. split; [cbn [coinCount set_coinCount]; lia|].
    exact rest.
  - cbn [Coins.updateCoins]. exact S3.
Qed.

Lemma constants_default : constants defaultGameState.
Proof. repeat split. Qed.

Lemma restartGame_Steady c : Steady c -> Steady (GameCanvas.restartGame c).
Proof.
  unfold Steady. intros H. unfold GameCanvas.restartGame. cbv zeta.
  unfold GameCanvas.setGameState. fields.
  unfold control in H. cbn [steady] in H.
  destruct H as (_ & _ & _ & ex & _ & _ & tm & pl).
  destruct (GameCanvas.playerRef c) as [pm|] eqn:ref.
  - fields.
    match goal with |- context [GameCanvas.playAnimation ?n ?c'] =>
      pose proof (playAnimation_control n c') as E end.
    unfold control in *. fields.
    injection E as e1 e2 e3 e4 e5 e6 e7 e8 e9 e10.
    rewrite ?e1, ?e2, ?e3, ?e4, ?e5, ?e6, ?e7, ?e8, ?e9, ?e10.
    cbn [option_map steady]. fields.
    split; [exact constants_default|]. cbn [currentLane coinCount isSliding defaultGameState].
    repeat split; try lia; try lra; try discriminate; try assumption; constructor.
  - unfold control. fields. rewrite ref. cbn [option_map steady].
    split; [exact constants_default|]. cbn [currentLane coinCount isSliding defaultGameState].
    repeat split; try lia; try discriminate; try assumption; constructor.
Qed.

Lemma handleExitGame_Steady c : Steady c -> Steady (GameCanvas.handleExitGame c).
Proof.
  unfold Steady, GameCanvas.handleExitGame, GameCanvas.setGameState, control.
  fields. cbn [steady]. intros (_ & _ & _ & ex & _ & rest).
  split; [exact constants_default|]. cbn [currentLane coinCount isSliding defaultGameState].
  repeat split; try lia; try discriminate; try assumption; apply rest.
Qed.

Lemma step_Steady pb cb c ev :
  Steady c -> Steady (GameCanvas.step pb cb c ev).
Proof.
  intros H. destruct ev; cbn [GameCanvas.step].
  - apply handleKeyDown_Steady, H.
  - apply onDrag_Steady, H.
  - apply animate_Steady, H.
  - exact H.
  - apply timerFires_Steady, H.
  - destruct (Obstacles.barrierLoaded _ _). exact H.
  - destruct (Obstacles.barrierFailed _ _). exact H.
  - destruct (Coins.coinLoaded _ _ _ _). exact H.
  - destruct (Coins.coinFailed _ _). exact H.
  - apply restartGame_Steady, H.
  - apply handleExitGame_Steady, H.
Qed.

Lemma run_Steady pb cb evs : forall c,
  Steady c -> Steady (GameCanvas.run pb cb evs c).
Proof.
  induction evs as [|ev evs IH]; intros c H; [exact H|].
  cbn [GameCanvas.run fold_left]. apply IH, step_Steady, H.
Qed.

Lemma mounted_Steady loaded r : Steady (GameCanvas.mounted loaded r).
Proof.
  unfold Steady, GameCanvas.mounted. cbv zeta.
  destruct loaded as [cl|].
  - unfold Player.initPlayer, Player.playAnimationFunc.
    destruct (negb _); unfold control; fields; cbn [option_map steady]; fields;
      (split; [exact constants_default|]);
      cbn [currentLane coinCount isSliding defaultGameState];
      repeat split; try lia; try lra; try discriminate; constructor.
  - unfold control. fields. cbn [option_map steady].
    split; [exact constants_default|].
    cbn [currentLane coinCount isSliding defaultGameState].
    repeat split; try lia; try discriminate; constructor.
Qed.

(** X11.  From the mount on, whatever events follow (keys, swipes, frames,
    timers, model loads, restart, exit), the game state keeps speed 0.3,
    maxSpeed 0.5, gravity -20, score 0, multiplier 1, laneDistance 4,
    maxCoins 5 and isJumping false, and [coinCount] is never negative: the
    game never speeds up and never scores. *)
Theorem game_constants_never_change pb cb (loaded : option (list string))
  (r : RandomSource) (evs : list GameCanvas.Event) :
  let g := GameCanvas.gameState
             (GameCanvas.run pb cb evs (GameCanvas.mounted loaded r)) in
  speed g = 0.3 /\ maxSpeed g = 0.5 /\ gravity g = -20 /\ score g = 0%Z /\
  multiplier g = 1%Z /\ laneDistance g = 4 /\ maxCoins g = 5%Z /\
  isJumping g = false /\ (0 <= coinCount g)%Z.
Proof.
  cbv zeta.
  pose proof (run_Steady pb cb evs _ (mounted_Steady loaded r)) as H.
  unfold Steady, control in H. cbn [steady] in H.
  destruct H as ((s & ms & gr & sc & mu & ld & mc & ij) & _ & cc & _).
  repeat split; assumption.
Qed.

(** X12.  In every run from the mount, [isJumpingRef] and [isRollingRef]
    are never both set, and [gameState.isSliding] is set only while
    [isRollingRef] is. *)
Theorem jump_and_roll_exclude_each_other pb cb (loaded : option (list string))
  (r : RandomSource) (evs : list GameCanvas.Event) :
  let c := GameCanvas.run pb cb evs (GameCanvas.mounted loaded r) in
  GameCanvas.isJumpingRef c && GameCanvas.isRollingRef c = false /\
  (isSliding (GameCanvas.gameState c) = true -> GameCanvas.isRollingRef c = true).
Proof.
  cbv zeta.
  pose proof (run_Steady pb cb evs _ (mounted_Steady loaded r)) as H.
  unfold Steady, control in H. cbn [steady] in H.
  destruct H as (_ & _ & _ & ex & sl & _). split; assumption.
Qed.

(** X13.  In every run from the mount, each request waiting in the
    animation queue and each pending timer is for the clip jump or the
    clip roll. *)
Theorem only_jump_and_roll_are_sequenced pb cb (loaded : option (list string))
  (r : RandomSource) (evs : list GameCanvas.Event) :
  let c := GameCanvas.run pb cb evs (GameCanvas.mounted loaded r) in
  Forall transient (GameCanvas.animationQueueRef c) /\
  Forall (fun t => transient (GameCanvas.request t)) (GameCanvas.timers c).
Proof.
  cbv zeta.
  pose proof (run_Steady pb cb evs _ (mounted_Steady loaded r)) as H.
  unfold Steady, control in H. cbn [steady] in H.
  destruct H as (_ & _ & _ & _ & _ & qu & tm & _). split; assumption.
Qed.

(** X14.  In every run from the mount the player, once loaded, stays
    between the outer lanes (-4 <= x <= 4), never below the ground and at
    z = 0. *)
Theorem player_stays_on_the_track pb cb (loaded : option (list string))
  (r : RandomSource) (evs : list GameCanvas.Event) :
  let c := GameCanvas.run pb cb evs (GameCanvas.mounted loaded r) in
  forall pm, GameCanvas.playerRef c = Some pm ->
    -4 <= x (position (Player.player pm)) <= 4 /\
    0 <= y (position (Player.player pm)) /\
    z (position (Player.player pm)) = 0.
Proof.
  cbv zeta. intros pm ref.
  pose proof (run_Steady pb cb evs _ (mounted_Steady loaded r)) as H.
  unfold Steady, control in H. rewrite ref in H. cbn [option_map steady] in H.
  destruct H as (_ & _ & _ & _ & _ & _ & _ & lo & hi & up & zz).
  repeat split; assumption.
Qed.
Lemma player_stays_on_the_track_witness :
  exists pm,
    GameCanvas.playerRef
      (GameCanvas.run bodyBox coinBox
         [GameCanvas.KeyDown defaultGameState "ArrowRight";
          GameCanvas.AnimationFrame defaultGameState (1 # 60)]
         (GameCanvas.mounted (Some clips) zeroBits)) = Some pm /\
    -4 <= x (position (Player.player pm)) <= 4.
Proof.
  assert (found : exists pm,
            GameCanvas.playerRef
              (GameCanvas.run bodyBox coinBox
                 [GameCanvas.KeyDown defaultGameState "ArrowRight";
                  GameCanvas.AnimationFrame defaultGameState (1 # 60)]
                 (GameCanvas.mounted (Some clips) zeroBits)) = Some pm)
    by (eexists; vm_compute; reflexivity).
  destruct found as (pm & ref). exists pm. split; [exact ref|].
  apply (player_stays_on_the_track bodyBox coinBox (Some clips) zeroBits
           [GameCanvas.KeyDown defaultGameState "ArrowRight";
            GameCanvas.AnimationFrame defaultGameState (1 # 60)] pm ref).
Defined.

(** ** After a collision *)

Lemma playAnimation_frozen name c :
  frozen (GameCanvas.playAnimation name c) = frozen c.
Proof.
  unfold frozen, GameCanvas.playAnimation.
  destruct (GameCanvas.playerRef c) as [pm|] eqn:ref; [|rewrite ref; reflexivity].
  unfold Player.playAnimationFunc. destruct (negb _); fields; rewrite ?ref; reflexivity.
Qed.

Ltac refreeze E :=
  unfold frozen in E; fields;
  let e1 := fresh in let e2 := fresh in let e3 := fresh in
  let e4 := fresh in let e5 := fresh in let e6 := fresh in
  injection E as e1 e2 e3 e4 e5 e6;
  rewrite ?e1, ?e2, ?e3, ?e4, ?e5, ?e6.

Lemma processQueue_frozen c : frozen (GameCanvas.processQueue c) = frozen c.
Proof.
  unfold GameCanvas.processQueue. destruct (_ || _); [reflexivity|].
  destruct (GameCanvas.animationQueueRef c) as [|r rest]; [reflexivity|].
  cbv zeta. unfold GameCanvas.setTimeout. unfold frozen at 1. fields.
  match goal with |- context [GameCanvas.playAnimation ?n ?c'] =>
    pose proof (playAnimation_frozen n c') as E end.
  refreeze E. reflexivity.
Qed.

Lemma playAndResetAnimation_frozen name ms cb c :
  frozen (GameCanvas.playAndResetAnimation name ms cb c) = frozen c.
Proof.
  unfold GameCanvas.playAndResetAnimation. rewrite processQueue_frozen. reflexivity.
Qed.

Lemma jump_frozen c : frozen (GameCanvas.jump c) = frozen c.
Proof.
  unfold GameCanvas.jump. destruct (_ && _); [|reflexivity]. cbv zeta.
  unfold frozen at 1. fields.
  match goal with |- context [GameCanvas.playAndResetAnimation ?n ?ms ?cb ?c'] =>
    pose proof (playAndResetAnimation_frozen n ms cb c') as E end.
  refreeze E. reflexivity.
Qed.

Lemma slide_frozen c : frozen (GameCanvas.slide c) = frozen c.
Proof.
  unfold GameCanvas.slide. destruct (_ && _); [|reflexivity]. cbv zeta.
  unfold GameCanvas.setGameState. unfold frozen at 1. fields.
  match goal with |- context [GameCanvas.playAndResetAnimation ?n ?ms ?cb ?c'] =>
    pose proof (playAndResetAnimation_frozen n ms cb c') as E end.
  unfold frozen in E. fields.
  injection E as e1 e2 e3 e4 e5 e6.
  cbn [active coinCount set_isSliding].
  rewrite ?e1, ?e2, ?e3, ?e4, ?e5, ?e6. reflexivity.
Qed.

Lemma completion_frozen t c :
  frozen (GameCanvas.completion t c) = frozen c.
Proof.
  unfold GameCanvas.completion. cbv zeta. rewrite processQueue_frozen.
  unfold frozen at 1. fields.
  set (c1 := match GameCanvas.onComplete (GameCanvas.request t) with
             | Some cb => GameCanvas.runCallback cb c | None => c end).
  assert (E1 : frozen c1 = frozen c).
  { subst c1. destruct (GameCanvas.onComplete (GameCanvas.request t)) as [[]|]; reflexivity. }
  assert (E2 : frozen (if GameCanvas.captured t
                       then GameCanvas.playAnimation "run" c1 else c1) = frozen c).
  { destruct (GameCanvas.captured t); [rewrite playAnimation_frozen|]; exact E1. }
  exact E2.
Qed.

Lemma timerFires_frozen c : frozen (GameCanvas.timerFires c) = frozen c.
Proof.
  unfold GameCanvas.timerFires. destruct (GameCanvas.timers c); [reflexivity|].
  destruct (_ <=? _)%Z; [|reflexivity]. rewrite completion_frozen. reflexivity.
Qed.

Lemma handleKeyDown_frozen rendered key c :
  frozen (GameCanvas.handleKeyDown rendered key c) = frozen c.
Proof.
  unfold GameCanvas.handleKeyDown. destruct (negb _); [reflexivity|].
  destruct (String.eqb key "ArrowLeft"); [reflexivity|].
  destruct (String.eqb key "ArrowRight"); [reflexivity|].
  destruct (String.eqb key "ArrowUp"); [apply jump_frozen|].
  destruct (String.eqb key "ArrowDown"); [apply slide_frozen|]. reflexivity.
Qed.

Lemma onDrag_frozen mx my dx dy c :
  frozen (GameCanvas.onDrag mx my dx dy c) = frozen c.
Proof.
  unfold GameCanvas.onDrag. cbv zeta.
  set (c1 := if _ && _ then _ else c).
  assert (E1 : frozen c1 = frozen c).
  { subst c1. destruct (_ && _); [|reflexivity].
    destruct (gt dx 0); [reflexivity|]. destruct (lt dx 0); reflexivity. }
  clearbody c1. destruct (_ && _); [|exact E1].
  destruct (lt dy 0); [rewrite jump_frozen; exact E1|].
  destruct (gt dy 0); [rewrite slide_frozen; exact E1|]. exact E1.
Qed.

Lemma step_frozen pb cb c ev :
  GameCanvas.gameActiveRef c = false -> playEvent ev ->
  frozen (GameCanvas.step pb cb c ev) = frozen c.
Proof.
  intros down user. destruct ev; cbn [GameCanvas.step]; try destruct user.
  - apply handleKeyDown_frozen.
  - apply onDrag_frozen.
  - unfold GameCanvas.animate. rewrite down. reflexivity.
  - reflexivity.
  - apply timerFires_frozen.
Qed.

(** X15.  Once the loop's flag [gameActiveRef] is down, keys, swipes,
    frames and timers leave it down and leave [active], the coin count, the
    player object, the barriers and the coins as they are: only a restart,
    an exit or a model that finishes loading changes them. *)
Theorem game_over_is_terminal pb cb (evs : list GameCanvas.Event)
  (c : GameCanvas.Component) :
  GameCanvas.gameActiveRef c = false ->
  Forall playEvent evs ->
  let c' := GameCanvas.run pb cb evs c in
  GameCanvas.gameActiveRef c' = false /\
  active (GameCanvas.gameState c') = active (GameCanvas.gameState c) /\
  coinCount (GameCanvas.gameState c') = coinCount (GameCanvas.gameState c) /\
  option_map Player.player (GameCanvas.playerRef c')
  = option_map Player.player (GameCanvas.playerRef c) /\
  GameCanvas.obstacles c' = GameCanvas.obstacles c /\
  GameCanvas.coins c' = GameCanvas.coins c.
Proof.
  intros down quiet. cbv zeta.
  assert (E : frozen (GameCanvas.run pb cb evs c) = frozen c).
  { revert c down. induction quiet as [|ev evs user rest IH]; intros c down;
      [reflexivity|].
    cbn [GameCanvas.run fold_left].
    pose proof (step_frozen pb cb c ev down user) as E1.
    rewrite <- E1. apply IH.
    unfold frozen in E1. injection E1 as e1 _. rewrite e1. exact down. }
  unfold frozen in E. injection E as e1 e2 e3 e4 e5 e6.
  rewrite e1, e2, e3, e4, e5, e6. repeat split; auto.
Qed.
Lemma game_over_is_terminal_witness :
  GameCanvas.gameActiveRef
    (GameCanvas.run bodyBox coinBox
       [GameCanvas.KeyDown defaultGameState "ArrowLeft";
        GameCanvas.AnimationFrame defaultGameState (1 # 60);
        GameCanvas.Elapse 1000; GameCanvas.TimerFires] gameOver) = false.
Proof.
  apply (game_over_is_terminal bodyBox coinBox
           [GameCanvas.KeyDown defaultGameState "ArrowLeft";
            GameCanvas.AnimationFrame defaultGameState (1 # 60);
            GameCanvas.Elapse 1000; GameCanvas.TimerFires] gameOver).
  - vm_compute. reflexivity.
  - repeat constructor.
Defined.

(** ** Swipes and slides *)

(** X16.  A drag does at most one thing: nothing, one lane to the right,
    one lane to the left, a jump or a slide.  It does nothing when both
    movements are within the threshold of 10 pixels, when they are equal in
    size, and when both directions are zero. *)
Theorem swipe_picks_one_intent (mx my dx dy : Q) (c : GameCanvas.Component) :
  let r := GameCanvas.onDrag mx my dx dy c in
  (r = c \/ r = GameCanvas.setGameState GameCanvas.laneRight c \/
   r = GameCanvas.setGameState GameCanvas.laneLeft c \/
   r = GameCanvas.jump c \/ r = GameCanvas.slide c) /\
  (Qabs mx <= 10 -> Qabs my <= 10 -> r = c) /\
  (Qabs mx == Qabs my -> r = c) /\
  (dx == 0 -> dy == 0 -> r = c).
Proof.
  cbv zeta. unfold GameCanvas.onDrag. cbv zeta. unfold Math_abs.
  destruct (gt (Qabs mx) 10) eqn:h1; destruct (gt (Qabs mx) (Qabs my)) eqn:h2;
  destruct (gt (Qabs my) 10) eqn:v1; destruct (gt (Qabs my) (Qabs mx)) eqn:v2;
  cbn [andb];
  rewrite ?gt_true, ?gt_false in *;
  try (exfalso; lra);
  destruct (gt dx 0) eqn:dxp; destruct (lt dx 0) eqn:dxn;
  destruct (lt dy 0) eqn:dyn; destruct (gt dy 0) eqn:dyp;
  unfold lt in *; rewrite ?negb_true_iff, ?negb_false_iff, ?gt_true, ?gt_false,
                          ?le_true, ?le_false in *;
  (split; [tauto|]);
  (split; [intros; try reflexivity; exfalso; lra|]);
  (split; [intros; try reflexivity; exfalso; lra|]);
  intros; try reflexivity; exfalso; lra.
Qed.
Lemma playAnimation_shape name c :
  exists p rt,
    GameCanvas.playAnimation name c
    = GameCanvas.set_playerRef p (GameCanvas.set_runtime rt c).
Proof.
  unfold GameCanvas.playAnimation.
  destruct (GameCanvas.playerRef c) as [pm|] eqn:ref.
  - destruct (Player.playAnimationFunc _ _ _) as [rt pm']. eauto.
  - exists None, (GameCanvas.runtime c). destruct c; cbn in *. subst. reflexivity.
Qed.

(** X17.  A slide started with the sequencer idle holds [isRollingRef]
    and [isSliding] until its timer is due: a timer tick less than 1190 ms
    later changes nothing, and one at 1190 ms or later clears both and
    leaves the sequencer idle, with no timer and nothing queued. *)
Theorem slide_lasts_until_its_timer (c : GameCanvas.Component) (ms : Z) :
  GameCanvas.isAnimatingRef c = false ->
  GameCanvas.animationQueueRef c = [] ->
  GameCanvas.timers c = [] ->
  GameCanvas.isJumpingRef c = false ->
  GameCanvas.isRollingRef c = false ->
  let c1 := GameCanvas.slide c in
  let c2 := GameCanvas.timerFires (GameCanvas.elapse ms c1) in
  GameCanvas.isRollingRef c1 = true /\
  isSliding (GameCanvas.gameState c1) = true /\
  ((ms < 1190)%Z -> c2 = GameCanvas.elapse ms c1) /\
  ((1190 <= ms)%Z ->
   GameCanvas.isRollingRef c2 = false /\
   isSliding (GameCanvas.gameState c2) = false /\
   GameCanvas.isAnimatingRef c2 = false /\
   GameCanvas.timers c2 = [] /\
   GameCanvas.animationQueueRef c2 = []).
Proof.
  intros idle qu tm nj nr. cbv zeta.
  unfold GameCanvas.slide. rewrite nj, nr. cbn [negb andb]. cbv zeta.
  unfold GameCanvas.playAndResetAnimation, GameCanvas.processQueue. fields.
  rewrite idle, qu. cbn [app List.length Nat.eqb orb]. cbv zeta. fields.
  match goal with |- context [GameCanvas.playAnimation ?n ?c'] =>
    destruct (playAnimation_shape n c') as (p & rt & ->) end.
  unfold GameCanvas.setTimeout, GameCanvas.setGameState. fields.
  rewrite tm. cbn [GameCanvas.enqueueTimer].
  split; [reflexivity|]. split; [reflexivity|].
  unfold GameCanvas.timerFires, GameCanvas.elapse. fields.
  cbn [GameCanvas.due GameCanvas.duration].
  split.
  - intros early.
    replace (GameCanvas.now c + 1190 <=? GameCanvas.now c + Z.max 0 ms)%Z
      with false by (symmetry; apply Z.leb_gt; lia).
    reflexivity.
  - intros late.
    replace (GameCanvas.now c + 1190 <=? GameCanvas.now c + Z.max 0 ms)%Z
      with true by (symmetry; apply Z.leb_le; lia).
    unfold GameCanvas.completion. cbv zeta.
    cbn [GameCanvas.request GameCanvas.onComplete GameCanvas.captured
         GameCanvas.runCallback].
    unfold GameCanvas.setGameState. fields.
    set (had := match GameCanvas.playerRef c with Some _ => true | None => false end).
    match goal with |- context [if had then GameCanvas.playAnimation ?n ?c' else _] =>
      destruct (playAnimation_shape n c') as (p' & rt' & E) end.
    unfold GameCanvas.processQueue.
    destruct had; [rewrite E|]; fields; cbn [List.length Nat.eqb orb];
      repeat split; reflexivity.
Qed.
Lemma slide_lasts_until_its_timer_witness :
  GameCanvas.isRollingRef
    (GameCanvas.timerFires
       (GameCanvas.elapse 1190
          (GameCanvas.slide (GameCanvas.mounted (Some clips) zeroBits))))
  = false.
Proof.
  apply (slide_lasts_until_its_timer (GameCanvas.mounted (Some clips) zeroBits) 1190).
  - reflexivity.
  - reflexivity.
  - reflexivity.
  - reflexivity.
  - reflexivity.
  - lia.
Defined.

(** X6.  Rolling is not seen by the collision pass.  A slide that is
    accepted sets [isRollingRef] and [gameState.isSliding] but leaves the
    player object as it was, and [updateObstacles], run for the player and
    the game state after the slide, returns exactly what it returns for
    those before it. *)
Theorem sliding_gives_no_protection (c : GameCanvas.Component)
  (pm : Player.Module_) :
  GameCanvas.playerRef c = Some pm ->
  GameCanvas.isJumpingRef c = false ->
  GameCanvas.isRollingRef c = false ->
  let c1 := GameCanvas.slide c in
  GameCanvas.isRollingRef c1 = true /\
  isSliding (GameCanvas.gameState c1) = true /\
  exists pm1,
    GameCanvas.playerRef c1 = Some pm1 /\
    Player.player pm1 = Player.player pm /\
    forall (C : Type) (onCollision : C -> C) rt m (s : C),
      Obstacles.updateObstacles (Some (Player.player pm1))
        (GameCanvas.gameState c1) onCollision rt m s
      = Obstacles.updateObstacles (Some (Player.player pm))
          (GameCanvas.gameState c) onCollision rt m s.
Proof.
  intros ref nj nr. cbv zeta. unfold GameCanvas.slide.
  rewrite nj, nr. cbn [negb andb]. cbv zeta. unfold GameCanvas.setGameState.
  match goal with |- context [GameCanvas.playAndResetAnimation ?n ?ms ?cb ?c1] =>
    destruct (playAndResetAnimation_control n ms cb c1)
      as (queue & busy & tms & E & _);
    set (c2 := GameCanvas.playAndResetAnimation n ms cb c1) in * end.
  unfold control in E. fields. rewrite ref in E. cbn [option_map] in E.
  injection E as e1 e2 e3 e4 e5 e6 e7 e8 e9 e10.
  rewrite e1, e3. split; [reflexivity|]. split; [reflexivity|].
  destruct (GameCanvas.playerRef c2) as [pm1|]; [|discriminate e10].
  cbn [option_map] in e10. injection e10 as e10.
  exists pm1. split; [reflexivity|]. split; [exact e10|].
  intros C onCollision rt m s. rewrite e10. reflexivity.
Qed.
Lemma sliding_gives_no_protection_witness :
  GameCanvas.isRollingRef (GameCanvas.slide closingIn) = true /\
  isSliding (GameCanvas.gameState (GameCanvas.slide closingIn)) = true.
Proof.
  destruct (GameCanvas.playerRef closingIn) as [pm|] eqn:ref;
    [|vm_compute in ref; discriminate ref].
  destruct (sliding_gives_no_protection closingIn pm ref) as (r & sl & _).
  - reflexivity.
  - reflexivity.
  - split; assumption.
Defined.

(** ** Restart, and requests without a clip *)

Lemma restartGame_obstacles c :
  Obstacles.barriers (GameCanvas.obstacles (GameCanvas.restartGame c)) = [] /\
  Obstacles.spawned (GameCanvas.obstacles (GameCanvas.restartGame c)) = [] /\
  Obstacles.lastBarrierZ
    (Obstacles.barrierState (GameCanvas.obstacles (GameCanvas.restartGame c)))
  == -40.
Proof.
  unfold GameCanvas.restartGame. cbv zeta. unfold GameCanvas.setGameState. fields.
  destruct (GameCanvas.playerRef c).
  - fields.
    match goal with |- context [GameCanvas.playAnimation ?n ?c'] =>
      destruct (playAnimation_shape n c') as (p & rt & ->) end.
    fields. destruct (GameCanvas.sceneRef c); cbn; repeat split.
  - fields. destruct (GameCanvas.sceneRef c); cbn; repeat split.
Qed.

Lemma run_snoc pb cb evs ev c :
  GameCanvas.run pb cb (evs ++ [ev]) c
  = GameCanvas.step pb cb (GameCanvas.run pb cb evs c) ev.
Proof. unfold GameCanvas.run. rewrite fold_left_app. reflexivity. Qed.

(** X18.  [restartGame] forgets every earlier placement: from any state,
    the [k] barrier loads that follow a restart build a pool of [k]
    barriers, all placed by the load callback, the [i]-th at
    [slot i] (-40 - 25 i), and the cursor stands on [slot k]. *)
Theorem restart_starts_placement_afresh pb cb (c : GameCanvas.Component)
  (k : nat) :
  let m := GameCanvas.obstacles
             (GameCanvas.run pb cb (restartThenLoad k) c) in
  List.length (Obstacles.barriers m) = k /\
  Obstacles.lastBarrierZ (Obstacles.barrierState m) == slot k /\
  List.length (Obstacles.spawned m) = k /\
  forall i s, nth_error (Obstacles.spawned m) i = Some s ->
    Obstacles.how s = Obstacles.Initial /\ Obstacles.spawnZ s == slot i.
Proof.
  cbv zeta. unfold restartThenLoad.
  assert (H : List.length (Obstacles.barriers (GameCanvas.obstacles
                 (GameCanvas.run pb cb
                    (GameCanvas.RestartClicked :: repeat GameCanvas.BarrierModelLoaded k) c))) = k /\
              Placed k 0
                (Obstacles.barrierState (GameCanvas.obstacles
                   (GameCanvas.run pb cb
                      (GameCanvas.RestartClicked :: repeat GameCanvas.BarrierModelLoaded k) c)))
                (Obstacles.spawned (GameCanvas.obstacles
                   (GameCanvas.run pb cb
                      (GameCanvas.RestartClicked :: repeat GameCanvas.BarrierModelLoaded k) c)))).
  { induction k as [|k IH].
    - cbn [repeat GameCanvas.run fold_left GameCanvas.step].
      destruct (restartGame_obstacles c) as (eb & es & ec).
      rewrite eb, es. split; [reflexivity|]. split; [reflexivity|].
      split; [rewrite ec; reflexivity|]. intros [|i] s H; discriminate H.
    - change (GameCanvas.RestartClicked :: repeat GameCanvas.BarrierModelLoaded (S k))
        with (GameCanvas.RestartClicked
              :: (GameCanvas.BarrierModelLoaded :: repeat GameCanvas.BarrierModelLoaded k)).
      rewrite repeat_cons, app_comm_cons, run_snoc.
      destruct IH as (len & pl).
      set (c' := GameCanvas.run pb cb _ c) in *. clearbody c'.
      cbn [GameCanvas.step]. unfold Obstacles.barrierLoaded.
      destruct (Obstacles.randomLane (GameCanvas.runtime c')) as [lx rt'].
      fields. cbn [Obstacles.barriers Obstacles.barrierState Obstacles.spawned].
      split; [rewrite length_app, len; cbn; lia|]. apply Placed_load, pl. }
  destruct H as (len & plen & cur & pts). rewrite Nat.add_0_r in *.
  split; [exact len|]. split; [exact cur|]. split; [exact plen|].
  intros i s H. destruct (pts i s H) as [early _]. apply early.
  rewrite <- plen. apply nth_error_Some. congruence.
Qed.

(** X19.  [gameState.isJumping] is never set in a run of the game, so the
    gravity branch of [playerUpdate] never runs there: a call returns the
    game state and the runtime it was given and leaves the player's height,
    its [userData], the playing clip and the record of clips played as
    they were. *)
Theorem playerUpdate_leaves_height_alone pb cb (loaded : option (list string))
  (r : RandomSource) (evs : list GameCanvas.Event) (delta : Q) :
  let c := GameCanvas.run pb cb evs (GameCanvas.mounted loaded r) in
  isJumping (GameCanvas.gameState c) = false /\
  forall pm, GameCanvas.playerRef c = Some pm ->
    let u := Player.playerUpdate delta (GameCanvas.gameState c)
                                 (GameCanvas.runtime c) pm in
    snd u = GameCanvas.gameState c /\
    fst (fst u) = GameCanvas.runtime c /\
    y (position (Player.player (snd (fst u))))
    = y (position (Player.player pm)) /\
    userData (Player.player (snd (fst u))) = userData (Player.player pm) /\
    Player.currentAnimation (snd (fst u)) = Player.currentAnimation pm /\
    Player.played (snd (fst u)) = Player.played pm.
Proof.
  cbv zeta.
  pose proof (run_Steady pb cb evs _ (mounted_Steady loaded r)) as H.
  unfold Steady, control in H. cbn [steady] in H.
  destruct H as ((_ & _ & _ & _ & _ & _ & _ & still) & _).
  split; [exact still|]. intros pm ref.
  unfold Player.playerUpdate. rewrite still. cbn. repeat split.
Qed.
Lemma unplayable_request_state name ms cb c :
  GameCanvas.isAnimatingRef c = false ->
  GameCanvas.animationQueueRef c = [] ->
  GameCanvas.timers c = [] ->
  (forall pm, GameCanvas.playerRef c = Some pm -> Player.has_clip name pm = false) ->
  exists rt had,
    GameCanvas.playAndResetAnimation name ms cb c
    = GameCanvas.set_timers
        [{| GameCanvas.due := (GameCanvas.now c + ms)%Z;
            GameCanvas.request :=
              {| GameCanvas.animationName := name; GameCanvas.duration := ms;
                 GameCanvas.onComplete := cb |};
            GameCanvas.captured := had |}]
        (GameCanvas.set_playerRef (GameCanvas.playerRef c)
           (GameCanvas.set_runtime rt
              (GameCanvas.set_isAnimatingRef true
                 (GameCanvas.set_animationQueueRef [] c)))).
Proof.
  intros idle qu tm missing.
  unfold GameCanvas.playAndResetAnimation, GameCanvas.processQueue. fields.
  rewrite idle, qu. cbn [app List.length Nat.eqb orb]. cbv zeta. fields.
  unfold GameCanvas.playAnimation, GameCanvas.setTimeout. fields.
  cbn [GameCanvas.animationName GameCanvas.duration].
  destruct (GameCanvas.playerRef c) as [pm|] eqn:ref.
  - unfold Player.playAnimationFunc. rewrite (missing pm eq_refl). cbn [negb]. fields.
    rewrite tm. cbn [GameCanvas.enqueueTimer].
    destruct c; cbn in *. subst. do 2 eexists. reflexivity.
  - fields. rewrite tm. cbn [GameCanvas.enqueueTimer].
    exists (GameCanvas.runtime c). eexists.
    destruct c; cbn in *. subst. reflexivity.
Qed.

(** X20.  A request for a clip the model lacks still occupies the
    sequencer.  With the sequencer idle, the clip that plays does not
    change, yet [isAnimatingRef] is set, one timer for the full duration is
    pending, and a request made meanwhile waits in the queue without
    playing. *)
Theorem unplayable_request_still_takes_its_turn (name : string) (ms : Z)
  (cb : option GameCanvas.Callback) (c : GameCanvas.Component) :
  GameCanvas.isAnimatingRef c = false ->
  GameCanvas.animationQueueRef c = [] ->
  GameCanvas.timers c = [] ->
  (forall pm, GameCanvas.playerRef c = Some pm -> Player.has_clip name pm = false) ->
  let c1 := GameCanvas.playAndResetAnimation name ms cb c in
  nowPlaying c1 = nowPlaying c /\
  clipLog c1 = clipLog c /\
  GameCanvas.isAnimatingRef c1 = true /\
  GameCanvas.animationQueueRef c1 = [] /\
  (exists t, GameCanvas.timers c1 = [t] /\
             GameCanvas.due t = (GameCanvas.now c + ms)%Z /\
             GameCanvas.animationName (GameCanvas.request t) = name) /\
  (forall name' ms' cb',
     let c2 := GameCanvas.playAndResetAnimation name' ms' cb' c1 in
     nowPlaying c2 = nowPlaying c /\
     map GameCanvas.animationName (GameCanvas.animationQueueRef c2) = [name']).
Proof.
  intros idle qu tm missing. cbv zeta.
  destruct (unplayable_request_state name ms cb c idle qu tm missing)
    as (rt & had & ->).
  unfold nowPlaying, clipLog. fields.
  split; [reflexivity|]. split; [reflexivity|]. split; [reflexivity|].
  split; [reflexivity|]. split; [eexists; repeat split|].
  intros name' ms' cb'.
  unfold GameCanvas.playAndResetAnimation, GameCanvas.processQueue. fields.
  split; reflexivity.
Qed.
Lemma unplayable_request_still_takes_its_turn_witness :
  nowPlaying (GameCanvas.playAndResetAnimation "roll" 1190 None runClipOnly)
  = Some "run"%string /\
  GameCanvas.isAnimatingRef
    (GameCanvas.playAndResetAnimation "roll" 1190 None runClipOnly) = true.
Proof.
  destruct (unplayable_request_still_takes_its_turn "roll" 1190 None runClipOnly)
    as (now_ & _ & busy & _).
  - reflexivity.
  - reflexivity.
  - reflexivity.
  - intros pm ref. injection ref as <-. reflexivity.
  - split; [rewrite now_; reflexivity | exact busy].
Defined.

(** ** A barrier in the player's lane *)

Lemma updateObstacles_moved {U C} (pl : Object3D U) gs (cb : C -> C) rt m s b :
  In b (Obstacles.barriers m) ->
  z (position b) + speed gs * 2 <= 10 ->
  In (set_position b {| x := x (position b); y := y (position b);
                        z := z (position b) + speed gs * 2 |})
     (Obstacles.barriers
        (snd (fst (Obstacles.updateObstacles (Some pl) gs cb rt m s)))).
Proof.
  intros mem near. unfold Obstacles.updateObstacles.
  set (e0 := {| Obstacles.runtime := rt; Obstacles.cursor := Obstacles.barrierState m;
                Obstacles.log := Obstacles.spawned m; Obstacles.caller := s |}).
  destruct (forEach_In (Obstacles.visit pl (speed gs * 2) cb) _ _ mem e0) as [e' among].
  rewrite visit_fst in among.
  assert (moved : fst (Obstacles.advance (speed gs * 2) e' b)
                  = set_position b {| x := x (position b); y := y (position b);
                                      z := z (position b) + speed gs * 2 |}).
  { unfold Obstacles.advance. cbn [z].
    replace (gt (z (position b) + speed gs * 2) 10) with false; [reflexivity|].
    symmetry. apply gt_false. exact near. }
  rewrite moved in among.
  destruct (forEach _ e0 _) as [bs e]. exact among.
Qed.

Lemma iter_updateUI_obstacles n c :
  GameCanvas.obstacles (Nat.iter n GameCanvas.updateUI c) = GameCanvas.obstacles c.
Proof.
  induction n as [|n IH]; [reflexivity|]. cbn [Nat.iter nat_rect]. exact IH.
Qed.

Lemma iter_updateUI_active n c :
  GameCanvas.gameActiveRef (Nat.iter n GameCanvas.updateUI c)
  = GameCanvas.gameActiveRef c.
Proof.
  induction n as [|n IH]; [reflexivity|]. cbn [Nat.iter nat_rect]. exact IH.
Qed.

(** The lane slots are the lane centres shifted by one. *)
Lemma lane_slot (l : Z) (bx : Q) :
  (-1 <= l <= 1)%Z ->
  index Obstacles.LANE_OFFSETS (l + 1) = Some bx ->
  bx == inject_Z l * 4 + 1.
Proof.
  intros range slot_.
  assert (l = -1 \/ l = 0 \/ l = 1)%Z as [-> | [-> | ->]] by lia;
    cbn in slot_; injection slot_ as <-; reflexivity.
Qed.

Lemma iter_updateUI_shape n c :
  Nat.iter n GameCanvas.updateUI c
  = GameCanvas.set_renders (n + GameCanvas.renders c) c.
Proof.
  induction n as [|n IH].
  - destruct c; reflexivity.
  - rewrite Nat.iter_succ, IH. destruct c; reflexivity.
Qed.

Lemma animate_facing pb cb rendered delta s c b :
  0 < s -> s <= 2.7 ->
  GameCanvas.gameActiveRef c = true ->
  facing s c b ->
  let c' := GameCanvas.animate pb cb rendered delta c in
  GameCanvas.gameActiveRef c' = false \/
  z (position b) + s < -1.2 /\
  exists b', z (position b') == z (position b) + s /\ facing s c' b'.
Proof.
  intros s_pos s_small on
    (ground & still & dist & range & sp & (pm & ref & px & py & pz)
     & mem & slot_ & by_ & bz).
  cbv zeta. pose proof (lane_slot _ _ range slot_) as bx.
  assert (target : inject_Z (currentLane (GameCanvas.gameState c))
                   * laneDistance (GameCanvas.gameState c)
                   == inject_Z (currentLane (GameCanvas.gameState c)) * 4)
    by (rewrite dist; reflexivity).
  unfold GameCanvas.animate. rewrite on.
  unfold GameCanvas.updatePlayer. rewrite ref, ground. cbv zeta. rewrite ref.
  unfold Player.playerUpdate. rewrite still. cbv zeta.
  fields. cbn [option_map].
  match goal with
  | |- context [Obstacles.updateObstacles (Some ?pl) ?gs ?f ?rt ?m ?s0] =>
      set (c2 := s0) in *; set (pl1 := pl) in *;
      pose proof (updateObstacles_caller pl1 gs f rt m c2) as count;
      assert (near : z (position b) + speed gs * 2 <= 10) by lra;
      pose proof (updateObstacles_moved pl1 gs f rt m c2 b mem near) as moved;
      destruct (Obstacles.updateObstacles (Some pl1) gs f rt m c2)
        as [[rt1 om1] c3]
  end.
  cbv zeta in count. cbn [fst snd] in count, moved.
  set (b1 := set_position b {| x := x (position b); y := y (position b);
                               z := z (position b)
                                    + speed (GameCanvas.gameState c) * 2 |}) in *.
  destruct (List.length (filter (Obstacles.hits pl1) (Obstacles.barriers om1)))
    as [|k] eqn:hitting.
  - (* no barrier met the player in this frame *)
    right. cbn [Nat.iter nat_rect] in count. subst c3.
    assert (away : z (position b) + s < -1.2).
    { destruct (Qlt_le_dec (z (position b) + s) (-1.2)) as [? | close];
        [assumption | exfalso].
      assert (hit : Obstacles.hits pl1 b1 = true).
      { apply hits_spec. subst pl1 b1. fields. repeat split; lra. }
      assert (inside : In b1 (filter (Obstacles.hits pl1) (Obstacles.barriers om1)))
        by (apply filter_In; split; assumption).
      destruct (filter _ _); [destruct inside | discriminate hitting]. }
    split; [exact away|]. exists b1. split; [subst b1; fields; lra|].
    subst c2. fields. cbn [option_map].
    match goal with
    | |- context [Coins.updateCoins pb cb (Some ?pl) ?gs ?ui delta ?rt ?cm ?c4] =>
        destruct (updateCoins_effect pb cb pl gs ui delta rt cm c4)
          as (n & _ & eg & ec & _);
        destruct (Coins.updateCoins pb cb (Some pl) gs ui delta rt cm c4)
          as [[[rt5 cm5] g5] c5]
    end.
    cbn [fst snd] in eg, ec. subst g5 c5. rewrite iter_updateUI_shape.
    unfold facing. fields.
    cbn [isJumping laneDistance currentLane speed set_coinCount].
    repeat split; try assumption; try apply range.
    + eexists. split; [reflexivity|]. fields. subst pl1. fields.
      repeat split; try assumption. lra.
    + subst b1. fields. lra.
  - (* some barrier did *)
    left. subst c3.
    match goal with
    | |- context [Nat.iter (S k) GameCanvas.onCollision ?c4] =>
        destruct (iter_onCollision k c4) as [K1 K2];
        set (c5 := Nat.iter (S k) GameCanvas.onCollision c4) in *
    end.
    fields.
    match goal with
    | |- context [Coins.updateCoins pb cb ?pl ?gs ?ui delta ?rt ?cm ?c6] =>
        pose proof (updateCoins_over pb cb pl delta rt cm gs c6) as K;
        destruct (Coins.updateCoins pb cb pl gs ui delta rt cm c6)
          as [[[rt7 cm7] g7] c7]
    end.
    cbn [fst snd] in K. fields. apply K.
    + destruct c5; exact K1.
    + exact K2.
Qed.

Lemma archimedes (a s : Q) :
  0 < s -> exists n : nat, a < inject_Z (Z.of_nat n) * s.
Proof.
  intros pos. exists (Z.to_nat (Qfloor (a / s) + 1)).
  pose proof (Qlt_floor (a / s)) as above.
  assert (grow : inject_Z (Qfloor (a / s) + 1)
                 <= inject_Z (Z.of_nat (Z.to_nat (Qfloor (a / s) + 1))))
    by (rewrite <- Zle_Qle; lia).
  assert (E : a == a / s * s) by (field; lra).
  rewrite E at 1. apply Qmult_lt_compat_r; [exact pos | lra].
Qed.

Lemma approach_S pb cb n rendered delta c :
  GameCanvas.run pb cb (approach (S n) rendered delta) c
  = GameCanvas.run pb cb (approach n rendered delta)
      (GameCanvas.animate pb cb rendered delta c).
Proof. reflexivity. Qed.

Lemma approach_ends pb cb rendered delta s :
  0 < s -> s <= 2.7 ->
  forall fuel c b,
    facing s c b ->
    -1.2 - z (position b) < inject_Z (Z.of_nat fuel) * s ->
    exists n,
      GameCanvas.gameActiveRef
        (GameCanvas.run pb cb (approach n rendered delta) c) = false.
Proof.
  intros s_pos s_small. induction fuel as [|fuel IH]; intros c b F far;
    (destruct (GameCanvas.gameActiveRef c) eqn:on; [|exists O; exact on]);
    destruct (animate_facing pb cb rendered delta s c b s_pos s_small on F)
      as [over | (away & b' & zb' & F')];
    try (exists 1%nat; exact over).
  - exfalso. change (inject_Z (Z.of_nat 0)) with 0 in far. lra.
  - destruct (IH _ b' F') as [n H].
    + rewrite inject_S in far. lra.
    + exists (S n). rewrite approach_S. exact H.
Qed.

(** X24.  No barrier slips past a player who stands still.  When a
    grounded player stays on the centre of its lane and a barrier of that
    lane is ahead, not yet carried past the player by the next step, then
    a finite number of frames without input brings [gameActiveRef] down,
    for every scroll step [s] (twice the speed) with [0 < s <= 2.7], the
    depth of the collision window. *)
Theorem standing_still_ends_the_game pb cb (rendered : GameState)
  (delta s : Q) (c : GameCanvas.Component) (b : Obstacles.Barrier) :
  0 < s -> s <= 2.7 ->
  facing s c b ->
  exists n,
    GameCanvas.gameActiveRef
      (GameCanvas.run pb cb (approach n rendered delta) c) = false.
Proof.
  intros s_pos s_small F.
  destruct (archimedes (-1.2 - z (position b)) s s_pos) as [fuel far].
  exact (approach_ends pb cb rendered delta s s_pos s_small fuel c b F far).
Qed.
Lemma standing_still_ends_the_game_witness :
  exists n,
    GameCanvas.gameActiveRef
      (GameCanvas.run bodyBox coinBox
         (approach n defaultGameState (1 # 60)) farAway) = false.
Proof.
  apply (standing_still_ends_the_game bodyBox coinBox defaultGameState
           (1 # 60) 0.6 farAway (midBarrier (-40))).
  - reflexivity.
  - vm_compute. discriminate.
  - unfold facing. cbn.
    repeat split; try reflexivity; try lia; try (left; reflexivity);
      try (vm_compute; discriminate).
    eexists. split; [reflexivity|]. cbn. repeat split; reflexivity.
Defined.

(** ** Environment.js *)

Lemma adjust_length f r objs :
  List.length (Environment.adjust f r objs) = List.length objs.
Proof.
  revert r. induction objs as [|o rest IH]; intros [|k]; cbn; auto.
Qed.

Lemma adjust_lookup f r objs j :
  nth_error (Environment.adjust f r objs) j
  = if Nat.eqb j r then option_map f (nth_error objs j) else nth_error objs j.
Proof.
  revert r j. induction objs as [|o rest IH]; intros r j.
  - destruct r, j; cbn; try reflexivity; destruct (Nat.eqb _ _); reflexivity.
  - destruct r as [|r], j as [|j]; cbn; try reflexivity. apply IH.
Qed.

Lemma forEachRef_length f refs : forall objs,
  List.length (Environment.forEachRef f refs objs) = List.length objs.
Proof.
  unfold Environment.forEachRef.
  induction refs as [|r refs IH]; intros objs; cbn [fold_left]; [reflexivity|].
  rewrite IH. apply adjust_length.
Qed.

(** A traversal of distinct references visits each object it refers to
    once and leaves the others alone. *)
Lemma forEachRef_lookup f refs : NoDup refs -> forall objs j,
  nth_error (Environment.forEachRef f refs objs) j
  = if existsb (Nat.eqb j) refs then option_map f (nth_error objs j)
    else nth_error objs j.
Proof.
  unfold Environment.forEachRef.
  induction 1 as [|r refs fresh _ IH]; intros objs j; cbn [fold_left existsb];
    [reflexivity|].
  rewrite IH, adjust_lookup.
  destruct (Nat.eqb j r) eqn:E; cbn [orb]; [|reflexivity].
  apply Nat.eqb_eq in E. subst j.
  destruct (existsb (Nat.eqb r) refs) eqn:dup; [|reflexivity].
  exfalso. apply fresh. apply existsb_exists in dup.
  destruct dup as (k & mem & eq). apply Nat.eqb_eq in eq. subst k. exact mem.
Qed.

Lemma forEach_lookup {A E} (f : E -> A -> A * E) xs : forall e j a',
  nth_error (fst (forEach f e xs)) j = Some a' ->
  exists e' a, nth_error xs j = Some a /\ a' = fst (f e' a).
Proof.
  induction xs as [|a xs IH]; intros e j a' H; cbn [forEach] in H.
  - destruct j; discriminate H.
  - destruct (f e a) as [a1 e1] eqn:F.
    specialize (IH e1). destruct (forEach f e1 xs) as [xs' e2].
    cbn [fst] in *. destruct j as [|j]; cbn [nth_error] in *.
    + injection H as <-. exists e, a. rewrite F. auto.
    + apply IH, H.
Qed.

Lemma existsb_In j refs : existsb (Nat.eqb j) refs = true <-> In j refs.
Proof.
  rewrite existsb_exists. split.
  - intros (k & mem & eq). apply Nat.eqb_eq in eq. subst. exact mem.
  - intros mem. exists j. split; [exact mem | apply Nat.eqb_refl].
Qed.

Lemma updateEnvironment_arrays gs rt m :
  let m' := snd (Environment.updateEnvironment gs rt m) in
  Environment.roadSegments m' = Environment.roadSegments m /\
  Environment.leftBuildings m' = Environment.leftBuildings m /\
  Environment.rightBuildings m' = Environment.rightBuildings m /\
  List.length (Environment.children m') = List.length (Environment.children m).
Proof.
  unfold Environment.updateEnvironment. cbv zeta.
  match goal with |- context [forEach ?f rt ?xs] =>
    pose proof (forEach_length f xs rt) as len;
    destruct (forEach f rt xs) as [objs rt'] end.
  cbn [fst snd] in *. cbn. rewrite len, !forEachRef_length. auto.
Qed.

Lemma updateEnvironment_lookup gs rt m j o' :
  wellFormed m ->
  nth_error (Environment.children (snd (Environment.updateEnvironment gs rt m))) j
  = Some o' ->
  exists rt' o,
    nth_error (Environment.children m) j = Some o /\ o' = passage gs m j rt' o.
Proof.
  intros [distinct _]. unfold scenery in distinct.
  pose proof (NoDup_app_remove_r _ _ distinct) as d1.
  pose proof (NoDup_app_remove_l _ _ distinct) as d23.
  pose proof (NoDup_app_remove_r _ _ d23) as d2.
  pose proof (NoDup_app_remove_l _ _ d23) as d3.
  unfold Environment.updateEnvironment. cbv zeta.
  match goal with |- context [forEach ?f rt ?xs] =>
    pose proof (forEach_lookup f xs rt j o') as look;
    destruct (forEach f rt xs) as [objs rt'] end.
  cbn [fst snd Environment.children] in *. intros H.
  destruct (look H) as (rt1 & o3 & at3 & ->). clear look H.
  rewrite (forEachRef_lookup _ _ d3), (forEachRef_lookup _ _ d2),
          (forEachRef_lookup _ _ d1) in at3.
  destruct (nth_error (Environment.children m) j) as [o|] eqn:at0.
  - exists rt1, o. split; [reflexivity|]. unfold passage, shifted. cbv zeta.
    destruct (existsb _ (Environment.roadSegments m));
    destruct (existsb _ (Environment.leftBuildings m));
    destruct (existsb _ (Environment.rightBuildings m));
      cbn [option_map] in at3; injection at3 as <-; reflexivity.
  - exfalso.
    destruct (existsb _ (Environment.roadSegments m));
    destruct (existsb _ (Environment.leftBuildings m));
    destruct (existsb _ (Environment.rightBuildings m));
      cbn [option_map] in at3; discriminate at3.
Qed.

Ltac envfields :=
  cbn [Environment.name Environment.position Environment.set_z
       Environment.set_x Environment.children Environment.roadSegments
       Environment.leftBuildings Environment.rightBuildings
       x y z fst snd] in *.

Lemma num_nonneg i : 0 <= Environment.num i.
Proof.
  unfold Environment.num. change 0 with (inject_Z 0). rewrite <- Zle_Qle. lia.
Qed.

Lemma num_pos i : (1 <= i)%nat -> 1 <= Environment.num i.
Proof.
  intros H. unfold Environment.num. change 1 with (inject_Z 1).
  rewrite <- Zle_Qle. lia.
Qed.

Lemma randomX_range rt :
  -75 <= fst (Environment.randomX rt) /\ fst (Environment.randomX rt) < 75.
Proof.
  unfold Environment.randomX. pose proof (draw_range rt) as [lo hi].
  destruct (draw rt) as [u rt']. cbn [fst] in *. split; lra.
Qed.

(** *** One object in one call *)

Lemma moveRoad_keeps s n o :
  Environment.name (Environment.moveRoad s n o) = Environment.name o /\
  x (Environment.position (Environment.moveRoad s n o))
  = x (Environment.position o) /\
  y (Environment.position (Environment.moveRoad s n o))
  = y (Environment.position o).
Proof.
  unfold Environment.moveRoad. cbv zeta. destruct (gt _ 50); cbn; auto.
Qed.

Lemma moveBuilding_keeps s o :
  Environment.name (Environment.moveBuilding s o) = Environment.name o /\
  x (Environment.position (Environment.moveBuilding s o))
  = x (Environment.position o) /\
  y (Environment.position (Environment.moveBuilding s o))
  = y (Environment.position o).
Proof.
  unfold Environment.moveBuilding. cbv zeta. destruct (gt _ 50); cbn; auto.
Qed.

Lemma moveCloud_keeps s rt o :
  Environment.name (fst (Environment.moveCloud s rt o)) = Environment.name o /\
  y (Environment.position (fst (Environment.moveCloud s rt o)))
  = y (Environment.position o).
Proof.
  unfold Environment.moveCloud. cbv zeta. destruct (Environment.isCloud o).
  - destruct (gt _ 50); [destruct (Environment.randomX rt)|]; cbn; auto.
  - cbn. auto.
Qed.

Lemma moveCloud_plain s rt o :
  Environment.isCloud o = false -> fst (Environment.moveCloud s rt o) = o.
Proof. intros plain. unfold Environment.moveCloud. rewrite plain. reflexivity. Qed.

Lemma isCloud_name a b :
  Environment.name a = Environment.name b ->
  Environment.isCloud a = Environment.isCloud b.
Proof. unfold Environment.isCloud. intros ->. reflexivity. Qed.

Lemma moveRoad_behind s n o :
  s <= 800 -> (1 <= n)%nat -> behindCamera o ->
  behindCamera (Environment.moveRoad s n o).
Proof.
  unfold behindCamera, Environment.moveRoad. intros slow some back. cbv zeta.
  pose proof (num_pos n some).
  destruct (gt _ 50) eqn:far; envfields.
  - lra.
  - apply gt_false in far. envfields. exact far.
Qed.

Lemma moveBuilding_behind s o :
  s <= 800 -> behindCamera o -> behindCamera (Environment.moveBuilding s o).
Proof.
  unfold behindCamera, Environment.moveBuilding. intros slow back. cbv zeta.
  destruct (gt _ 50) eqn:far; envfields.
  - lra.
  - apply gt_false in far. envfields. exact far.
Qed.

Lemma moveCloud_behind s rt o :
  s <= 800 -> behindCamera o ->
  behindCamera (fst (Environment.moveCloud s rt o)).
Proof.
  unfold behindCamera, Environment.moveCloud. intros slow back. cbv zeta.
  destruct (Environment.isCloud o); [|exact back].
  destruct (gt _ 50) eqn:far.
  - destruct (Environment.randomX rt) as [px rt']. envfields.
    assert (E : s / 4 == s * (1 # 4)) by (field). lra.
  - apply gt_false in far. envfields. exact far.
Qed.

Lemma moveBuilding_z s a b :
  z (Environment.position a) = z (Environment.position b) ->
  z (Environment.position (Environment.moveBuilding s a))
  = z (Environment.position (Environment.moveBuilding s b)).
Proof.
  unfold Environment.moveBuilding. cbv zeta. envfields. intros ->.
  destruct (gt _ 50); reflexivity.
Qed.

Lemma moveCloud_z s rt1 rt2 a b :
  Environment.name a = Environment.name b ->
  z (Environment.position a) = z (Environment.position b) ->
  z (Environment.position (fst (Environment.moveCloud s rt1 a)))
  = z (Environment.position (fst (Environment.moveCloud s rt2 b))).
Proof.
  intros nm zz. unfold Environment.moveCloud. cbv zeta.
  rewrite (isCloud_name a b nm). destruct (Environment.isCloud b); [|exact zz].
  envfields. rewrite zz. destruct (gt _ 50).
  - destruct (Environment.randomX rt1), (Environment.randomX rt2). reflexivity.
  - reflexivity.
Qed.

Lemma moveCloud_sky s rt o :
  inTheSky o -> inTheSky (fst (Environment.moveCloud s rt o)).
Proof.
  unfold inTheSky, Environment.moveCloud. intros sky. cbv zeta.
  destruct (Environment.isCloud o); [|exact sky].
  destruct (gt _ 50); [|exact sky].
  pose proof (randomX_range rt) as [lo hi].
  destruct (Environment.randomX rt) as [px rt']. envfields. tauto.
Qed.

Lemma shifted_keeps gs m j o :
  Environment.name (shifted gs m j o) = Environment.name o /\
  x (Environment.position (shifted gs m j o)) = x (Environment.position o) /\
  y (Environment.position (shifted gs m j o)) = y (Environment.position o).
Proof.
  unfold shifted. cbv zeta.
  destruct (existsb _ (Environment.rightBuildings m));
  destruct (existsb _ (Environment.leftBuildings m));
  destruct (existsb _ (Environment.roadSegments m));
    repeat match goal with
    | |- context [Environment.moveBuilding ?s ?o] =>
        destruct (moveBuilding_keeps s o) as (-> & -> & ->)
    | |- context [Environment.moveRoad ?s ?n ?o] =>
        destruct (moveRoad_keeps s n o) as (-> & -> & ->)
    end; auto.
Qed.

Lemma passage_name gs m j rt o :
  Environment.name (passage gs m j rt o) = Environment.name o.
Proof.
  unfold passage. rewrite (proj1 (moveCloud_keeps _ _ _)).
  apply shifted_keeps.
Qed.

Lemma passage_isCloud gs m j rt o :
  Environment.isCloud (passage gs m j rt o) = Environment.isCloud o.
Proof. apply isCloud_name, passage_name. Qed.

Lemma passage_behind gs m j rt o :
  speed gs <= 400 -> behindCamera o -> behindCamera (passage gs m j rt o).
Proof.
  intros slow back. assert (s800 : speed gs * 2 <= 800) by lra.
  unfold passage. apply moveCloud_behind; [exact s800|].
  unfold shifted. cbv zeta.
  assert (B1 : behindCamera
                 (if existsb (Nat.eqb j) (Environment.roadSegments m)
                  then Environment.moveRoad (speed gs * 2)
                         (List.length (Environment.roadSegments m)) o
                  else o)).
  { destruct (existsb _ (Environment.roadSegments m)) eqn:mem; [|exact back].
    apply moveRoad_behind; [exact s800 | | exact back].
    apply existsb_In in mem.
    destruct (Environment.roadSegments m); [destruct mem | cbn; lia]. }
  destruct (existsb _ (Environment.rightBuildings m));
  destruct (existsb _ (Environment.leftBuildings m));
    repeat apply moveBuilding_behind; assumption.
Qed.

(** *** References stay distinct and valid *)

Lemma lookup_snoc {A} (xs : list A) (a : A) j b :
  nth_error (xs ++ [a]) j = Some b ->
  (j < List.length xs)%nat /\ nth_error xs j = Some b \/
  j = List.length xs /\ b = a.
Proof.
  intros H. destruct (Nat.lt_ge_cases j (List.length xs)) as [inside | beyond].
  - rewrite nth_error_app1 in H by exact inside. auto.
  - rewrite nth_error_app2 in H by exact beyond.
    destruct (j - List.length xs)%nat as [|k] eqn:E; cbn in H.
    + injection H as <-. right. split; [lia | reflexivity].
    + destruct k; discriminate H.
Qed.

Lemma lookup_old {A} (xs ys : list A) j a :
  nth_error xs j = Some a -> nth_error (xs ++ ys) j = Some a.
Proof.
  intros H. rewrite nth_error_app1; [exact H|].
  apply nth_error_Some. congruence.
Qed.

Lemma NoDup_insert {A} (l1 l2 : list A) a :
  NoDup (l1 ++ l2) -> ~ In a (l1 ++ l2) -> NoDup (l1 ++ a :: l2).
Proof. intros nd fresh. apply (NoDup_Add (Add_app a l1 l2)). auto. Qed.

Lemma NoDup_apart {A} (l1 l2 : list A) a :
  NoDup (l1 ++ l2) -> In a l1 -> ~ In a l2.
Proof.
  induction l1 as [|b l1 IH]; intros nd mem; [destruct mem|].
  cbn in nd. inversion nd as [|? ? fresh nd']; subst.
  destruct mem as [-> | mem]; [|apply IH; assumption].
  intros there. apply fresh, in_or_app. auto.
Qed.

Lemma fresh_reference m :
  wellFormed m -> ~ In (List.length (Environment.children m)) (scenery m).
Proof.
  intros [_ valid] mem. rewrite Forall_forall in valid.
  specialize (valid _ mem). lia.
Qed.

Lemma valid_weaken (refs : list nat) n k :
  (n <= k)%nat -> Forall (fun r => (r < n)%nat) refs ->
  Forall (fun r => (r < k)%nat) refs.
Proof. intros le. apply Forall_impl. intros r H. lia. Qed.

Lemma roadLoaded_wellFormed i model m :
  wellFormed m -> wellFormed (Environment.roadLoaded i model m).
Proof.
  intros wf. pose proof (fresh_reference m wf) as fresh. destruct wf as [nd valid].
  unfold wellFormed, scenery, Environment.roadLoaded, Environment.add in *.
  envfields. rewrite <- app_assoc. cbn [app]. split.
  - apply NoDup_insert; assumption.
  - rewrite length_app. cbn [List.length].
    apply Forall_app. apply Forall_app in valid. destruct valid as [v1 v2].
    split; [|constructor; [lia|]]; eapply valid_weaken; try eassumption; lia.
Qed.

Lemma buildingLoaded_wellFormed i model m :
  wellFormed m -> wellFormed (Environment.buildingLoaded i model m).
Proof.
  intros wf. pose proof (fresh_reference m wf) as fresh. destruct wf as [nd valid].
  unfold wellFormed, scenery, Environment.buildingLoaded, Environment.add in *.
  envfields. rewrite !length_app in *. cbn [List.length] in *.
  set (n := List.length (Environment.children m)) in *.
  assert (valid2 : Forall (fun r => (r < n + 1 + 1)%nat)
                     (Environment.roadSegments m ++ Environment.leftBuildings m
                      ++ Environment.rightBuildings m))
    by (eapply valid_weaken; [|exact valid]; lia).
  replace (Environment.roadSegments m ++ (Environment.leftBuildings m ++ [n])
           ++ Environment.rightBuildings m ++ [(n + 1)%nat])
    with ((Environment.roadSegments m ++ Environment.leftBuildings m)
          ++ n :: (Environment.rightBuildings m ++ [(n + 1)%nat]))
    by (rewrite <- !app_assoc; reflexivity).
  assert (nd1 : NoDup ((Environment.roadSegments m ++ Environment.leftBuildings m)
                       ++ Environment.rightBuildings m ++ [(n + 1)%nat])).
  { replace ((Environment.roadSegments m ++ Environment.leftBuildings m)
             ++ Environment.rightBuildings m ++ [(n + 1)%nat])
      with ((Environment.roadSegments m ++ Environment.leftBuildings m
             ++ Environment.rightBuildings m) ++ (n + 1)%nat :: [])
      by (rewrite <- !app_assoc; reflexivity).
    apply NoDup_insert; rewrite app_nil_r; [exact nd|].
    intros mem. rewrite Forall_forall in valid. specialize (valid _ mem). lia. }
  split.
  - apply NoDup_insert; [exact nd1|].
    rewrite <- app_assoc, !in_app_iff. rewrite !in_app_iff in fresh.
    cbn [In]. intros [H | [H | [H | [H | []]]]]; try tauto. lia.
  - apply Forall_forall. intros r mem. rewrite Forall_forall in valid2.
    assert (C : In r (Environment.roadSegments m ++ Environment.leftBuildings m
                      ++ Environment.rightBuildings m)
                \/ n = r \/ (n + 1)%nat = r).
    { rewrite !in_app_iff in *. cbn [In] in mem. rewrite in_app_iff in mem.
      cbn [In] in mem. tauto. }
    destruct C as [old | [<- | <-]]; [apply valid2, old | lia | lia].
Qed.

Lemma cloudLoaded_wellFormed i rt m :
  wellFormed m -> wellFormed (snd (Environment.cloudLoaded i rt m)).
Proof.
  intros [nd valid]. unfold Environment.cloudLoaded.
  destruct (Environment.randomX rt) as [px rt1]. destruct (draw rt1) as [u rt2].
  unfold wellFormed, scenery, Environment.add in *. envfields.
  split; [exact nd|]. rewrite length_app. cbn [List.length].
  eapply valid_weaken; [|exact valid]. lia.
Qed.

Lemma updateEnvironment_wellFormed gs rt m :
  wellFormed m -> wellFormed (snd (Environment.updateEnvironment gs rt m)).
Proof.
  intros wf. destruct (updateEnvironment_arrays gs rt m) as (e1 & e2 & e3 & len).
  unfold wellFormed, scenery in *. rewrite e1, e2, e3, len. exact wf.
Qed.

Lemma step_wellFormed s ev :
  wellFormed (snd s) -> wellFormed (snd (Environment.step s ev)).
Proof.
  destruct s as [rt m]. cbn [snd]. intros wf.
  destruct ev; cbn [Environment.step snd]; try exact wf.
  - apply roadLoaded_wellFormed, wf.
  - apply buildingLoaded_wellFormed, wf.
  - apply cloudLoaded_wellFormed, wf.
  - apply updateEnvironment_wellFormed, wf.
Qed.

Lemma initEnvironment_wellFormed : wellFormed Environment.initEnvironment.
Proof. split; cbn; constructor. Qed.

(** An invariant of well-formed states that every admitted event keeps
    holds after every run of admitted events. *)
Lemma run_invariant (I : Environment.Module_ -> Prop)
  (admitted : Environment.Event -> Prop) :
  I Environment.initEnvironment ->
  (forall s ev, admitted ev -> wellFormed (snd s) -> I (snd s) ->
                I (snd (Environment.step s ev))) ->
  forall evs rt, Forall admitted evs -> I (snd (Environment.run evs rt)).
Proof.
  intros base keep evs rt. unfold Environment.run.
  assert (G : forall s, wellFormed (snd s) -> I (snd s) ->
                        Forall admitted evs ->
                        I (snd (fold_left Environment.step evs s))).
  { induction evs as [|ev evs IH]; intros s wf inv ok; [exact inv|].
    inversion ok; subst. cbn [fold_left].
    apply IH; [apply step_wellFormed, wf | apply keep; assumption | assumption]. }
  intros ok. apply G; [exact initEnvironment_wellFormed | exact base | exact ok].
Qed.

(** *** Everything that scrolls stays behind z = 50 *)

Lemma Behind_extend m m' o :
  Environment.children m' = Environment.children m ++ [o] ->
  (forall j, In j (scenery m') ->
     In j (scenery m) \/ j = List.length (Environment.children m)) ->
  behindCamera o -> Behind m -> Behind m'.
Proof.
  intros ch refs back inv j o' look moving. rewrite ch in look.
  destruct (lookup_snoc _ _ _ _ look) as [[inside old] | [-> ->]]; [|exact back].
  apply (inv j o' old). destruct moving as [mem | cloud]; [|auto].
  destruct (refs j mem) as [? | ->]; [auto | lia].
Qed.

Lemma loaded_behind (i : nat) (base step_ : Q) :
  base <= 50 -> 0 <= step_ -> base - Environment.num i * step_ <= 50.
Proof.
  intros b s. pose proof (num_nonneg i).
  assert (0 <= Environment.num i * step_) by (apply Qmult_le_0_compat; assumption).
  lra.
Qed.

Lemma step_Behind s ev :
  unhurried ev -> wellFormed (snd s) -> Behind (snd s) ->
  Behind (snd (Environment.step s ev)).
Proof.
  destruct s as [rt m]. cbn [snd]. intros slow wf inv.
  destruct ev; cbn [Environment.step snd]; try exact inv.
  - unfold Environment.roadLoaded, Environment.add. cbv beta iota zeta.
    eapply Behind_extend; [reflexivity | | | exact inv].
    + unfold scenery. envfields.
      intros j. rewrite !in_app_iff. cbn [In]. intuition.
    + unfold behindCamera. envfields.
      assert (E : - Environment.num i * Environment.roadSpacing
                  == 0 - Environment.num i * 800)
        by (unfold Environment.roadSpacing; ring).
      rewrite E. apply loaded_behind; lra.
  - set (m1 := {| Environment.children :=
                    Environment.children m
                    ++ [{| Environment.name := model;
                           Environment.position :=
                             {| x := -20; y := 0;
                                z := Environment.startZ
                                     - Environment.num i
                                       * Environment.buildingSpacing |} |}];
                  Environment.roadSegments := Environment.roadSegments m;
                  Environment.leftBuildings :=
                    Environment.leftBuildings m
                    ++ [List.length (Environment.children m)];
                  Environment.rightBuildings := Environment.rightBuildings m |}).
    assert (far : forall px,
              behindCamera
                {| Environment.name := model;
                   Environment.position :=
                     {| x := px; y := 0;
                        z := Environment.startZ
                             - Environment.num i * Environment.buildingSpacing |} |}).
    { intros px. unfold behindCamera. envfields.
      apply loaded_behind; unfold Environment.startZ, Environment.buildingSpacing; lra. }
    assert (inv1 : Behind m1).
    { eapply Behind_extend; [reflexivity | | apply far | exact inv].
      unfold scenery, m1. envfields.
      intros j. rewrite !in_app_iff. cbn [In]. intuition. }
    unfold Environment.buildingLoaded, Environment.add. cbv beta iota zeta.
    envfields.
    eapply (Behind_extend m1); [reflexivity | | apply far | exact inv1].
    unfold scenery, m1. envfields.
    intros j. rewrite !in_app_iff. cbn [In]. intuition.
  - unfold Environment.cloudLoaded.
    destruct (Environment.randomX rt) as [px rt1]. destruct (draw rt1) as [u rt2].
    unfold Environment.add. cbn [snd].
    eapply Behind_extend; [reflexivity | | | exact inv].
    + unfold scenery. envfields. auto.
    + unfold behindCamera. envfields.
      apply loaded_behind; unfold Environment.cloudDepth, Environment.cloudSpacing; lra.
  - cbn [unhurried] in slow. intros j o' look moving.
    destruct (updateEnvironment_lookup _ _ _ _ _ wf look) as (rt' & o & old & ->).
    destruct (updateEnvironment_arrays gameState rt m) as (e1 & e2 & e3 & _).
    unfold scenery in moving. rewrite e1, e2, e3, passage_isCloud in moving.
    apply passage_behind; [exact slow|]. apply (inv j o old moving).
Qed.

Lemma initEnvironment_Behind : Behind Environment.initEnvironment.
Proof.
  intros j o look [mem | cloud]; [destruct mem|].
  apply nth_error_In in look. cbn in look.
  repeat (destruct look as [<- | look]; [discriminate cloud|]). destruct look.
Qed.

(** *** The two rows of buildings *)

Lemma Paired_grow m m' added :
  Environment.children m' = Environment.children m ++ added ->
  Environment.leftBuildings m' = Environment.leftBuildings m ->
  Environment.rightBuildings m' = Environment.rightBuildings m ->
  Paired m -> Paired m'.
Proof.
  intros ch el er [len pairs]. split; [congruence|].
  rewrite el, er, ch. intros k l r Hl Hr.
  destruct (pairs k l r Hl Hr) as (a & b & la & lb & rest).
  exists a, b. split; [apply lookup_old, la|]. split; [apply lookup_old, lb|].
  exact rest.
Qed.

Lemma shifted_left gs m l a :
  wellFormed m -> In l (Environment.leftBuildings m) ->
  shifted gs m l a = Environment.moveBuilding (speed gs * 2) a.
Proof.
  intros [nd _] mem. unfold scenery in nd. unfold shifted. cbv zeta.
  destruct (existsb _ (Environment.roadSegments m)) eqn:e1.
  { exfalso. apply existsb_In in e1.
    apply (NoDup_apart _ _ l nd e1), in_or_app. auto. }
  apply NoDup_app_remove_l in nd.
  destruct (existsb _ (Environment.rightBuildings m)) eqn:e3.
  { exfalso. apply existsb_In in e3. apply (NoDup_apart _ _ l nd mem e3). }
  apply existsb_In in mem. rewrite mem. reflexivity.
Qed.

Lemma shifted_right gs m r b :
  wellFormed m -> In r (Environment.rightBuildings m) ->
  shifted gs m r b = Environment.moveBuilding (speed gs * 2) b.
Proof.
  intros [nd _] mem. unfold scenery in nd. unfold shifted. cbv zeta.
  destruct (existsb _ (Environment.roadSegments m)) eqn:e1.
  { exfalso. apply existsb_In in e1.
    apply (NoDup_apart _ _ r nd e1), in_or_app. auto. }
  apply NoDup_app_remove_l in nd.
  destruct (existsb _ (Environment.leftBuildings m)) eqn:e2.
  { exfalso. apply existsb_In in e2. apply (NoDup_apart _ _ r nd e2 mem). }
  apply existsb_In in mem. rewrite mem. reflexivity.
Qed.

Lemma updateEnvironment_present gs rt m j o :
  wellFormed m ->
  nth_error (Environment.children m) j = Some o ->
  exists rt',
    nth_error (Environment.children (snd (Environment.updateEnvironment gs rt m))) j
    = Some (passage gs m j rt' o).
Proof.
  intros wf old.
  destruct (updateEnvironment_arrays gs rt m) as (_ & _ & _ & len).
  destruct (nth_error (Environment.children
              (snd (Environment.updateEnvironment gs rt m))) j) as [o'|] eqn:look.
  - destruct (updateEnvironment_lookup _ _ _ _ _ wf look) as (rt' & o0 & old0 & ->).
    exists rt'. congruence.
  - exfalso. apply nth_error_None in look.
    assert (j < List.length (Environment.children m))%nat
      by (apply nth_error_Some; congruence).
    lia.
Qed.

Lemma step_Paired s ev :
  wellFormed (snd s) -> Paired (snd s) -> Paired (snd (Environment.step s ev)).
Proof.
  destruct s as [rt m]. cbn [snd]. intros wf inv.
  destruct ev; cbn [Environment.step snd]; try exact inv.
  - unfold Environment.roadLoaded, Environment.add. cbv beta iota zeta.
    eapply Paired_grow; [reflexivity | reflexivity | reflexivity | exact inv].
  - destruct inv as [len pairs].
    unfold Paired, Environment.buildingLoaded, Environment.add. envfields.
    rewrite !length_app. cbn [List.length]. split; [lia|].
    intros k l r Hl Hr.
    destruct (lookup_snoc _ _ _ _ Hl) as [[kl oldl] | [-> ->]];
    destruct (lookup_snoc _ _ _ _ Hr) as [[kr oldr] | [kr ->]]; try lia.
    + destruct (pairs k l r oldl oldr) as (a & b & la & lb & rest).
      exists a, b. rewrite <- app_assoc.
      split; [apply lookup_old, la|]. split; [apply lookup_old, lb|]. exact rest.
    + do 2 eexists. split; [|split; [|split]].
      * rewrite nth_error_app1 by (rewrite length_app; cbn; lia).
        rewrite nth_error_app2 by lia. rewrite Nat.sub_diag. reflexivity.
      * rewrite nth_error_app2 by (rewrite length_app; cbn; lia).
        rewrite length_app. cbn [List.length]. rewrite Nat.sub_diag. reflexivity.
      * reflexivity.
      * reflexivity.
  - unfold Environment.cloudLoaded.
    destruct (Environment.randomX rt) as [px rt1]. destruct (draw rt1) as [u rt2].
    unfold Environment.add. cbn [snd].
    eapply Paired_grow; [reflexivity | reflexivity | reflexivity | exact inv].
  - destruct inv as [len pairs].
    destruct (updateEnvironment_arrays gameState rt m) as (_ & e2 & e3 & _).
    unfold Paired. rewrite e2, e3. split; [exact len|].
    intros k l r Hl Hr.
    destruct (pairs k l r Hl Hr) as (a & b & la & lb & nm & zz).
    destruct (updateEnvironment_present gameState rt m l a wf la) as (rt1 & la').
    destruct (updateEnvironment_present gameState rt m r b wf lb) as (rt2 & lb').
    exists (passage gameState m l rt1 a), (passage gameState m r rt2 b).
    split; [exact la'|]. split; [exact lb'|].
    split; [rewrite !passage_name; exact nm|].
    unfold passage.
    rewrite (shifted_left _ _ _ _ wf (nth_error_In _ _ Hl)).
    rewrite (shifted_right _ _ _ _ wf (nth_error_In _ _ Hr)).
    apply moveCloud_z.
    + rewrite (proj1 (moveBuilding_keeps _ a)), (proj1 (moveBuilding_keeps _ b)).
      exact nm.
    + apply moveBuilding_z, zz.
Qed.

Lemma initEnvironment_Paired : Paired Environment.initEnvironment.
Proof. split; [reflexivity|]. intros [|k] l r H; discriminate H. Qed.

(** *** Scrolling changes z only *)

Lemma Rows_extend m m' o :
  wellFormed m ->
  Environment.children m' = Environment.children m ++ [o] ->
  (forall j, In j (Environment.roadSegments m') ->
     In j (Environment.roadSegments m) \/
     j = List.length (Environment.children m) /\ onLine (-8.8) o) ->
  (forall j, In j (Environment.leftBuildings m') ->
     In j (Environment.leftBuildings m) \/
     j = List.length (Environment.children m) /\ onLine (-20) o) ->
  (forall j, In j (Environment.rightBuildings m') ->
     In j (Environment.rightBuildings m) \/
     j = List.length (Environment.children m) /\ onLine 57 o) ->
  (Environment.isCloud o = true -> inTheSky o) ->
  Rows m -> Rows m'.
Proof.
  intros wf ch r1 r2 r3 sky inv j o' look. rewrite ch in look.
  pose proof (fresh_reference m wf) as fresh. unfold scenery in fresh.
  rewrite !in_app_iff in fresh.
  destruct (lookup_snoc _ _ _ _ look) as [[inside old] | [-> ->]].
  - destruct (inv j o' old) as (i1 & i2 & i3 & i4).
    split; [|split; [|split]]; [intros mem .. | exact i4].
    + destruct (r1 j mem) as [? | [-> _]]; [auto | lia].
    + destruct (r2 j mem) as [? | [-> _]]; [auto | lia].
    + destruct (r3 j mem) as [? | [-> _]]; [auto | lia].
  - split; [|split; [|split]]; [intros mem .. | exact sky].
    + destruct (r1 _ mem) as [? | [_ line]]; [tauto | exact line].
    + destruct (r2 _ mem) as [? | [_ line]]; [tauto | exact line].
    + destruct (r3 _ mem) as [? | [_ line]]; [tauto | exact line].
Qed.

Lemma plain_name model px py pz :
  prefix "cloud" model = false ->
  Environment.isCloud
    {| Environment.name := model;
       Environment.position := {| x := px; y := py; z := pz |} |} = false.
Proof.
  intros plain. unfold Environment.isCloud. envfields. rewrite plain.
  apply andb_false_r.
Qed.

Lemma snoc_In (refs : list nat) n j :
  In j (refs ++ [n]) -> In j refs \/ j = n.
Proof. rewrite in_app_iff. cbn [In]. intuition. Qed.

Lemma step_Rows s ev :
  plainModel ev -> wellFormed (snd s) -> Rows (snd s) ->
  Rows (snd (Environment.step s ev)).
Proof.
  destruct s as [rt m]. cbn [snd]. intros plain wf inv.
  destruct ev; cbn [Environment.step snd]; try exact inv.
  - cbn [plainModel] in plain.
    unfold Environment.roadLoaded, Environment.add. cbv beta iota zeta.
    eapply (Rows_extend m); [exact wf | reflexivity | | | | | exact inv];
      envfields; auto.
    + intros j mem. destruct (snoc_In _ _ _ mem) as [? | ->]; [auto|].
      right. split; [reflexivity|]. split; [apply plain_name, plain|]. auto.
    + intros cloud. rewrite plain_name in cloud by exact plain. discriminate cloud.
  - cbn [plainModel] in plain.
    set (m1 := {| Environment.children :=
                    Environment.children m
                    ++ [{| Environment.name := model;
                           Environment.position :=
                             {| x := -20; y := 0;
                                z := Environment.startZ
                                     - Environment.num i
                                       * Environment.buildingSpacing |} |}];
                  Environment.roadSegments := Environment.roadSegments m;
                  Environment.leftBuildings :=
                    Environment.leftBuildings m
                    ++ [List.length (Environment.children m)];
                  Environment.rightBuildings := Environment.rightBuildings m |}).
    assert (wf1 : wellFormed m1).
    { pose proof (fresh_reference m wf) as fresh. destruct wf as [nd valid].
      unfold wellFormed, scenery, m1 in *. envfields.
      replace (Environment.roadSegments m
               ++ (Environment.leftBuildings m
                   ++ [List.length (Environment.children m)])
               ++ Environment.rightBuildings m)
        with ((Environment.roadSegments m ++ Environment.leftBuildings m)
              ++ List.length (Environment.children m)
                 :: Environment.rightBuildings m)
        by (rewrite <- !app_assoc; reflexivity).
      split.
      - apply NoDup_insert; rewrite <- app_assoc; assumption.
      - rewrite length_app. cbn [List.length]. apply Forall_forall.
        intros r mem. rewrite Forall_forall in valid.
        rewrite !in_app_iff in mem. cbn [In] in mem.
        destruct mem as [[mem | mem] | [<- | mem]]; try lia;
          (assert (r < List.length (Environment.children m))%nat
             by (apply valid; rewrite !in_app_iff; auto); lia). }
    assert (inv1 : Rows m1).
    { eapply (Rows_extend m); [exact wf | reflexivity | | | | | exact inv];
        unfold m1; envfields; auto.
      - intros j mem. destruct (snoc_In _ _ _ mem) as [? | ->]; [auto|].
        right. split; [reflexivity|]. split; [apply plain_name, plain|]. auto.
      - intros cloud. rewrite plain_name in cloud by exact plain.
        discriminate cloud. }
    unfold Environment.buildingLoaded, Environment.add. cbv beta iota zeta.
    envfields.
    eapply (Rows_extend m1); [exact wf1 | reflexivity | | | | | exact inv1];
      unfold m1; envfields; auto.
    + intros j mem. destruct (snoc_In _ _ _ mem) as [? | ->]; [auto|].
      right. split; [reflexivity|]. split; [apply plain_name, plain|]. auto.
    + intros cloud. rewrite plain_name in cloud by exact plain. discriminate cloud.
  - unfold Environment.cloudLoaded.
    pose proof (randomX_range rt) as [lo hi].
    destruct (Environment.randomX rt) as [px rt1].
    pose proof (draw_range rt1) as [ulo uhi].
    destruct (draw rt1) as [u rt2].
    unfold Environment.add. cbn [fst snd] in *.
    eapply (Rows_extend m); [exact wf | reflexivity | | | | | exact inv];
      envfields; auto.
    intros _. unfold inTheSky, Environment.cloudHeight. envfields.
    repeat split; lra.
  - intros j o' look.
    destruct (updateEnvironment_lookup _ _ _ _ _ wf look) as (rt' & o & old & ->).
    destruct (updateEnvironment_arrays gameState rt m) as (e1 & e2 & e3 & _).
    rewrite e1, e2, e3, passage_isCloud.
    destruct (inv j o old) as (i1 & i2 & i3 & i4).
    destruct (shifted_keeps gameState m j o) as (nm & sx & sy).
    destruct (Environment.isCloud o) eqn:kind.
    + split; [|split; [|split]].
      * intros mem. destruct (i1 mem) as [c _]. rewrite kind in c. discriminate c.
      * intros mem. destruct (i2 mem) as [c _]. rewrite kind in c. discriminate c.
      * intros mem. destruct (i3 mem) as [c _]. rewrite kind in c. discriminate c.
      * intros _. unfold passage. apply moveCloud_sky.
        unfold inTheSky in *. rewrite sx, sy. auto.
    + assert (same : passage gameState m j rt' o = shifted gameState m j o).
      { unfold passage. apply moveCloud_plain.
        rewrite (isCloud_name _ o nm). exact kind. }
      rewrite same. unfold onLine.
      rewrite (isCloud_name _ o nm), sx, sy.
      unfold onLine in i1, i2, i3.
      split; [|split; [|split]]; [exact i1 | exact i2 | exact i3 | discriminate].
Qed.

Lemma initEnvironment_Rows : Rows Environment.initEnvironment.
Proof.
  intros j o look.
  split; [intros []|]. split; [intros []|]. split; [intros []|].
  intros cloud. apply nth_error_In in look. cbn in look.
  repeat (destruct look as [<- | look]; [discriminate cloud|]). destruct look.
Qed.

(** X21.  In every run of loads and frames whose frames have a speed of
    at most 400 (the game's is 0.3), each road segment, each building and
    each object of the scene named like a cloud stays at z <= 50. *)
Theorem scenery_stays_behind_the_camera (evs : list Environment.Event)
  (rt : Runtime) :
  Forall unhurried evs ->
  let m := snd (Environment.run evs rt) in
  forall j o, nth_error (Environment.children m) j = Some o ->
    In j (scenery m) \/ Environment.isCloud o = true ->
    z (Environment.position o) <= 50.
Proof.
  intros slow. cbv zeta.
  apply (run_invariant Behind unhurried initEnvironment_Behind step_Behind evs rt slow).
Qed.
Lemma scenery_stays_behind_the_camera_witness :
  exists o,
    nth_error (Environment.children (snd (Environment.run cityBlock quiet))) 8
    = Some o /\
    z (Environment.position o) <= 50.
Proof.
  eexists. split; [vm_compute; reflexivity|].
  apply (scenery_stays_behind_the_camera cityBlock quiet) with (j := 8%nat).
  - repeat constructor; cbn; lra.
  - vm_compute. reflexivity.
  - left. vm_compute. auto.
Defined.

(** X22.  The two rows of buildings have the same length at all times,
    and the [k]-th building on the left and the [k]-th on the right are at
    the same z, whatever the order of the loads, the names of the models
    and the speeds of the frames. *)
Theorem building_rows_stay_aligned (evs : list Environment.Event)
  (rt : Runtime) :
  let m := snd (Environment.run evs rt) in
  List.length (Environment.leftBuildings m)
  = List.length (Environment.rightBuildings m) /\
  forall k l r,
    nth_error (Environment.leftBuildings m) k = Some l ->
    nth_error (Environment.rightBuildings m) k = Some r ->
    exists a b,
      nth_error (Environment.children m) l = Some a /\
      nth_error (Environment.children m) r = Some b /\
      z (Environment.position a) = z (Environment.position b).
Proof.
  cbv zeta.
  pose proof (run_invariant Paired (fun _ => True) initEnvironment_Paired
                (fun s ev _ => step_Paired s ev) evs rt) as H.
  destruct H as [len pairs]; [apply Forall_forall; auto|].
  split; [exact len|]. intros k l r Hl Hr.
  destruct (pairs k l r Hl Hr) as (a & b & la & lb & _ & zz). eauto.
Qed.

